(** * RaggedWiki: chunking, structure parsing, metadata extraction and
      retrieval scoring

    A shallow embedding of the Python sources

      - [simple_rag_system/chunker.py]   (Layout-Aware, Naive, Abstract-First)
      - [simple_rag_system/ingest.py]    (MetadataExtractor, DocumentIndexer)
      - [simple_rag_system/query.py]     (RAGQueryEngine.query)
      - [simple_rag_system/config.py]    (the configuration constants)
      - [document-parser/scripts/parse_document_structure.py]

    Conventions of the embedding.

      - A Python [str] is a [string]; documents are taken to be ASCII text, so
        that a character is one [ascii] and [str.lower], [str.upper],
        [str.isspace] and the regular-expression class [\s] are the ASCII ones.
      - A Python [int] is a [Z]; a Python [float] is a binary64 [float]
        (Rocq's primitive floats follow IEEE 754 as CPython's do).
      - A [dict] with string keys is a [gmap string _]; a dict literal
        [{k: v, ..., **m}] is the left-biased union [m ∪ {k: v, ...}].
      - Exceptions are values of [exn]; a computation that may raise, or
        that loops, returns an [outcome].  A [while] loop is run by
        [py_while] with an explicit bound on the number of iterations and
        yields [Diverge] when the bound does not suffice.
      - The tokenizer (tiktoken), the embedding model, the vector index and
        the file system are collaborators: they are [Variable]s of the
        sections below, hence parameters of every definition that uses them. *)

From Stdlib Require Import ZArith Floats Lia List Ascii String Bool.
From Stdlib Require Import Relations.Relation_Operators.
From stdpp Require Import gmap strings list fin_maps pretty.

Close Scope Q_scope.
Local Open Scope string_scope.
Local Open Scope list_scope.
Local Open Scope Z_scope.

Set Default Proof Using "Type".
Set Warnings "-inexact-float".

(** ** Exceptions and outcomes *)

Inductive exn : Type :=
| ValueError (msg : string)
| TypeError
| KeyError (key : string)
| IndexError
| ZeroDivisionError.

Inductive outcome (A : Type) : Type :=
| Return (a : A)
| Raise (e : exn)
| Diverge.

Arguments Return {A} a.
Arguments Raise {A} e.
Arguments Diverge {A}.

Definition obind {A B : Type} (f : A -> outcome B) (m : outcome A) : outcome B :=
  match m with
  | Return a => f a
  | Raise e => Raise e
  | Diverge => Diverge
  end.

Definition omap {A B : Type} (f : A -> B) (m : outcome A) : outcome B :=
  match m with
  | Return a => Return (f a)
  | Raise e => Raise e
  | Diverge => Diverge
  end.

(** Whether a computation returned, and the value it returned. *)
Definition is_Return {A : Type} (m : outcome A) : bool :=
  match m with
  | Return _ => true
  | _ => false
  end.

Definition returned {A : Type} (default : A) (m : outcome A) : A :=
  match m with
  | Return a => a
  | _ => default
  end.

#[global] Instance outcome_ret : MRet outcome := @Return.
#[global] Instance outcome_fmap : FMap outcome := @omap.
#[global] Instance outcome_bind : MBind outcome := @obind.

(** [while cond(st): st = body(st)], run for at most [fuel] iterations. *)
Fixpoint py_while {S : Type} (fuel : nat) (cond : S -> outcome bool)
    (body : S -> outcome S) (st : S) : outcome S :=
  match fuel with
  | O => Diverge
  | Datatypes.S fuel' =>
      c ← cond st;
      if (c : bool) then (st' ← body st; py_while fuel' cond body st')
      else Return st
  end.

(** The state reached after [n] iterations of the loop body, when the
    condition held before each of them and nothing was raised. *)
Fixpoint py_iterate {S : Type} (n : nat) (cond : S -> outcome bool)
    (body : S -> outcome S) (st : S) : option S :=
  match n with
  | O => Some st
  | Datatypes.S n' =>
      match cond st with
      | Return true =>
          match body st with
          | Return st' => py_iterate n' cond body st'
          | _ => None
          end
      | _ => None
      end
  end.

(** ** Python strings *)

Definition NL : ascii := ascii_of_nat 10.
Definition nl : string := String NL "".

(** [str.isspace] on ASCII: TAB, LF, VT, FF, CR, FS, GS, RS, US and SPACE. *)
Definition py_isspace (c : ascii) : bool :=
  let n := nat_of_ascii c in
  ((9 <=? n)%nat && (n <=? 13)%nat) || ((28 <=? n)%nat && (n <=? 32)%nat).

(** [s.split(sep)] for a one-character separator: never the empty list. *)
Fixpoint py_split (sep : ascii) (s : string) : list string :=
  match s with
  | EmptyString => [""]
  | String c s' =>
      if Ascii.eqb c sep then "" :: py_split sep s'
      else match py_split sep s' with
           | hd :: tl => String c hd :: tl
           | [] => [String c ""]
           end
  end.

(** [sep.join(l)] *)
Fixpoint py_join (sep : string) (l : list string) : string :=
  match l with
  | [] => ""
  | x :: rest =>
      match rest with
      | [] => x
      | _ :: _ => x +:+ sep +:+ py_join sep rest
      end
  end.

Fixpoint py_lstrip (s : string) : string :=
  match s with
  | EmptyString => ""
  | String c s' => if py_isspace c then py_lstrip s' else s
  end.

Definition string_rev (s : string) : string :=
  string_of_list_ascii (rev (list_ascii_of_string s)).

Definition py_rstrip (s : string) : string :=
  string_rev (py_lstrip (string_rev s)).

(** [s.strip()] *)
Definition py_strip (s : string) : string := py_rstrip (py_lstrip s).

(** [s.split()]: the maximal runs of non-whitespace characters. *)
Fixpoint py_words_aux (s : string) (cur : string) : list string :=
  match s with
  | EmptyString => match cur with EmptyString => [] | _ => [string_rev cur] end
  | String c s' =>
      if py_isspace c
      then match cur with
           | EmptyString => py_words_aux s' ""
           | _ => string_rev cur :: py_words_aux s' ""
           end
      else py_words_aux s' (String c cur)
  end.

Definition py_words (s : string) : list string := py_words_aux s "".

(** [sub in s] *)
Fixpoint py_contains (sub s : string) : bool :=
  String.prefix sub s ||
  match s with
  | EmptyString => false
  | String _ s' => py_contains sub s'
  end.

Fixpoint py_rfind_from (sub s : string) (i best : Z) : Z :=
  let best' := if String.prefix sub s then i else best in
  match s with
  | EmptyString => best'
  | String _ s' => py_rfind_from sub s' (i + 1) best'
  end.

(** [s.rfind(sub)]: the highest index at which [sub] occurs, [-1] if none. *)
Definition py_rfind (s sub : string) : Z := py_rfind_from sub s 0 (-1).

(** Python's slice [l[start:stop]]: a negative bound counts from the end,
    and both bounds are clamped to [0 .. len(l)]. *)
Definition py_clamp (len i : Z) : Z :=
  if i <? 0 then Z.max 0 (i + len) else Z.min i len.

Definition py_slice {A : Type} (l : list A) (start stop : Z) : list A :=
  let len := Z.of_nat (length l) in
  let a := py_clamp len start in
  let b := py_clamp len stop in
  firstn (Z.to_nat (b - a)) (skipn (Z.to_nat a) l).

(** [l[:stop]] *)
Definition py_slice_to {A : Type} (l : list A) (stop : Z) : list A :=
  py_slice l 0 stop.

(** [s[:stop]] on a string. *)
Definition py_str_slice_to (s : string) (stop : Z) : string :=
  string_of_list_ascii (py_slice_to (list_ascii_of_string s) stop).

Definition ascii_lower (c : ascii) : ascii :=
  let n := nat_of_ascii c in
  if ((65 <=? n)%nat && (n <=? 90)%nat) then ascii_of_nat (n + 32) else c.

Definition ascii_upper (c : ascii) : ascii :=
  let n := nat_of_ascii c in
  if ((97 <=? n)%nat && (n <=? 122)%nat) then ascii_of_nat (n - 32) else c.

Fixpoint string_map (f : ascii -> ascii) (s : string) : string :=
  match s with
  | EmptyString => ""
  | String c s' => String (f c) (string_map f s')
  end.

Definition py_lower : string -> string := string_map ascii_lower.
Definition py_upper : string -> string := string_map ascii_upper.

(** [s.replace(a, b)] for one-character [a] and [b]. *)
Definition py_replace_char (a b : ascii) : string -> string :=
  string_map (fun c => if Ascii.eqb c a then b else c).

(** [str(n)] for an [int]. *)
Definition py_str_int (n : Z) : string := pretty n.

(** ** Regular expressions

    The fragment of Python's [re] syntax the sources use, with [re]'s
    backtracking semantics: alternatives are tried left to right, a greedy
    repetition tries one more iteration before stopping and a lazy one
    stops before trying one more, and the first way to match wins. *)

Inductive regex : Type :=
| RChar (c : ascii)                 (* a literal character *)
| RAny                              (* [.]: any character but a newline *)
| RSpace                            (* [\s] *)
| RBol                              (* [^] *)
| REol                              (* [$] *)
| REmpty
| RSeq (r1 r2 : regex)
| RAlt (r1 r2 : regex)              (* [r1|r2] *)
| RRep (greedy : bool) (lo : nat) (hi : option nat) (r : regex)
                                    (* [r{lo,hi}], [r*], [r+], [r+?] *)
| RGroup (n : nat) (r : regex).     (* the capturing group number [n] *)

Definition RStar (r : regex) : regex := RRep true 0 None r.
Definition RPlus (r : regex) : regex := RRep true 1 None r.
Definition RPlusLazy (r : regex) : regex := RRep false 1 None r.

(** A literal string. *)
Fixpoint RLit (s : string) : regex :=
  match s with
  | EmptyString => REmpty
  | String c s' => RSeq (RChar c) (RLit s')
  end.

(** The matcher's position in the subject: the index, the character before
    it, the text still ahead, and the groups captured so far. *)
Record mstate : Type := MState {
  ms_pos : nat;
  ms_prev : option ascii;
  ms_rest : list ascii;
  ms_caps : list (nat * string)
}.

Definition ms_advance (st : mstate) : option (ascii * mstate) :=
  match ms_rest st with
  | [] => None
  | c :: rest' =>
      Some (c, MState (Datatypes.S (ms_pos st)) (Some c) rest' (ms_caps st))
  end.

Definition ms_step (p : ascii -> bool) (st : mstate)
    (k : mstate -> option mstate) : option mstate :=
  match ms_advance st with
  | Some (c, st') => if p c then k st' else None
  | None => None
  end.

(** [^]: the start of the subject; with [re.MULTILINE] also after a newline. *)
Definition at_bol (multiline : bool) (st : mstate) : bool :=
  match ms_prev st with
  | None => true
  | Some c => multiline && Ascii.eqb c NL
  end.

(** [$]: the end of the subject or just before a newline that ends it;
    with [re.MULTILINE] also before every newline. *)
Definition at_eol (multiline : bool) (st : mstate) : bool :=
  match ms_rest st with
  | [] => true
  | c :: rest' =>
      Ascii.eqb c NL && (multiline || match rest' with [] => true | _ => false end)
  end.

Definition in_range (i : nat) (hi : option nat) : bool :=
  match hi with
  | None => true
  | Some h => (i <? h)%nat
  end.

Definition orelse (a : option mstate) (b : unit -> option mstate) : option mstate :=
  match a with
  | Some x => Some x
  | None => b tt
  end.

Fixpoint rx_match (multiline : bool) (r : regex) (st : mstate)
    (k : mstate -> option mstate) {struct r} : option mstate :=
  match r with
  | RChar c => ms_step (Ascii.eqb c) st k
  | RAny => ms_step (fun c => negb (Ascii.eqb c NL)) st k
  | RSpace => ms_step py_isspace st k
  | RBol => if at_bol multiline st then k st else None
  | REol => if at_eol multiline st then k st else None
  | REmpty => k st
  | RSeq r1 r2 =>
      rx_match multiline r1 st (fun st' => rx_match multiline r2 st' k)
  | RAlt r1 r2 =>
      orelse (rx_match multiline r1 st k) (fun _ => rx_match multiline r2 st k)
  | RRep greedy lo hi r1 =>
      (fix iter (fuel i : nat) (st : mstate) {struct fuel} : option mstate :=
         let stop := fun _ : unit => if (lo <=? i)%nat then k st else None in
         let more := fun _ : unit =>
           match fuel with
           | O => None
           | Datatypes.S fuel' =>
               if in_range i hi
               then rx_match multiline r1 st (fun st' =>
                      if (ms_pos st <? ms_pos st')%nat
                      then iter fuel' (Datatypes.S i) st' else None)
               else None
           end in
         if greedy then orelse (more tt) stop else orelse (stop tt) more)
        (length (ms_rest st)) O st
  | RGroup n r1 =>
      rx_match multiline r1 st (fun st' =>
        let text := string_of_list_ascii
                      (firstn (ms_pos st' - ms_pos st) (ms_rest st)) in
        k (MState (ms_pos st') (ms_prev st') (ms_rest st')
                  ((n, text) :: ms_caps st')))
  end.

(** A match object: where the match starts and ends, and its groups. *)
Record rmatch : Type := RMatch {
  m_start : nat;
  m_end : nat;
  m_groups : list (nat * string)
}.

(** [m.group(n)]; the empty string stands for a group that did not take part. *)
Fixpoint assoc_group (n : nat) (caps : list (nat * string)) : string :=
  match caps with
  | [] => ""
  | (m, s) :: rest => if (m =? n)%nat then s else assoc_group n rest
  end.

Definition m_group (m : rmatch) (n : nat) : string := assoc_group n (m_groups m).

Definition match_at (multiline : bool) (r : regex) (st : mstate) : option rmatch :=
  match rx_match multiline r (MState (ms_pos st) (ms_prev st) (ms_rest st) []) Some with
  | Some st' => Some (RMatch (ms_pos st) (ms_pos st') (ms_caps st'))
  | None => None
  end.

Definition ms_init (s : string) : mstate :=
  MState 0 None (list_ascii_of_string s) [].

(** [re.match(r, s)]: a match that starts at index 0. *)
Definition re_match (multiline : bool) (r : regex) (s : string) : option rmatch :=
  match_at multiline r (ms_init s).

(** The leftmost match at or after the position [st]. *)
Fixpoint search_from (multiline : bool) (r : regex) (fuel : nat) (st : mstate)
    : option rmatch :=
  match match_at multiline r st with
  | Some m => Some m
  | None =>
      match fuel, ms_advance st with
      | Datatypes.S fuel', Some (_, st') => search_from multiline r fuel' st'
      | _, _ => None
      end
  end.

(** [re.search(r, s)] *)
Definition re_search (multiline : bool) (r : regex) (s : string) : option rmatch :=
  search_from multiline r (String.length s) (ms_init s).

Fixpoint ms_skip (n : nat) (st : mstate) : mstate :=
  match n with
  | O => st
  | Datatypes.S n' =>
      match ms_advance st with
      | Some (_, st') => ms_skip n' st'
      | None => st
      end
  end.

(** [re.finditer(r, s)]: the successive leftmost matches, each search
    starting where the previous match ended.  (After an empty match the
    scan moves one character on; no pattern of the sources matches the
    empty string.) *)
Fixpoint finditer_from (multiline : bool) (r : regex) (fuel : nat) (st : mstate)
    : list rmatch :=
  match fuel with
  | O => []
  | Datatypes.S fuel' =>
      match search_from multiline r (length (ms_rest st)) st with
      | None => []
      | Some m =>
          let st1 := ms_skip (m_end m - ms_pos st) st in
          if (m_end m =? m_start m)%nat
          then match ms_advance st1 with
               | Some (_, st2) => m :: finditer_from multiline r fuel' st2
               | None => [m]
               end
          else m :: finditer_from multiline r fuel' st1
      end
  end.

Definition re_finditer (multiline : bool) (r : regex) (s : string) : list rmatch :=
  finditer_from multiline r (Datatypes.S (String.length s)) (ms_init s).

(** The concatenation of a list of patterns. *)
Fixpoint rx_seq (rs : list regex) : regex :=
  match rs with
  | [] => REmpty
  | r :: rest =>
      match rest with
      | [] => r
      | _ :: _ => RSeq r (rx_seq rest)
      end
  end.

(** ** Python values *)

(** The values a chunk or metadata dictionary holds. *)
Inductive pyval : Type :=
| VStr (s : string)
| VInt (n : Z)
| VBool (b : bool)
| VNone.

#[global] Instance pyval_eq_dec : EqDecision pyval.
Proof. solve_decision. Defined.

(** [str(v)], as an f-string formats [v]. *)
Definition py_str (v : pyval) : string :=
  match v with
  | VStr s => s
  | VInt n => py_str_int n
  | VBool true => "True"
  | VBool false => "False"
  | VNone => "None"
  end.

(** The truth value of [v] in a condition. *)
Definition py_truthy (v : pyval) : bool :=
  match v with
  | VStr s => negb (String.eqb s "")
  | VInt n => negb (n =? 0)
  | VBool b => b
  | VNone => false
  end.

(** [v < n] for an [int] [n]: a [bool] compares as 0 or 1, a [str] or
    [None] raises [TypeError]. *)
Definition py_lt_int (v : pyval) (n : Z) : outcome bool :=
  match v with
  | VInt m => Return (m <? n)
  | VBool b => Return ((if b then 1 else 0) <? n)
  | VStr _ | VNone => Raise TypeError
  end.

(** [v + s] for a [str] [s]. *)
Definition py_add_str (v : pyval) (s : string) : outcome string :=
  match v with
  | VStr t => Return (t +:+ s)
  | _ => Raise TypeError
  end.

(** [s + v] for a [str] [s]. *)
Definition py_str_add (s : string) (v : pyval) : outcome string :=
  match v with
  | VStr t => Return (s +:+ t)
  | _ => Raise TypeError
  end.

(** [d[k]] *)
Definition py_getitem (d : gmap string pyval) (k : string) : outcome pyval :=
  match d !! k with
  | Some v => Return v
  | None => Raise (KeyError k)
  end.

(** [l[i]] for [0 <= i]. *)
Definition py_index {A : Type} (l : list A) (i : nat) : outcome A :=
  match l !! i with
  | Some x => Return x
  | None => Raise IndexError
  end.

(** [float(n)] for an [int] below [2^63] in absolute value. *)
Definition float_of_int (n : Z) : float :=
  if n <? 0 then PrimFloat.opp (PrimFloat.of_uint63 (Uint63.of_Z (- n)))
  else PrimFloat.of_uint63 (Uint63.of_Z n).

(** [int(f)] for a finite [float]: truncation towards zero. *)
Definition int_of_float (f : float) : Z :=
  match Prim2SF f with
  | S754_finite s m e =>
      let v := if 0 <=? e then Z.pos m * 2 ^ e else Z.pos m / 2 ^ (- e) in
      if s then - v else v
  | _ => 0
  end.

(** ** config.py *)

Module config.

Definition EMBEDDING_MODEL : string := "sentence-transformers/all-MiniLM-L6-v2".

Definition CHUNKING_STRATEGY : string := "layout-aware".

Definition LAYOUT_AWARE_HEADING_LEVEL : string := "h2".
Definition LAYOUT_AWARE_MAX_TOKENS : Z := 900.
Definition LAYOUT_AWARE_MIN_TOKENS : Z := 200.
Definition LAYOUT_AWARE_MERGE_SMALL : bool := true.

Definition NAIVE_CHUNK_SIZE : Z := 512.
Definition NAIVE_OVERLAP : Z := 50.

Definition ABSTRACT_MAX_TOKENS : Z := 200.
Definition ABSTRACT_GENERATION_METHOD : string := "extractive".

Definition DEFAULT_TOP_K : Z := 3.
Definition MIN_SIMILARITY_SCORE : float := 0.3%float.

Definition CHROMADB_COLLECTION_NAME : string := "sre_wiki".
Definition CHROMADB_PERSIST_DIRECTORY : string := "./chromadb_index".

Definition SUPPORTED_EXTENSIONS : list string := [".md"; ".markdown"].

(** ["README.md"] and [r"^\."], as patterns: the dot of the first one is
    the regular expression's dot. *)
Definition EXCLUDE_PATTERNS : list regex :=
  [ rx_seq [RLit "README"; RAny; RLit "md"];
    rx_seq [RBol; RChar "."] ].

Definition TIKTOKEN_ENCODING : string := "cl100k_base".

End config.

(** ** chunker.py *)

Module chunker.

(** A chunk is a dictionary; its own fields are ["content"],
    ["section_title"], ["heading_level"], ["tokens"], ["chunk_index"] and,
    by strategy, ["start_token"], ["end_token"], ["merged"], ["abstract"],
    ["abstract_tokens"]; the document's metadata is spliced in last and so
    takes precedence on a shared key. *)
Abbreviation chunk := (gmap string pyval).

(** The [{"title": ..., "content": ...}] dictionaries of the splitters. *)
Record section : Type := Section_ { title : string; content : string }.

Record LayoutAwareChunker : Type := {
  max_tokens : Z;
  min_tokens : Z;
  merge_small : bool
}.

Record NaiveChunker : Type := {
  chunk_size : Z;
  overlap : Z
}.

(** [AbstractFirstChunker] extends [LayoutAwareChunker]. *)
Record AbstractFirstChunker : Type := {
  super : LayoutAwareChunker;
  abstract_max_tokens : Z
}.

Inductive Chunker : Type :=
| IsLayoutAware (self : LayoutAwareChunker)
| IsNaive (self : NaiveChunker)
| IsAbstractFirst (self : AbstractFirstChunker).

(** The constructors read the configuration. *)
Definition LayoutAwareChunker_init : LayoutAwareChunker :=
  {| max_tokens := config.LAYOUT_AWARE_MAX_TOKENS;
     min_tokens := config.LAYOUT_AWARE_MIN_TOKENS;
     merge_small := config.LAYOUT_AWARE_MERGE_SMALL |}.

Definition NaiveChunker_init : NaiveChunker :=
  {| chunk_size := config.NAIVE_CHUNK_SIZE;
     overlap := config.NAIVE_OVERLAP |}.

Definition AbstractFirstChunker_init : AbstractFirstChunker :=
  {| super := LayoutAwareChunker_init;
     abstract_max_tokens := config.ABSTRACT_MAX_TOKENS |}.

(** [r'^##\s+(.+)$'] and [r'^###\s+(.+)$'] *)
Definition re_h2 : regex :=
  rx_seq [RBol; RLit "##"; RPlus RSpace; RGroup 1 (RPlus RAny); REol].
Definition re_h3 : regex :=
  rx_seq [RBol; RLit "###"; RPlus RSpace; RGroup 1 (RPlus RAny); REol].

(** The state of a splitter's loop over the lines. *)
Record split_state : Type := SplitState {
  sections : list section;
  current_section : list string;
  current_title : string
}.

Definition save_section (st : split_state) : list section :=
  match current_section st with
  | [] => sections st
  | _ :: _ =>
      sections st ++
      [ {| title := current_title st;
           content := py_strip (py_join nl (current_section st)) |} ]
  end.

(** One iteration of [for line in lines] in [_split_by_h2] and
    [_split_by_h3], which differ in the heading pattern only. *)
Definition split_line (heading : regex) (st : split_state) (line : string)
    : split_state :=
  match re_match false heading line with
  | Some m => SplitState (save_section st) [line] (m_group m 1)
  | None => SplitState (sections st) (current_section st ++ [line]) (current_title st)
  end.

Definition split_by (heading : regex) (first_title : string) (content : string)
    : list section :=
  let lines := py_split NL content in
  save_section (fold_left (split_line heading) lines (SplitState [] [] first_title)).

Definition _split_by_h2 (content : string) : list section :=
  split_by re_h2 "Introduction" content.

Definition _split_by_h3 (content : string) : list section :=
  split_by re_h3 "Section" content.

(** [{"content": c, "section_title": t, "heading_level": h, "tokens": n,
      "chunk_index": i, **metadata}] *)
Definition layout_chunk (c t h : string) (n i : Z) (metadata : gmap string pyval)
    : chunk :=
  metadata ∪
  <["content" := VStr c]> (<["section_title" := VStr t]>
  (<["heading_level" := VStr h]> (<["tokens" := VInt n]>
  (<["chunk_index" := VInt i]> ∅)))).

Section Tokenizer.

(** The tiktoken codec. *)
Variable encode : string -> list Z.
Variable decode : list Z -> string.

(** [Chunker.count_tokens] *)
Definition count_tokens (text : string) : Z :=
  Z.of_nat (length (encode text)).

(** [encoding.encode(v)] for a value read from a dictionary. *)
Definition encode_value (v : pyval) : outcome (list Z) :=
  match v with
  | VStr s => Return (encode s)
  | _ => Raise TypeError
  end.

(** *** LayoutAwareChunker *)

(** The loop [for j, subsection in enumerate(subsections)]. *)
Definition append_subsection (sec : section) (metadata : gmap string pyval)
    (chunks : list chunk) (subsection : section) : list chunk :=
  chunks ++
  [ layout_chunk (content subsection)
      (title sec +:+ " - " +:+ title subsection) "h3"
      (count_tokens (content subsection))
      (Z.of_nat (length chunks)) metadata ].

(** One iteration of [for i, section in enumerate(sections)]. *)
Definition chunk_section (self : LayoutAwareChunker)
    (metadata : gmap string pyval) (chunks : list chunk) (sec : section)
    : list chunk :=
  let token_count := count_tokens (content sec) in
  if token_count <? 50 then chunks
  else if max_tokens self <? token_count
  then fold_left (append_subsection sec metadata) (_split_by_h3 (content sec)) chunks
  else chunks ++
       [ layout_chunk (content sec) (title sec) "h2" token_count
           (Z.of_nat (length chunks)) metadata ].

Record merge_state : Type := MergeState {
  merge_i : nat;
  merged : list chunk
}.

(** The body of the [while] loop of [_merge_small_chunks]. *)
Definition merge_body (self : LayoutAwareChunker) (chunks : list chunk)
    (st : merge_state) : outcome merge_state :=
  let i := merge_i st in
  current ← py_index chunks i;
  tokens ← py_getitem current "tokens";
  small ← py_lt_int tokens (min_tokens self);
  if small && (i + 1 <? length chunks)%nat
  then
    next_chunk ← py_index chunks (i + 1);
    c1 ← py_getitem current "content";
    s1 ← py_add_str c1 (nl +:+ nl);
    c2 ← py_getitem next_chunk "content";
    merged_content ← py_str_add s1 c2;
    t1 ← py_getitem current "section_title";
    t2 ← py_getitem next_chunk "section_title";
    Return (MergeState (i + 2)
      (merged st ++
       [ <["merged" := VBool true]>
         (<["tokens" := VInt (count_tokens merged_content)]>
         (<["section_title" := VStr (py_str t1 +:+ " + " +:+ py_str t2)]>
         (<["content" := VStr merged_content]> current))) ]))
  else Return (MergeState (i + 1) (merged st ++ [current])).

(** [_merge_small_chunks]: [i] grows with every iteration, so
    [len(chunks)] iterations and the last test suffice. *)
Definition _merge_small_chunks (self : LayoutAwareChunker) (chunks : list chunk)
    : outcome (list chunk) :=
  st ← py_while (Datatypes.S (length chunks))
        (fun st => Return (merge_i st <? length chunks)%nat)
        (merge_body self chunks) (MergeState 0 []);
  Return (merged st).

(** [LayoutAwareChunker.chunk] *)
Definition LayoutAwareChunker_chunk (self : LayoutAwareChunker)
    (content : string) (metadata : gmap string pyval) : outcome (list chunk) :=
  let sections := _split_by_h2 content in
  let chunks := fold_left (chunk_section self metadata) sections [] in
  if merge_small self then _merge_small_chunks self chunks
  else Return chunks.

(** *** NaiveChunker *)

Record naive_state : Type := NaiveState {
  start : Z;
  chunks : list chunk
}.

(** The body of the [while] loop of [NaiveChunker.chunk]. *)
Definition naive_body (self : NaiveChunker) (tokens : list Z)
    (metadata : gmap string pyval) (st : naive_state) : naive_state :=
  let end_ := Z.min (start st + chunk_size self) (Z.of_nat (length tokens)) in
  let chunk_tokens := py_slice tokens (start st) end_ in
  let chunk_text := decode chunk_tokens in
  let n := Z.of_nat (length (chunks st)) in
  NaiveState (end_ - overlap self)
    (chunks st ++
     [ metadata ∪
       <["content" := VStr chunk_text]>
       (<["section_title" := VStr ("Chunk " +:+ py_str_int (n + 1))]>
       (<["heading_level" := VStr "none"]>
       (<["tokens" := VInt (Z.of_nat (length chunk_tokens))]>
       (<["chunk_index" := VInt n]>
       (<["start_token" := VInt (start st)]>
       (<["end_token" := VInt end_]> ∅)))))) ]).

Definition naive_cond (tokens : list Z) (st : naive_state) : bool :=
  start st <? Z.of_nat (length tokens).

(** [NaiveChunker.chunk], its loop run for at most [fuel] iterations. *)
Definition NaiveChunker_chunk (fuel : nat) (self : NaiveChunker)
    (content : string) (metadata : gmap string pyval) : outcome (list chunk) :=
  let tokens := encode content in
  st ← py_while fuel (fun st => Return (naive_cond tokens st))
        (fun st => Return (naive_body self tokens metadata st))
        (NaiveState 0 []);
  Return (chunks st).

(** The state of that loop after [n] iterations, if it runs that long. *)
Definition naive_iterate (n : nat) (self : NaiveChunker)
    (content : string) (metadata : gmap string pyval) : option naive_state :=
  let tokens := encode content in
  py_iterate n (fun st => Return (naive_cond tokens st))
    (fun st => Return (naive_body self tokens metadata st))
    (NaiveState 0 []).

(** *** AbstractFirstChunker *)

(** [last_pos > len(abstract) * 0.7], in binary64 as Python computes it. *)
Definition close_to_end (last_pos len : Z) : bool :=
  PrimFloat.ltb (PrimFloat.mul (float_of_int len) 0.7%float) (float_of_int last_pos).

(** The loop [for char in ['. ', '! ', '? ']] of [_extractive_abstract]. *)
Fixpoint end_at_sentence (abstract : string) (chars : list string) : string :=
  match chars with
  | [] => abstract
  | char :: rest =>
      let last_pos := py_rfind abstract char in
      if close_to_end last_pos (Z.of_nat (String.length abstract))
      then py_str_slice_to abstract (last_pos + 1)
      else end_at_sentence abstract rest
  end.

Definition _extractive_abstract (self : AbstractFirstChunker) (content : string)
    : string :=
  let tokens := encode content in
  let abstract_tokens := py_slice_to tokens (abstract_max_tokens self) in
  let abstract := decode abstract_tokens in
  end_at_sentence abstract [". "; "! "; "? "].

Definition _generate_abstract (self : AbstractFirstChunker) (content : string)
    : string :=
  if String.eqb config.ABSTRACT_GENERATION_METHOD "extractive"
  then _extractive_abstract self content
  else _extractive_abstract self content.

(** One iteration of [for chunk in base_chunks]. *)
Definition add_abstract (self : AbstractFirstChunker) (c : chunk) : outcome chunk :=
  v ← py_getitem c "content";
  match v with
  | VStr text =>
      let abstract := _generate_abstract self text in
      Return (<["abstract_tokens" := VInt (count_tokens abstract)]>
              (<["abstract" := VStr abstract]> c))
  | _ => Raise TypeError
  end.

Fixpoint for_each {A B : Type} (f : A -> outcome B) (l : list A) : outcome (list B) :=
  match l with
  | [] => Return []
  | x :: rest => y ← f x; ys ← for_each f rest; Return (y :: ys)
  end.

(** [AbstractFirstChunker.chunk] *)
Definition AbstractFirstChunker_chunk (self : AbstractFirstChunker)
    (content : string) (metadata : gmap string pyval) : outcome (list chunk) :=
  base_chunks ← LayoutAwareChunker_chunk (super self) content metadata;
  for_each (add_abstract self) base_chunks.

(** [chunker.chunk(content, metadata)], by the class of [chunker]. *)
Definition chunk_ (fuel : nat) (c : Chunker) (content : string)
    (metadata : gmap string pyval) : outcome (list chunk) :=
  match c with
  | IsLayoutAware self => LayoutAwareChunker_chunk self content metadata
  | IsNaive self => NaiveChunker_chunk fuel self content metadata
  | IsAbstractFirst self => AbstractFirstChunker_chunk self content metadata
  end.

End Tokenizer.

(** [get_chunker(strategy)] *)
Definition get_chunker (strategy : option string) : outcome Chunker :=
  let strategy :=
    match strategy with
    | None => config.CHUNKING_STRATEGY
    | Some s => s
    end in
  if String.eqb strategy "layout-aware" then Return (IsLayoutAware LayoutAwareChunker_init)
  else if String.eqb strategy "naive" then Return (IsNaive NaiveChunker_init)
  else if String.eqb strategy "abstract-first"
  then Return (IsAbstractFirst AbstractFirstChunker_init)
  else Raise (ValueError ("Unknown chunking strategy: " +:+ strategy)).

End chunker.

(** ** parse_document_structure.py *)

Module parse_document_structure.

(** [count_tokens]: [int(words * 1.3)]. *)
Definition count_tokens (text : string) : Z :=
  let words := Z.of_nat (length (py_words text)) in
  int_of_float (PrimFloat.mul (float_of_int words) 1.3%float).

Record header : Type := Header {
  h_level : Z;
  h_title : string;
  line_num : Z
}.

(** [r'^(#{1,6})\s+(.+)$'] *)
Definition re_header : regex :=
  rx_seq [RBol; RGroup 1 (RRep true 1 (Some 6%nat) (RChar "#"));
          RPlus RSpace; RGroup 2 (RPlus RAny); REol].

(** The loop [for i, line in enumerate(lines, 1)] of [extract_headers],
    [i] being the number of the first of [lines]. *)
Fixpoint headers_from (i : Z) (lines : list string) : list header :=
  match lines with
  | [] => []
  | line :: rest =>
      match re_match false re_header (py_strip line) with
      | Some m =>
          Header (Z.of_nat (String.length (m_group m 1)))
                 (py_strip (m_group m 2)) i
          :: headers_from (i + 1) rest
      | None => headers_from (i + 1) rest
      end
  end.

Definition extract_headers (content : string) : list header :=
  headers_from 1 (py_split NL content).

Record Section : Type := {
  id : string;
  title : string;
  level : Z;
  parent_id : option string;
  start_line : Z;
  end_line : Z;
  token_count : Z;
  content : string;
  children : list string
}.

(** [f"sec_{i}"] *)
Definition sec_id (i : nat) : string := "sec_" +:+ pretty i.

(** The loop [for j in range(i - 1, -1, -1)]: [find_parent headers lvl i]
    looks at the headers [i - 1], ..., [0] in this order. *)
Fixpoint find_parent (headers : list header) (lvl : Z) (i : nat) : option string :=
  match i with
  | O => None
  | Datatypes.S j =>
      match headers !! j with
      | Some h => if h_level h <? lvl then Some (sec_id j)
                  else find_parent headers lvl j
      | None => find_parent headers lvl j
      end
  end.

(** The section of the header number [i], its children not yet filled in. *)
Definition make_section (lines : list string) (headers : list header)
    (i : nat) (h : header) : Section :=
  let start_line := line_num h in
  let end_line :=
    match headers !! (i + 1)%nat with
    | Some next => line_num next - 1
    | None => Z.of_nat (length lines)
    end in
  let section_lines := py_slice lines start_line end_line in
  let section_content := py_join nl section_lines in
  {| id := sec_id i;
     title := h_title h;
     level := h_level h;
     parent_id := find_parent headers (h_level h) i;
     start_line := start_line;
     end_line := end_line;
     token_count := count_tokens section_content;
     content := section_content;
     children := [] |}.

(** [other['parent_id'] == section['id']] *)
Definition is_child_of (s other : Section) : bool :=
  match parent_id other with
  | Some p => String.eqb p (id s)
  | None => false
  end.

(** The loops that build the children lists. *)
Definition add_children (sections : list Section) (s : Section) : Section :=
  {| id := id s;
     title := title s;
     level := level s;
     parent_id := parent_id s;
     start_line := start_line s;
     end_line := end_line s;
     token_count := token_count s;
     content := content s;
     children := children s ++ map id (List.filter (is_child_of s) sections) |}.

Definition build_section_hierarchy (content : string) (headers : list header)
    : list Section :=
  let lines := py_split NL content in
  let sections := imap (make_section lines headers) headers in
  map (add_children sections) sections.

(** The parser as [main] runs it. *)
Definition parse (content : string) : list Section :=
  build_section_hierarchy content (extract_headers content).

(** [s * n]: [n] copies of [s], none when [n <= 0]. *)
Fixpoint str_repeat (s : string) (n : nat) : string :=
  match n with
  | O => ""
  | Datatypes.S n' => s +:+ str_repeat s n'
  end.

Definition py_str_mul (s : string) (n : Z) : string := str_repeat s (Z.to_nat n).

(** What a call of [format_section] comes to: its text, the
    [StopIteration] of [next(...)] when no section has the id, or a
    recursion that has not come to its end. *)
Inductive formatted : Type :=
| Text (s : string)
| StopIteration
| Unfinished.

(** [output += format_section(...)] *)
Definition append_text (output more : formatted) : formatted :=
  match output with
  | Text out =>
      match more with
      | Text t => Text (out +:+ t)
      | e => e
      end
  | e => e
  end.

(** The line [f"{prefix}{'#' * level} {title} ({tokens} tokens)\n"]. *)
Definition section_line (indent : Z) (section : Section) : string :=
  let prefix := py_str_mul "  " indent in
  prefix +:+ py_str_mul "#" (level section) +:+ " " +:+ title section +:+
  " (" +:+ py_str_int (token_count section) +:+ " tokens)" +:+ nl.

(** [format_section], the local function of [generate_section_map]; it
    calls itself on the children, [fuel] bounding the depth. *)
Fixpoint format_section (fuel : nat) (sections : list Section) (sid : string)
    (indent : Z) : formatted :=
  match fuel with
  | O => Unfinished
  | Datatypes.S fuel' =>
      match List.find (fun s => String.eqb (id s) sid) sections with
      | None => StopIteration
      | Some section =>
          fold_left
            (fun output child_id =>
               append_text output
                 (format_section fuel' sections child_id (indent + 1)))
            (children section) (Text (section_line indent section))
      end
  end.

(** [generate_section_map] *)
Definition generate_section_map (fuel : nat) (sections : list Section)
    : formatted :=
  let roots :=
    map id (List.filter (fun s => match parent_id s with
                                  | None => true
                                  | Some _ => false
                                  end) sections) in
  let map_text := "# Document Section Map" +:+ nl +:+ nl in
  fold_left
    (fun output root_id =>
       append_text output (format_section fuel sections root_id 0))
    roots (Text map_text).

End parse_document_structure.

(** ** ingest.py *)

Module ingest.

(** [r'>\s*\*\*(.+?):\*\*\s*(.+?)(?:\s*\||$)'] *)
Definition blockquote_pattern : regex :=
  rx_seq [RChar ">"; RStar RSpace; RLit "**"; RGroup 1 (RPlusLazy RAny);
          RLit ":**"; RStar RSpace; RGroup 2 (RPlusLazy RAny);
          RAlt (RSeq (RStar RSpace) (RChar "|")) REol].

(** [r'^#\s+(.+)$'], compiled with [re.MULTILINE] where it is used. *)
Definition re_h1 : regex :=
  rx_seq [RBol; RChar "#"; RPlus RSpace; RGroup 1 (RPlus RAny); REol].

(** [MetadataExtractor._infer_content_type] *)
Definition _infer_content_type (path_str : string) : string :=
  if py_contains "/runbooks/" path_str then "runbook"
  else if py_contains "/how-to/" path_str then "how-to"
  else if py_contains "/incidents/" path_str then "incident"
  else if py_contains "/process/" path_str then "process"
  else if py_contains "/apps/" path_str then "service-overview"
  else if py_contains "/event-prep/" path_str then "event-prep"
  else "document".

(** One iteration of [for match in re.finditer(blockquote_pattern, content)]. *)
Definition add_match (metadata : gmap string string) (m : rmatch)
    : gmap string string :=
  let key := py_replace_char " " "_" (py_lower (m_group m 1)) in
  let value := py_strip (m_group m 2) in
  <[key := value]> metadata.

(** [MetadataExtractor.extract_from_content] *)
Definition extract_from_content (content file_path : string) : gmap string string :=
  let metadata : gmap string string :=
    <["content_type" := _infer_content_type file_path]>
    (<["source_file" := file_path]> ∅) in
  let metadata :=
    fold_left add_match (re_finditer false blockquote_pattern content) metadata in
  let metadata :=
    match re_search true re_h1 content with
    | Some h1_match => <["title" := m_group h1_match 1]> metadata
    | None => metadata
    end in
  let metadata :=
    match metadata !! "service" with
    | Some v => <["service_name" := v]> metadata
    | None => metadata
    end in
  match metadata !! "severity" with
  | Some v => <["severity" := py_upper v]> metadata
  | None => metadata
  end.

(** *** DocumentIndexer *)

Section World.

(** The tokenizer, the file system, the embedding model.  Console output is
    not modelled. *)
Variable encode : string -> list Z.
Variable decode : list Z -> string.
Variable rglob : string -> string -> list string.
Variable read_text : string -> string.
Variable path_name : string -> string.
Variable path_stem : string -> string.
Variable relative_to_grandparent : string -> string.
Variable embedding : Type.
Variable embedding_model_encode : list pyval -> list embedding.

(** What the indexer does to the world, in order. *)
Inductive event : Type :=
| Rglob (directory pattern : string)
| Open (file_path : string)
| Encode (texts : list pyval)
| CollectionAdd (ids : list string) (embeddings : list embedding)
    (documents : list pyval) (metadatas : list (gmap string pyval)).

(** A computation that appends to the log of events and may raise. *)
Definition io (A : Type) : Type := list event -> outcome A * list event.

Definition io_ret {A : Type} (a : A) : io A := fun log => (Return a, log).

Definition io_bind {A B : Type} (f : A -> io B) (m : io A) : io B :=
  fun log =>
    match m log with
    | (Return a, log') => f a log'
    | (Raise e, log') => (Raise e, log')
    | (Diverge, log') => (Diverge, log')
    end.

#[local] Instance io_mret : MRet io := @io_ret.
#[local] Instance io_mbind : MBind io := @io_bind.

Definition emit (e : event) : io unit := fun log => (Return tt, log ++ [e]).

Definition lift {A : Type} (o : outcome A) : io A := fun log => (o, log).

(** [chunk.get(key, default)] *)
Definition py_get (d : gmap string pyval) (key : string) (default : pyval) : pyval :=
  match d !! key with
  | Some v => v
  | None => default
  end.

(** One iteration of [for field in optional_fields]. *)
Definition add_optional (c : gmap string pyval) (chunk_metadata : gmap string pyval)
    (field : string) : gmap string pyval :=
  match c !! field with
  | Some v => if py_truthy v then <[field := VStr (py_str v)]> chunk_metadata
              else chunk_metadata
  | None => chunk_metadata
  end.

Definition chunk_metadata_of (file_path : string) (i : nat) (c : gmap string pyval)
    : gmap string pyval :=
  let chunk_metadata : gmap string pyval :=
    <["source_file" := VStr (relative_to_grandparent file_path)]>
    (<["section_title" := py_get c "section_title" (VStr "")]>
    (<["heading_level" := py_get c "heading_level" (VStr "h2")]>
    (<["tokens" := py_get c "tokens" (VInt 0)]>
    (<["chunk_index" := VInt (Z.of_nat i)]>
    (<["content_type" := py_get c "content_type" (VStr "document")]> ∅))))) in
  fold_left (add_optional c) ["service_name"; "environment"; "severity"; "owner"; "title"]
    chunk_metadata.

Definition chunk_id_of (file_path : string) (i : nat) : string :=
  path_stem file_path +:+ "-chunk-" +:+ pretty i.

(** The loop [for i, (chunk, embedding) in enumerate(zip(chunks, embeddings))],
    which fills [ids], [metadatas] and [documents]. *)
Record add_args : Type := AddArgs {
  ids : list string;
  metadatas : list (gmap string pyval);
  documents : list pyval
}.

Fixpoint prepare (file_path : string) (i : nat)
    (zipped : list (gmap string pyval * embedding)) (acc : add_args)
    : outcome add_args :=
  match zipped with
  | [] => Return acc
  | (c, _) :: rest =>
      let chunk_id := chunk_id_of file_path i in
      let chunk_metadata := chunk_metadata_of file_path i c in
      document ← py_getitem c "content";
      prepare file_path (Datatypes.S i) rest
        (AddArgs (ids acc ++ [chunk_id]) (metadatas acc ++ [chunk_metadata])
                 (documents acc ++ [document]))
  end.

(** [DocumentIndexer.index_file] *)
Definition index_file (fuel : nat) (file_path : string) (c : chunker.Chunker)
    : io Z :=
  _ ← emit (Open file_path);
  let content := read_text file_path in
  let metadata := VStr <$> extract_from_content content file_path in
  chunks ← lift (chunker.chunk_ encode decode fuel c content metadata);
  match chunks with
  | [] => mret 0
  | _ :: _ =>
      chunk_texts ← lift (chunker.for_each (fun ch => py_getitem ch "content") chunks);
      _ ← emit (Encode chunk_texts);
      let embeddings := embedding_model_encode chunk_texts in
      args ← lift (prepare file_path 0 (zip chunks embeddings) (AddArgs [] [] []));
      _ ← emit (CollectionAdd (ids args) embeddings (documents args) (metadatas args));
      mret (Z.of_nat (length chunks))
  end.

(** [any(re.match(pattern, f.name) for pattern in config.EXCLUDE_PATTERNS)] *)
Definition excluded (f : string) : bool :=
  existsb (fun pattern => bool_decide (is_Some (re_match false pattern (path_name f))))
          config.EXCLUDE_PATTERNS.

(** The loop [for ext in config.SUPPORTED_EXTENSIONS]. *)
Fixpoint find_files (directory : string) (exts : list string) : io (list string) :=
  match exts with
  | [] => mret []
  | ext :: rest =>
      _ ← emit (Rglob directory ("*" +:+ ext));
      more ← find_files directory rest;
      mret (rglob directory ("*" +:+ ext) ++ more)
  end.

(** The loop [for file_path in track(md_files)]. *)
Fixpoint index_files (fuel : nat) (c : chunker.Chunker) (md_files : list string)
    (total_chunks : Z) : io Z :=
  match md_files with
  | [] => mret total_chunks
  | file_path :: rest =>
      chunks_count ← index_file fuel file_path c;
      index_files fuel c rest (total_chunks + chunks_count)
  end.

(** [DocumentIndexer.index_directory]; the value is [total_chunks], which
    the source prints. *)
Definition index_directory (fuel : nat) (directory : string)
    (strategy : option string) : io Z :=
  c ← lift (chunker.get_chunker strategy);
  md_files ← find_files directory config.SUPPORTED_EXTENSIONS;
  let md_files := List.filter (fun f => negb (excluded f)) md_files in
  index_files fuel c md_files 0.

End World.

End ingest.

(** ** query.py *)

Module query.

(** What [collection.query] returns: per-query lists under ['ids'],
    ['documents'], ['metadatas'] and, when present, ['distances']. *)
Record query_results : Type := {
  ids : list (list string);
  documents : list (list string);
  metadatas : list (list (gmap string pyval));
  distances : option (list (list float))
}.

(** A formatted result. *)
Record result : Type := Result {
  id : string;
  content : string;
  metadata : gmap string pyval;
  score : float
}.

(** [1 / (1 + distance)] in binary64; a zero divisor raises. *)
Definition similarity_of (distance : float) : outcome float :=
  let divisor := PrimFloat.add 1%float distance in
  if PrimFloat.eqb divisor 0%float then Raise ZeroDivisionError
  else Return (PrimFloat.div 1%float divisor).


(** [top_k or default]: [None] and [0] are false. *)
Definition or_int (v : option Z) (default : Z) : Z :=
  match v with
  | Some n => if n =? 0 then default else n
  | None => default
  end.

(** [min_score or default]: [None] and [0.0] are false. *)
Definition or_float (v : option float) (default : float) : float :=
  match v with
  | Some x => if PrimFloat.eqb x 0%float then default else x
  | None => default
  end.

(** [results['distances'][0][i] if 'distances' in results else 0] *)
Definition distance_of (results : query_results) (i : nat) : outcome float :=
  match distances results with
  | Some ds => row ← py_index ds 0; py_index row i
  | None => Return 0%float
  end.

(** The loop [for i in range(len(results['ids'][0]))], with its [continue]
    and its [break]. *)
Fixpoint collect (top_k : Z) (min_score : float) (results : query_results)
    (indices : list nat) (formatted_results : list result)
    : outcome (list result) :=
  match indices with
  | [] => Return formatted_results
  | i :: rest =>
      distance ← distance_of results i;
      similarity ← similarity_of distance;
      if PrimFloat.ltb similarity min_score
      then collect top_k min_score results rest formatted_results
      else
        ids0 ← py_index (ids results) 0;
        the_id ← py_index ids0 i;
        documents0 ← py_index (documents results) 0;
        document ← py_index documents0 i;
        metadatas0 ← py_index (metadatas results) 0;
        the_metadata ← py_index metadatas0 i;
        let formatted_results :=
          formatted_results ++ [Result the_id document the_metadata similarity] in
        if top_k <=? Z.of_nat (length formatted_results)
        then Return formatted_results
        else collect top_k min_score results rest formatted_results
  end.

Section Engine.

(** The embedding model and the vector index. *)
Variable embedding : Type.
Variable embedding_model_encode : string -> embedding.
Variable collection_query :
  embedding -> Z -> option (gmap string pyval) -> query_results.

(** [RAGQueryEngine.query] *)
Definition query (q : string) (top_k : option Z)
    (filters : option (gmap string pyval)) (min_score : option float)
    : outcome (list result) :=
  let top_k := or_int top_k config.DEFAULT_TOP_K in
  let min_score := or_float min_score config.MIN_SIMILARITY_SCORE in
  let query_embedding := embedding_model_encode q in
  let results := collection_query query_embedding (top_k * 2) filters in
  ids0 ← py_index (ids results) 0;
  collect top_k min_score results (seq 0 (length ids0)) [].

End Engine.

End query.

(** ** A stand-in tokenizer for worked examples

    The theorems below hold for every tokenizer; where one is needed to run
    the code on a concrete document, this one is used: one token per
    character, the token being the character's code. *)

Module char_codec.

Definition encode (s : string) : list Z :=
  map (fun c => Z.of_nat (nat_of_ascii c)) (list_ascii_of_string s).

Definition decode (tokens : list Z) : string :=
  string_of_list_ascii (map (fun t => ascii_of_nat (Z.to_nat t)) tokens).

End char_codec.

Fixpoint string_repeat (c : ascii) (n : nat) : string :=
  match n with
  | O => ""
  | Datatypes.S n' => String c (string_repeat c n')
  end.

(** A document of 1000 tokens for [char_codec]. *)
Definition thousand_tokens : string := string_repeat "a" 1000.

(** The token range a chunk of the Naive strategy records. *)
Definition token_range (c : gmap string pyval) : option pyval * option pyval :=
  (c !! "start_token", c !! "end_token").

(** What is looked at of a state of the Naive strategy's loop: the ranges
    of the chunks emitted so far, [start], and the loop's test. *)
Definition naive_view (tokens : list Z) (st : chunker.naive_state)
    : list (option pyval * option pyval) * Z * bool :=
  (map token_range (chunker.chunks st), chunker.start st,
   chunker.naive_cond tokens st).

(** A paragraph of 59 characters. *)
Definition paragraph : string :=
  "123456789 123456789 123456789 123456789 123456789 123456789".

(** Three level-2 sections of 64 tokens each for [char_codec]: all of them
    above the noise bound 50 and below the minimum 200. *)
Definition three_small_sections : string :=
  "## A" +:+ nl +:+ paragraph +:+ nl +:+
  "## B" +:+ nl +:+ paragraph +:+ nl +:+
  "## C" +:+ nl +:+ paragraph.

(** What is looked at of a chunk of the Layout-Aware strategy. *)
Definition index_view (c : gmap string pyval)
    : option pyval * option pyval * option pyval * option pyval :=
  (c !! "section_title", c !! "tokens", c !! "merged", c !! "chunk_index").

(** The annotation line of the spec's example. *)
Definition service_severity_line : string :=
  "> **Service:** checkout | **Severity:** SEV2".

(** C2 as the spec words it: every chunk's [chunk_index] is its position in
    the list. *)
Definition indexed_by_position (chunks : list (gmap string pyval)) : Prop :=
  forall (i : nat) c, chunks !! i = Some c ->
    c !! "chunk_index" = Some (VInt (Z.of_nat i)).

(** *** Reading a document by line numbers

    Lines are numbered from 1, as [extract_headers] numbers them. *)

(** The line number [n] of [lines]. *)
Definition line_at (lines : list string) (n : Z) : option string :=
  if n <? 1 then None else lines !! Z.to_nat (n - 1).

(** The lines numbered [first], ..., [last]. *)
Definition lines_between (lines : list string) (first last : Z) : list string :=
  firstn (Z.to_nat (last + 1 - first)) (skipn (Z.to_nat (first - 1)) lines).

(** The level and title [extract_headers] reads off a heading line;
    [None] for a line that is no heading. *)
Definition heading_of (line : string) : option (Z * string) :=
  match re_match false parse_document_structure.re_header (py_strip line) with
  | Some m => Some (Z.of_nat (String.length (m_group m 1)), py_strip (m_group m 2))
  | None => None
  end.

(** The line number the header after position [a] has, [bound] when there
    is none. *)
Definition next_line (hs : list parse_document_structure.header) (a : nat) (bound : Z) : Z :=
  match hs !! Datatypes.S a with
  | Some h => parse_document_structure.line_num h
  | None => bound
  end.

Definition first_line (hs : list parse_document_structure.header) (bound : Z) : Z :=
  match hs with
  | h :: _ => parse_document_structure.line_num h
  | [] => bound
  end.

(** The parent relation of a section list: [child_parent sections c p] when
    the section with id [c] records [p] as its parent. *)
Definition child_parent (sections : list parse_document_structure.Section)
    (c p : string) : Prop :=
  exists s, s ∈ sections /\ parse_document_structure.id s = c /\
            parse_document_structure.parent_id s = Some p.

(** C4 as the spec words it: the content of the section of a heading runs
    from the heading's own line to the line before the next heading, or to
    the last line of the document. *)
Definition content_spans_from_heading_line (text : string) : Prop :=
  let lines := py_split NL text in
  let headers := parse_document_structure.extract_headers text in
  forall i h s,
    headers !! i = Some h ->
    parse_document_structure.parse text !! i = Some s ->
    parse_document_structure.content s =
      py_join nl
        (lines_between lines (parse_document_structure.line_num h)
           (next_line headers i (Z.of_nat (length lines) + 1) - 1)).

(** A heading, a body line, a sub-heading and its two body lines. *)
Definition small_document : string :=
  "# A" +:+ nl +:+ "body" +:+ nl +:+ "## B" +:+ nl +:+ "b1" +:+ nl +:+ "b2".

(** *** The extractive abstract as the spec words it *)

(** [s[n:]] *)
Fixpoint string_drop (n : nat) (s : string) : string :=
  match n, s with
  | O, _ => s
  | Datatypes.S n', String _ s' => string_drop n' s'
  | Datatypes.S _, EmptyString => ""
  end.

(** The sentence terminator nearest to the end of [abstract]: a period,
    exclamation mark or question mark followed by a space; [-1] if none. *)
Definition nearest_terminator (abstract : string) : Z :=
  Z.max (py_rfind abstract ". ")
        (Z.max (py_rfind abstract "! ") (py_rfind abstract "? ")).

(** The index [pos] lies past 70% of the length [len]: [pos > len * 0.7],
    the product and the comparison taken in binary64. *)
Definition past_seventy_percent (pos len : Z) : bool :=
  PrimFloat.ltb (PrimFloat.mul (float_of_int len) 0.7%float) (float_of_int pos).

(** C5 as the spec words it: the first [n] tokens, decoded, cut at the
    nearest terminator when that lies past 70% of the length. *)
Definition abstract_as_specified (encode : string -> list Z)
    (decode : list Z -> string) (n : Z) (content : string) : string :=
  let abstract := decode (py_slice_to (encode content) n) in
  let pos := nearest_terminator abstract in
  if past_seventy_percent pos (Z.of_nat (String.length abstract))
  then py_str_slice_to abstract (pos + 1)
  else abstract.

(** What the code does: the terminators are tried in the order ['. '],
    ['! '], ['? '], and the first whose last occurrence lies past 70% of
    the length decides the cut. *)
Definition cut_by_priority (abstract : string) : string :=
  let len := Z.of_nat (String.length abstract) in
  let period := py_rfind abstract ". " in
  let exclamation := py_rfind abstract "! " in
  let question := py_rfind abstract "? " in
  if past_seventy_percent period len then py_str_slice_to abstract (period + 1)
  else if past_seventy_percent exclamation len
  then py_str_slice_to abstract (exclamation + 1)
  else if past_seventy_percent question len
  then py_str_slice_to abstract (question + 1)
  else abstract.

(** C5 as the spec words it, of every chunk the Abstract-First strategy
    returns. *)
Definition abstract_cut_at_nearest_terminator : Prop :=
  forall (encode : string -> list Z) (decode : list Z -> string)
         (self : chunker.AbstractFirstChunker) (content : string)
         (metadata : gmap string pyval) (chunks : list (gmap string pyval))
         (c : gmap string pyval),
    chunker.AbstractFirstChunker_chunk encode decode self content metadata
      = Return chunks ->
    c ∈ chunks ->
    exists text,
      c !! "content" = Some (VStr text) /\
      c !! "abstract"
      = Some (VStr (abstract_as_specified encode decode
                      (chunker.abstract_max_tokens self) text)).

(** A document of one section of 69 tokens for [char_codec]: its text has
    a period at index 59 and, nearer to its end, an exclamation mark at
    index 65, both followed by a space and both past 70% of the length. *)
Definition two_terminator_section : string :=
  "## Notes" +:+ nl +:+ string_repeat "a" 50 +:+ ". Bbbb! Cc".

(** The chunks the Abstract-First strategy gives for it. *)
Definition abstracts_of_two_terminator_section : list (gmap string pyval) :=
  returned []
    (chunker.AbstractFirstChunker_chunk char_codec.encode char_codec.decode
       chunker.AbstractFirstChunker_init two_terminator_section ∅).

(** *** Retrieval scoring *)

(** C6 as the spec words it, on the code's binary64 score: a smaller
    non-negative distance has a strictly greater score. *)
Definition score_strictly_decreasing : Prop :=
  forall d1 d2 s1 s2 : float,
    PrimFloat.leb 0%float d1 = true ->
    PrimFloat.ltb d1 d2 = true ->
    query.similarity_of d1 = Return s1 ->
    query.similarity_of d2 = Return s2 ->
    PrimFloat.ltb s2 s1 = true.

(** *** Binary64 rounding

    The score is computed in Python floats.  Their sum and quotient are the
    ones of [SpecFloat], which the primitive floats implement; the
    definitions below read a float that is not negative as a whole number
    of units of [2 ^ -1074] and describe rounding to nearest on fractions
    of such units. *)

(** The quotient [N / D] as the rounding routines of [SpecFloat] carry it:
    the integer part, the round bit and the sticky bit. *)
Definition frac_record (N D : Z) : shr_record :=
  let r := N mod D in
  {| shr_m := N / D;
     shr_r := D <=? 2 * r;
     shr_s := negb ((r =? 0) || (2 * r =? D)) |}.

(** [N / D] rounded to the nearest integer, ties to even. *)
Definition rne_frac (N D : Z) : Z :=
  let mrs := frac_record N D in
  round_nearest_even (shr_m mrs) (loc_of_shr_record mrs).

(** The value of a float that is not negative, in units of [2 ^ -1074];
    the infinity stands one step above every finite float. *)
Definition units (x : spec_float) : Z :=
  match x with
  | S754_finite false m e => Z.pos m * 2 ^ (e + 1074)
  | S754_infinity false => 2 ^ 2098
  | _ => 0
  end.

(** Zero of either sign, a positive finite float or the positive infinity. *)
Definition nonneg (x : spec_float) : bool :=
  match x with
  | S754_zero _ => true
  | S754_finite s _ _ => negb s
  | S754_infinity s => negb s
  | S754_nan => false
  end.

(** [N / D] units lie in [[2 ^ (k - 1), 2 ^ k)]. *)
Definition is_mag (N D k : Z) : Prop :=
  0 < D /\ 1 <= k /\ 2 ^ (k - 1) * D <= N < 2 ^ k * D.

(** The binary64 rounding to nearest, ties to even, of [N / D] units of
    magnitude [k]. *)
Definition rounded (N D k : Z) : Z :=
  let g := Z.max (k - 53) 0 in
  Z.min (2 ^ 2098) (rne_frac N (2 ^ g * D) * 2 ^ g).

(** The float [1.0]. *)
Definition sf_one : spec_float := S754_finite false 4503599627370496 (-52).

(** The greatest finite binary64 float. *)
Definition max_float : float := 0x1.fffffffffffffp+1023%float.

(** The candidates of an index reply with their scores, in the reply's
    order. *)
Fixpoint scored (ids documents : list string)
    (metadatas : list (gmap string pyval)) (distances : list float)
    : list query.result :=
  match ids, documents, metadatas, distances with
  | i :: ids', c :: documents', m :: metadatas', d :: distances' =>
      query.Result i c m (PrimFloat.div 1%float (PrimFloat.add 1%float d))
      :: scored ids' documents' metadatas' distances'
  | _, _, _, _ => []
  end.

(** A candidate survives the filter unless its score is below the minimum. *)
Definition survives (min_score : float) (r : query.result) : Prop :=
  PrimFloat.ltb (query.score r) min_score = false.

#[global] Instance survives_dec min_score r : Decision (survives min_score r).
Proof. unfold survives. apply _. Defined.

(** An index for worked examples: whatever is asked, three candidates at
    the distances 0, 9 and 1, hence with the scores 1, 0.1 and 0.5. *)
Definition three_candidates : query.query_results :=
  {| query.ids := [["a"; "b"; "c"]];
     query.documents := [["doc a"; "doc b"; "doc c"]];
     query.metadatas := [[∅; ∅; ∅]];
     query.distances := Some [[0%float; 9%float; 1%float]] |}.

Definition example_index (_ : unit) (_ : Z) (_ : option (gmap string pyval))
    : query.query_results :=
  three_candidates.

(** *** The indexer's log *)

(** The files a log records as opened, in order. *)
Definition opened {embedding : Type} (log : list (ingest.event embedding))
    : list string :=
  base.omap (fun e => match e with ingest.Open _ f => Some f | _ => None end) log.

(** What the loop over the chunks of [index_file] has built so far: as
    many ids as metadata records, the one at position [j] made for
    position [j]. *)
Definition built_by_position (path_stem : string -> string) (file_path : string)
    (args : ingest.add_args) : Prop :=
  length (ingest.metadatas args) = length (ingest.ids args) /\
  forall (j : nat) x, ingest.ids args !! j = Some x ->
    x = ingest.chunk_id_of path_stem file_path j /\
    exists m, ingest.metadatas args !! j = Some m /\
              m !! "chunk_index" = Some (VInt (Z.of_nat j)).

(** The run of [index_file] on one file that holds [three_small_sections],
    with [char_codec] and an embedding model that maps every text to [tt]. *)
Definition example_index_file : outcome Z * list (ingest.event unit) :=
  ingest.index_file char_codec.encode char_codec.decode
    (fun _ => three_small_sections) (fun p => p) (fun p => p) unit
    (fun texts => map (fun _ => tt) texts) 1
    "wiki/runbooks/a.md" (chunker.IsLayoutAware chunker.LayoutAwareChunker_init) [].

(** Runs a computation of the indexer's monad by unfolding it. *)
Ltac run_io :=
  unfold mbind, ingest.io_mbind, ingest.io_bind, mret, ingest.io_mret,
    ingest.io_ret, ingest.emit, ingest.lift in *.

(** *** Chunks of the Layout-Aware strategy *)

(** A chunk the merge pass can read: its ["tokens"] is an [int], its
    ["content"] a [str], and it has a ["section_title"]. *)
Definition mergeable (c : gmap string pyval) : Prop :=
  (exists n, c !! "tokens" = Some (VInt n)) /\
  (exists text, c !! "content" = Some (VStr text)) /\
  is_Some (c !! "section_title").

(** The text of a chunk. *)
Definition content_of (c : gmap string pyval) : string :=
  match c !! "content" with
  | Some (VStr text) => text
  | _ => ""
  end.

(** A chunk whose ["tokens"] is the token count of its ["content"]. *)
Definition tokens_match (encode : string -> list Z) (c : gmap string pyval) : Prop :=
  exists text,
    c !! "content" = Some (VStr text) /\
    c !! "tokens" = Some (VInt (chunker.count_tokens encode text)).

(** What the merge pass makes of a list of chunks: the same text when the
    contents are joined by blank lines, in at most as many and at least
    half as many chunks, each readable again, and with exact token counts
    if it was given exact token counts. *)
Definition merge_of (encode : string -> list Z)
    (chunks merged : list (gmap string pyval)) : Prop :=
  py_join (nl +:+ nl) (map content_of merged)
    = py_join (nl +:+ nl) (map content_of chunks) /\
  (length merged <= length chunks <= 2 * length merged)%nat /\
  Forall mergeable merged /\
  (Forall (tokens_match encode) chunks -> Forall (tokens_match encode) merged).

(** The same chunker with the merge pass switched off. *)
Definition without_merge (self : chunker.LayoutAwareChunker)
    : chunker.LayoutAwareChunker :=
  {| chunker.max_tokens := chunker.max_tokens self;
     chunker.min_tokens := chunker.min_tokens self;
     chunker.merge_small := false |}.

(** Whether a computation returned a list that is not empty. *)
Definition returns_some {A : Type} (m : outcome (list A)) : bool :=
  match m with
  | Return (_ :: _) => true
  | _ => false
  end.

(** Two chunks of two tokens each for [char_codec]. *)
Definition two_small_chunks : list (gmap string pyval) :=
  [ chunker.layout_chunk "aa" "A" "h2" 2 0 ∅;
    chunker.layout_chunk "bb" "B" "h2" 2 1 ∅ ].

(** A document whose annotation is named [Tokens]. *)
Definition tokens_annotation : string :=
  "> **Tokens:** many |" +:+ nl +:+ paragraph.

(** The chunks of a run of the Naive strategy tile the tokens: the chunk at
    position [i] covers the tokens from [i * size] up to [(i + 1) * size],
    or up to the last token. *)
Definition tiles (size total : Z) (chunks : list (gmap string pyval)) : Prop :=
  forall (i : nat) c, chunks !! i = Some c ->
    token_range c
    = (Some (VInt (Z.of_nat i * size)),
       Some (VInt (Z.min ((Z.of_nat i + 1) * size) total))).

(** Whether a splitter takes [line] for a heading. *)
Definition is_heading (heading : regex) (line : string) : bool :=
  match re_match false heading line with
  | Some _ => true
  | None => false
  end.

(** The section a splitter makes of a run of lines: titled by its first
    line when that is a heading, by [first_title] otherwise. *)
Definition section_of_lines (heading : regex) (first_title : string)
    (g : list string) : chunker.section :=
  {| chunker.title :=
       match g with
       | line :: _ =>
           match re_match false heading line with
           | Some m => m_group m 1
           | None => first_title
           end
       | [] => first_title
       end;
     chunker.content := py_strip (py_join nl g) |}.

(** Runs of lines cut at the heading lines: no run is empty, a heading is
    nowhere but at the start of a run, and every run but the first starts
    with one. *)
Definition cut_at_headings (heading : regex) (groups : list (list string)) : Prop :=
  Forall (fun g => g <> [] /\
                   Forall (fun l => is_heading heading l = false) (tail g)) groups /\
  Forall (fun g => exists l, head g = Some l /\ is_heading heading l = true)
         (tail groups).

(** The invariant of a splitter's loop after the lines [seen]. *)
Definition split_inv (heading : regex) (first_title : string)
    (seen : list string) (st : chunker.split_state) : Prop :=
  exists groups,
    seen = concat groups ++ chunker.current_section st /\
    chunker.sections st = map (section_of_lines heading first_title) groups /\
    cut_at_headings heading groups /\
    Forall (fun l => is_heading heading l = false)
           (tail (chunker.current_section st)) /\
    (groups <> [] ->
     exists l, head (chunker.current_section st) = Some l /\
               is_heading heading l = true) /\
    chunker.current_title st
    = chunker.title (section_of_lines heading first_title
                       (chunker.current_section st)).

(** What the Abstract-First strategy makes of a Layout-Aware chunk: the
    same chunk with the abstract of its content under ["abstract"] and the
    abstract's token count under ["abstract_tokens"]. *)
Definition abstract_added (encode : string -> list Z) (decode : list Z -> string)
    (self : chunker.AbstractFirstChunker) (c c' : gmap string pyval) : Prop :=
  (forall k, k <> "abstract" -> k <> "abstract_tokens" -> c' !! k = c !! k) /\
  c' !! "abstract"
  = Some (VStr (chunker._generate_abstract encode decode self (content_of c))) /\
  c' !! "abstract_tokens"
  = Some (VInt (chunker.count_tokens encode
                  (chunker._generate_abstract encode decode self (content_of c)))).

(** The size of a chunk as the Layout-Aware strategy bounds it: a chunk
    of a whole section has between 50 and [max_tokens] tokens; a chunk of
    a subsection is not bounded. *)
Definition within_limits (self : chunker.LayoutAwareChunker)
    (c : gmap string pyval) : Prop :=
  (c !! "heading_level" = Some (VStr "h2") /\
   exists n, c !! "tokens" = Some (VInt n) /\ 50 <= n <= chunker.max_tokens self) \/
  c !! "heading_level" = Some (VStr "h3").

(** The index of the header [find_parent] names: the nearest earlier
    header of a lower level. *)
Fixpoint parent_index (headers : list parse_document_structure.header)
    (lvl : Z) (i : nat) : option nat :=
  match i with
  | O => None
  | Datatypes.S j =>
      match headers !! j with
      | Some h =>
          if parse_document_structure.h_level h <? lvl then Some j
          else parent_index headers lvl j
      | None => parent_index headers lvl j
      end
  end.

Definition parent_of (headers : list parse_document_structure.header)
    (i : nat) : option nat :=
  match headers !! i with
  | Some h => parent_index headers (parse_document_structure.h_level h) i
  | None => None
  end.

(** The number of ancestors of the section number [i]. *)
Fixpoint depth_from (headers : list parse_document_structure.header)
    (fuel i : nat) : nat :=
  match fuel with
  | O => O
  | Datatypes.S fuel' =>
      match parent_of headers i with
      | Some j => Datatypes.S (depth_from headers fuel' j)
      | None => O
      end
  end.

Definition depth (headers : list parse_document_structure.header) (i : nat) : nat :=
  depth_from headers (Datatypes.S i) i.

Definition level_at (headers : list parse_document_structure.header)
    (j : nat) : Z :=
  match headers !! j with
  | Some h => parse_document_structure.h_level h
  | None => 0
  end.

Definition concat_lines (l : list string) : string :=
  fold_right String.append "" l.

(** The lines of the section map for the sections number [a], ...,
    [e - 1], each at the depth [dep] gives it. *)
Definition map_lines (secs : list parse_document_structure.Section)
    (dep : nat -> nat) (a e : nat) : string :=
  concat_lines
    (map (fun j =>
            match secs !! j with
            | Some s => parse_document_structure.section_line (Z.of_nat (dep j)) s
            | None => ""
            end)
         (seq a (e - a))).

(** A run [a], ..., [e - 1] of sections that is a forest hanging under
    [p]: each section of the run has [p] or a section of the run for its
    parent ([under]), no later section has its parent in the run
    ([closed]), and [p] comes before the run ([below]). *)
Definition under (par : nat -> option nat) (a e : nat) (p : option nat) : Prop :=
  forall j, (a <= j < e)%nat ->
            par j = p \/ exists k, par j = Some k /\ (a <= k)%nat.

(** The positions among [js] whose parent is [p]. *)
Definition hanging (par : nat -> option nat) (p : option nat) (js : list nat)
    : list nat :=
  filter (fun j => par j = p) js.

Definition closed (n : nat) (par : nat -> option nat) (a e : nat) : Prop :=
  forall j k, (e <= j < n)%nat -> par j = Some k -> ~ (a <= k < e)%nat.

Definition below (p : option nat) (a : nat) : Prop :=
  forall q, p = Some q -> (q < a)%nat.

(** Whether the pattern [r] has a capturing group number [n]. *)
Fixpoint binds (n : nat) (r : regex) : bool :=
  match r with
  | RGroup m r1 => (m =? n)%nat || binds n r1
  | RSeq r1 r2 | RAlt r1 r2 => binds n r1 || binds n r2
  | RRep _ _ _ r1 => binds n r1
  | _ => false
  end.

(** * Facts *)

(** ** Loops *)

Lemma obind_diverge {A B : Type} (f : A -> outcome B) : Diverge ≫= f = Diverge.
Proof. reflexivity. Qed.

Lemma returned_Return {A : Type} (default : A) (m : outcome A) :
  is_Return m = true -> m = Return (returned default m).
Proof. now destruct m. Qed.

Lemma hd_elem_of {A : Type} (default : A) (l : list A) :
  (0 < length l)%nat -> hd default l ∈ l.
Proof. destruct l; cbn; [lia|]. intros _. apply list_elem_of_here. Qed.

(** A loop whose condition holds forever exhausts every bound. *)
Lemma py_while_diverges {S : Type} (inv : S -> Prop)
    (cond : S -> outcome bool) (body : S -> outcome S) :
  (forall st, inv st -> cond st = Return true) ->
  (forall st, inv st -> exists st', body st = Return st' /\ inv st') ->
  forall fuel st, inv st -> py_while fuel cond body st = Diverge.
Proof.
  intros Hcond Hbody fuel.
  induction fuel as [|fuel IH]; intros st Hinv; [reflexivity|].
  cbn. rewrite (Hcond st Hinv). cbn.
  destruct (Hbody st Hinv) as (st' & -> & Hinv'). cbn.
  now apply IH.
Qed.

(** [py_iterate] describes the run of [py_while]: once the loop has done
    [n] iterations it goes on from the state reached. *)
Lemma py_while_iterate {S : Type} (cond : S -> outcome bool)
    (body : S -> outcome S) (n : nat) :
  forall fuel st st',
    py_iterate n cond body st = Some st' ->
    py_while (n + fuel) cond body st = py_while fuel cond body st'.
Proof.
  induction n as [|n IH]; intros fuel st st' H; cbn in *.
  - now inversion H.
  - destruct (cond st) as [[|]| |]; try discriminate. cbn.
    destruct (body st) as [st1| |]; try discriminate. cbn.
    now apply IH.
Qed.

(** A loop whose body lowers a measure halts within that many iterations:
    it returns or raises. *)
Lemma py_while_halts {S : Type} (measure : S -> nat)
    (cond : S -> outcome bool) (body : S -> outcome S) :
  (forall st, cond st <> Diverge) ->
  (forall st, body st <> Diverge) ->
  (forall st st', cond st = Return true -> body st = Return st' ->
     (measure st' < measure st)%nat) ->
  forall fuel st, (measure st < fuel)%nat -> py_while fuel cond body st <> Diverge.
Proof.
  intros Hc Hb Hm fuel.
  induction fuel as [|fuel IH]; intros st Hlt; [lia|].
  cbn [py_while].
  destruct (cond st) as [[|]| |] eqn:Ec; cbn; try discriminate.
  - destruct (body st) as [st'| |] eqn:Eb; cbn; try discriminate.
    + apply IH. specialize (Hm st st' Ec Eb). lia.
    + now destruct (Hb st).
  - now destruct (Hc st).
Qed.

(** ** The Naive strategy *)

Section NaiveFacts.

Variable encode : string -> list Z.
Variable decode : list Z -> string.

(** The loop's test stays true: [end] is at most the token count, so the
    next [start], [end - overlap], is below it when the overlap is positive. *)
Lemma naive_body_start_below (self : chunker.NaiveChunker) (tokens : list Z)
    (metadata : gmap string pyval) (st : chunker.naive_state) :
  0 < chunker.overlap self ->
  chunker.start (chunker.naive_body decode self tokens metadata st)
    < Z.of_nat (length tokens).
Proof. intros Hov. cbn. lia. Qed.

(** C1. The Naive Sliding-Window chunker with a positive overlap never
    returns on a document with at least one token: after each chunk the
    loop sets [start] to [end - overlap], where [end] is the clipped end of
    the chunk, so [start] stays below the token count and the test
    [start < len(tokens)] never fails.  (An overlap below the window size
    does not give termination.) *)
Theorem NaiveChunker_chunk_diverges (self : chunker.NaiveChunker)
    (content : string) (metadata : gmap string pyval) :
  0 < chunker.overlap self ->
  encode content <> [] ->
  forall fuel,
    chunker.NaiveChunker_chunk encode decode fuel self content metadata = Diverge.
Proof.
  intros Hov Hne fuel. unfold chunker.NaiveChunker_chunk.
  rewrite (py_while_diverges
             (fun st => chunker.start st < Z.of_nat (length (encode content)))).
  - reflexivity.
  - intros st Hst. unfold chunker.naive_cond. f_equal. now apply Z.ltb_lt.
  - intros st _. eexists. split; [reflexivity|].
    now apply naive_body_start_below.
  - cbn. destruct (encode content); [congruence|cbn; lia].
Qed.

End NaiveFacts.

(** The spec's example: window 512, overlap 50, a document of 1000 tokens. *)
Lemma NaiveChunker_chunk_diverges_1000 :
  chunker.chunk_size chunker.NaiveChunker_init = 512 /\
  chunker.overlap chunker.NaiveChunker_init = 50 /\
  length (char_codec.encode thousand_tokens) = 1000%nat /\
  forall fuel,
    chunker.NaiveChunker_chunk char_codec.encode char_codec.decode fuel
      chunker.NaiveChunker_init thousand_tokens ∅ = Diverge.
Proof.
  split; [reflexivity|]. split; [reflexivity|]. split; [vm_compute; reflexivity|].
  apply (NaiveChunker_chunk_diverges char_codec.encode char_codec.decode
           chunker.NaiveChunker_init thousand_tokens ∅).
  - vm_compute. reflexivity.
  - vm_compute. discriminate.
Defined.

(** On that document the first three chunks are the spec's, [0,512),
    [462,974) and [924,1000); the loop then goes on from [start = 950],
    emits [950,1000) and is back at [start = 950]. *)
Lemma naive_1000_trace :
  naive_view (char_codec.encode thousand_tokens) <$>
    chunker.naive_iterate char_codec.encode char_codec.decode 3
      chunker.NaiveChunker_init thousand_tokens ∅
  = Some ([ (Some (VInt 0), Some (VInt 512));
            (Some (VInt 462), Some (VInt 974));
            (Some (VInt 924), Some (VInt 1000)) ], 950, true)
  /\
  naive_view (char_codec.encode thousand_tokens) <$>
    chunker.naive_iterate char_codec.encode char_codec.decode 4
      chunker.NaiveChunker_init thousand_tokens ∅
  = Some ([ (Some (VInt 0), Some (VInt 512));
            (Some (VInt 462), Some (VInt 974));
            (Some (VInt 924), Some (VInt 1000));
            (Some (VInt 950), Some (VInt 1000)) ], 950, true).
Proof. split; vm_compute; reflexivity. Qed.

(** With no overlap and a positive window the same loop does stop. *)
Lemma NaiveChunker_chunk_returns_without_overlap
    (encode : string -> list Z) (decode : list Z -> string)
    (self : chunker.NaiveChunker) (content : string)
    (metadata : gmap string pyval) :
  chunker.overlap self = 0 ->
  0 < chunker.chunk_size self ->
  exists chunks,
    chunker.NaiveChunker_chunk encode decode
      (Datatypes.S (length (encode content))) self content metadata
    = Return chunks.
Proof.
  intros Hov Hcs. unfold chunker.NaiveChunker_chunk.
  set (tokens := encode content).
  assert (H : forall n st,
             0 <= chunker.start st ->
             Z.of_nat (length tokens) - chunker.start st <= Z.of_nat n ->
             exists st',
               py_while (Datatypes.S n)
                 (fun st => Return (chunker.naive_cond tokens st))
                 (fun st => Return (chunker.naive_body decode self tokens metadata st))
                 st = Return st').
  { induction n as [|n IH]; intros st H0 Hn.
    - cbn. unfold chunker.naive_cond.
      destruct (Z.ltb_spec (chunker.start st) (Z.of_nat (length tokens))); [lia|].
      cbn. eauto.
    - cbn [py_while]. cbn. unfold chunker.naive_cond at 1.
      destruct (Z.ltb_spec (chunker.start st) (Z.of_nat (length tokens))).
      + cbn. apply IH; cbn; lia.
      + cbn. eauto. }
  destruct (H (length tokens) (chunker.NaiveState 0 [])) as [st' Hst'];
    [cbn; lia | cbn; lia |].
  rewrite Hst'. cbn. eauto.
Qed.

(** ** The Layout-Aware strategy *)

Section LayoutAwareFacts.

Variable encode : string -> list Z.

(** Every iteration of the merge loop moves [i] forward. *)
Lemma merge_body_advances (self : chunker.LayoutAwareChunker)
    (chunks : list (gmap string pyval)) (st st' : chunker.merge_state) :
  chunker.merge_body encode self chunks st = Return st' ->
  (chunker.merge_i st < chunker.merge_i st')%nat.
Proof.
  unfold chunker.merge_body. intros H.
  repeat match type of H with
  | (?m ≫= _) = Return _ => destruct m; cbn in H; try discriminate
  | (if ?b then _ else _) = Return _ => destruct b
  end; inversion H; cbn; lia.
Qed.

(** The merge pass returns or raises; its loop needs no more than
    [len(chunks)] iterations. *)
Lemma _merge_small_chunks_halts (self : chunker.LayoutAwareChunker)
    (chunks : list (gmap string pyval)) :
  chunker._merge_small_chunks encode self chunks <> Diverge.
Proof.
  unfold chunker._merge_small_chunks.
  pose proof (py_while_halts
    (fun st => (length chunks - chunker.merge_i st)%nat)
    (fun st => Return (chunker.merge_i st <? length chunks)%nat)
    (chunker.merge_body encode self chunks)) as H.
  specialize (H ltac:(discriminate)).
  assert (Hb : forall st, chunker.merge_body encode self chunks st <> Diverge).
  { intros st. unfold chunker.merge_body.
    repeat match goal with
    | |- (?m ≫= _) <> Diverge =>
        let E := fresh in destruct m eqn:E; cbn; try discriminate
    | |- (if ?b then _ else _) <> Diverge => destruct b
    | |- Return _ <> Diverge => discriminate
    | E : py_index _ _ = Diverge |- _ =>
        unfold py_index in E; destruct (_ !! _) in E; discriminate
    | E : py_getitem _ _ = Diverge |- _ =>
        unfold py_getitem in E; destruct (_ !! _) in E; discriminate
    | E : py_lt_int ?v _ = Diverge |- _ => destruct v; discriminate
    | E : py_add_str ?v _ = Diverge |- _ => destruct v; discriminate
    | E : py_str_add _ ?v = Diverge |- _ => destruct v; discriminate
    end. }
  specialize (H Hb).
  assert (Hm : forall st st',
             Return (chunker.merge_i st <? length chunks)%nat = Return true ->
             chunker.merge_body encode self chunks st = Return st' ->
             (length chunks - chunker.merge_i st' < length chunks - chunker.merge_i st)%nat).
  { intros st st' Hc Hbody. apply merge_body_advances in Hbody.
    inversion Hc as [Hlt]. apply Nat.ltb_lt in Hlt. lia. }
  specialize (H Hm (Datatypes.S (length chunks)) (chunker.MergeState 0 [])).
  destruct (py_while _ _ _ _); cbn; try discriminate.
  exfalso. apply H; [cbn; lia | reflexivity].
Qed.

(** Where the metadata has no key ["chunk_index"], a chunk as built by
    [chunk] records the index it is given. *)
Lemma layout_chunk_index (c t h : string) (n i : Z) (metadata : gmap string pyval) :
  metadata !! "chunk_index" = None ->
  chunker.layout_chunk c t h n i metadata !! "chunk_index" = Some (VInt i).
Proof.
  intros Hmd. unfold chunker.layout_chunk.
  rewrite lookup_union_r by exact Hmd.
  now repeat (rewrite lookup_insert_ne by discriminate); rewrite lookup_insert_eq.
Qed.

Lemma indexed_by_position_snoc chunks c :
  indexed_by_position chunks ->
  c !! "chunk_index" = Some (VInt (Z.of_nat (length chunks))) ->
  indexed_by_position (chunks ++ [c]).
Proof.
  intros Hall Hc i c' Hi.
  apply lookup_app_Some in Hi as [Hi | [Hge Hi]]; [now apply Hall|].
  apply list_lookup_singleton_Some in Hi as [Hi <-].
  replace i with (length chunks) by lia. exact Hc.
Qed.

Lemma chunk_section_indexed (self : chunker.LayoutAwareChunker)
    (metadata : gmap string pyval) (sec : chunker.section) chunks :
  metadata !! "chunk_index" = None ->
  indexed_by_position chunks ->
  indexed_by_position (chunker.chunk_section encode self metadata chunks sec).
Proof.
  intros Hmd Hall. unfold chunker.chunk_section.
  destruct (_ <? 50); [exact Hall|].
  destruct (_ <? _).
  - generalize (chunker._split_by_h3 (chunker.content sec)). intros subs.
    revert chunks Hall. induction subs as [|sub subs IH]; intros chunks Hall;
      [exact Hall|].
    cbn. apply IH. unfold chunker.append_subsection.
    apply indexed_by_position_snoc; [exact Hall|].
    now apply layout_chunk_index.
  - apply indexed_by_position_snoc; [exact Hall|].
    now apply layout_chunk_index.
Qed.

(** Without the merge pass every chunk's [chunk_index] is its position in
    the returned list. *)
Lemma chunk_index_is_position_without_merge (self : chunker.LayoutAwareChunker)
    (content : string) (metadata : gmap string pyval) :
  chunker.merge_small self = false ->
  metadata !! "chunk_index" = None ->
  exists chunks,
    chunker.LayoutAwareChunker_chunk encode self content metadata = Return chunks /\
    indexed_by_position chunks.
Proof.
  intros Hoff Hmd. unfold chunker.LayoutAwareChunker_chunk. rewrite Hoff.
  eexists. split; [reflexivity|].
  generalize (chunker._split_by_h2 content). intros secs.
  assert (H : forall chunks, indexed_by_position chunks ->
            indexed_by_position
              (fold_left (chunker.chunk_section encode self metadata) secs chunks)).
  { induction secs as [|sec secs IH]; intros chunks Hall; [exact Hall|].
    cbn. apply IH. now apply chunk_section_indexed. }
  apply H. intros i c Hi. now rewrite lookup_nil in Hi.
Qed.

End LayoutAwareFacts.

(** C2.  The merge pass does not renumber: a merged chunk copies the fields
    of its first source, [chunk_index] included, and the chunks after it
    keep the index they had before merging.  With the configured
    thresholds, three level-2 sections of 64 tokens give two chunks,
    ["A + B"] with [chunk_index] 0 and ["C"], at position 1, with
    [chunk_index] 2. *)
Theorem chunk_index_after_merge_is_stale :
  fmap (M := outcome) (map index_view)
    (chunker.LayoutAwareChunker_chunk char_codec.encode
       chunker.LayoutAwareChunker_init three_small_sections ∅)
  = Return
      [ (Some (VStr "A + B"), Some (VInt 130), Some (VBool true), Some (VInt 0));
        (Some (VStr "C"), Some (VInt 64), None, Some (VInt 2)) ].
Proof. vm_compute. reflexivity. Qed.

(** The chunks returned for [three_small_sections] are not indexed by
    position. *)
Lemma merged_chunks_not_indexed_by_position :
  ~ indexed_by_position
      (returned []
         (chunker.LayoutAwareChunker_chunk char_codec.encode
            chunker.LayoutAwareChunker_init three_small_sections ∅)).
Proof.
  intros H.
  assert (E : returned []
                (chunker.LayoutAwareChunker_chunk char_codec.encode
                   chunker.LayoutAwareChunker_init three_small_sections ∅)
              !! 1%nat ≫= (fun c => c !! "chunk_index")
              = Some (VInt 2)) by (vm_compute; reflexivity).
  destruct (returned [] _ !! 1%nat) as [c|] eqn:Ec; [|discriminate].
  cbn in E. rewrite (H 1%nat c Ec) in E. discriminate.
Qed.

(** ** Metadata extraction *)

(** [blockquote_pattern] starts with the quote marker, so on the example
    line [re.finditer] finds one match: the first pair, up to its pipe.
    What follows the pipe has no quote marker and matches nowhere. *)
Lemma blockquote_matches_of_example :
  re_finditer false ingest.blockquote_pattern service_severity_line
  = [ RMatch 0 25 [(2%nat, "checkout"); (1%nat, "Service")] ].
Proof. vm_compute. reflexivity. Qed.

(** C3.  On the text [> **Service:** checkout | **Severity:** SEV2] the
    extractor yields [service] and [service_name], both ["checkout"], and
    no [severity]: the pair in the pipe-delimited continuation contributes
    no field. *)
Theorem pipe_continuation_is_not_extracted (file_path : string) :
  let metadata := ingest.extract_from_content service_severity_line file_path in
  metadata !! "service" = Some "checkout" /\
  metadata !! "service_name" = Some "checkout" /\
  metadata !! "severity" = None.
Proof. vm_compute. repeat split. Qed.

(** A continuation that repeats the quote marker is extracted, its value
    upper-cased for [severity]. *)
Lemma quoted_continuation_is_extracted (file_path : string) :
  let metadata :=
    ingest.extract_from_content
      "> **Service:** checkout | > **Severity:** sev2" file_path in
  metadata !! "service" = Some "checkout" /\
  metadata !! "service_name" = Some "checkout" /\
  metadata !! "severity" = Some "SEV2".
Proof. vm_compute. repeat split. Qed.

(** ** The structure parser *)

Section ParserFacts.

Import parse_document_structure.

Lemma sec_id_inj (i j : nat) : sec_id i = sec_id j -> i = j.
Proof.
  unfold sec_id. intros H. apply (inj (String.app "sec_")) in H.
  now apply (inj pretty) in H.
Qed.

(** *** Headers *)

Lemma next_line_cons h hs a bound :
  next_line (h :: hs) (Datatypes.S a) bound = next_line hs a bound.
Proof. reflexivity. Qed.

Lemma next_line_0 h hs bound :
  next_line (h :: hs) 0 bound = first_line hs bound.
Proof. unfold next_line. now destruct hs. Qed.

Lemma lookup_shift (l : string) (rest : list string) (n i0 : Z) :
  i0 < n -> (l :: rest) !! Z.to_nat (n - i0) = rest !! Z.to_nat (n - (i0 + 1)).
Proof.
  intros Hn. replace (Z.to_nat (n - i0)) with (Datatypes.S (Z.to_nat (n - (i0 + 1)))) by lia.
  reflexivity.
Qed.

(** What [headers_from] yields: the headers are the heading lines, in
    order, and the lines between two of them are no headings. *)
Lemma headers_from_spec (lines : list string) :
  forall i0,
    let hs := headers_from i0 lines in
    let bound := i0 + Z.of_nat (length lines) in
    (forall n line, i0 <= n < first_line hs bound ->
       lines !! Z.to_nat (n - i0) = Some line -> heading_of line = None) /\
    (forall a h, hs !! a = Some h ->
       i0 <= line_num h /\ line_num h < next_line hs a bound /\
       next_line hs a bound <= bound /\
       (exists line, lines !! Z.to_nat (line_num h - i0) = Some line /\
                     heading_of line = Some (h_level h, h_title h)) /\
       (forall n line, line_num h < n < next_line hs a bound ->
          lines !! Z.to_nat (n - i0) = Some line -> heading_of line = None)).
Proof.
  induction lines as [|l rest IH]; intros i0; cbn zeta.
  - split.
    + intros n line _ H. now rewrite lookup_nil in H.
    + intros a h H. cbn [headers_from] in H. now rewrite lookup_nil in H.
  - destruct (IH (i0 + 1)) as [IHfirst IHrest]. clear IH.
    replace (i0 + Z.of_nat (length (l :: rest)))
      with (i0 + 1 + Z.of_nat (length rest)) by (cbn [length]; lia).
    set (bound := i0 + 1 + Z.of_nat (length rest)) in *.
    assert (Hfirst : i0 + 1 <= first_line (headers_from (i0 + 1) rest) bound <= bound).
    { destruct (headers_from (i0 + 1) rest) as [|h1 hs'] eqn:E.
      - cbn. lia.
      - cbn. destruct (IHrest 0%nat h1) as (H1 & H2 & H3 & _); [reflexivity|].
        lia. }
    cbn [headers_from].
    destruct (re_match false re_header (py_strip l)) as [m|] eqn:Em.
    + split.
      * cbn [first_line line_num]. intros n line Hn. lia.
      * intros [|a] h Ha.
        -- inversion Ha; subst h; clear Ha. cbn [line_num h_level h_title].
           rewrite next_line_0. repeat split; try lia.
           ++ exists l. replace (i0 - i0) with 0 by lia. split; [reflexivity|].
              unfold heading_of. now rewrite Em.
           ++ intros n line Hn Hl. rewrite lookup_shift in Hl by lia.
              apply (IHfirst n line); [lia|exact Hl].
        -- cbn in Ha. rewrite next_line_cons.
           destruct (IHrest a h Ha) as (H1 & H2 & H3 & (line & Hl & Hh) & H5).
           repeat split; try lia.
           ++ exists line. rewrite lookup_shift by lia. now split.
           ++ intros n line' Hn Hl'. rewrite lookup_shift in Hl' by lia.
              now apply (H5 n line').
    + split.
      * intros n line Hn Hl.
        destruct (Z.eq_dec n i0) as [->|Hne].
        -- replace (i0 - i0) with 0 in Hl by lia. inversion Hl; subst line.
           unfold heading_of. now rewrite Em.
        -- rewrite lookup_shift in Hl by lia. apply (IHfirst n line); [lia|exact Hl].
      * intros a h Ha.
        destruct (IHrest a h Ha) as (H1 & H2 & H3 & (line & Hl & Hh) & H5).
        repeat split; try lia.
        -- exists line. rewrite lookup_shift by lia. now split.
        -- intros n line' Hn Hl'. rewrite lookup_shift in Hl' by lia.
           now apply (H5 n line').
Qed.

(** *** Sections *)

Lemma build_section_hierarchy_lookup (content : string) (headers : list header)
    (i : nat) :
  build_section_hierarchy content headers !! i =
  (fun h =>
     add_children
       (imap (make_section (py_split NL content) headers) headers)
       (make_section (py_split NL content) headers i h)) <$> headers !! i.
Proof.
  unfold build_section_hierarchy. cbn zeta.
  rewrite list_lookup_fmap, list_lookup_imap.
  now destruct (headers !! i).
Qed.

Lemma build_section_hierarchy_length (content : string) (headers : list header) :
  length (build_section_hierarchy content headers) = length headers.
Proof.
  unfold build_section_hierarchy. cbn zeta.
  now rewrite length_map, length_imap.
Qed.

(** The fields a section takes from its header. *)
Lemma build_section_hierarchy_fields (content : string) (headers : list header)
    (i : nat) (s : Section) :
  build_section_hierarchy content headers !! i = Some s ->
  exists h,
    headers !! i = Some h /\
    id s = sec_id i /\ title s = h_title h /\ level s = h_level h /\
    parent_id s = find_parent headers (h_level h) i /\
    start_line s = line_num h /\
    end_line s = next_line headers i (Z.of_nat (length (py_split NL content)) + 1) - 1 /\
    parse_document_structure.content s =
      py_join nl (py_slice (py_split NL content) (start_line s) (end_line s)).
Proof.
  rewrite build_section_hierarchy_lookup.
  destruct (headers !! i) as [h|] eqn:Eh; [|discriminate].
  cbn. intros H; inversion H; subst s; clear H. exists h. cbn.
  repeat split. unfold next_line.
  replace (Datatypes.S i) with (i + 1)%nat by lia.
  destruct (headers !! (i + 1)%nat); lia.
Qed.

(** A slice between line numbers in range, read by line numbers. *)
Lemma py_slice_lines (lines : list string) (a b : Z) :
  0 <= a <= b -> b <= Z.of_nat (length lines) ->
  py_slice lines a b = lines_between lines (a + 1) b.
Proof.
  intros Hab Hb. unfold py_slice, lines_between, py_clamp. cbn zeta.
  destruct (Z.ltb_spec a 0); [lia|]. destruct (Z.ltb_spec b 0); [lia|].
  rewrite !Z.min_l by lia. f_equal; [lia|]. f_equal. lia.
Qed.

Lemma parse_fields (text : string) (i : nat) (s : Section) :
  parse text !! i = Some s ->
  let lines := py_split NL text in
  let hs := extract_headers text in
  exists h,
    hs !! i = Some h /\
    id s = sec_id i /\ title s = h_title h /\ level s = h_level h /\
    start_line s = line_num h /\
    end_line s = next_line hs i (1 + Z.of_nat (length lines)) - 1 /\
    parse_document_structure.content s =
      py_join nl (py_slice lines (start_line s) (end_line s)).
Proof.
  intros H. apply build_section_hierarchy_fields in H.
  destruct H as (h & Hh & Hid & Ht & Hl & _ & Hs & He & Hc).
  exists h. repeat split; try assumption.
  now rewrite (Z.add_comm 1).
Qed.

(** C4, as the code has it.  The section of a heading starts at the
    heading's line ([start_line], a heading of the section's level and
    title) and ends with the line before the next heading of any level, or
    with the last line of the document ([end_line]); its [content] is the
    lines AFTER the heading's line up to [end_line], none of which is a
    heading.  The heading's own line is not part of the content. *)
Theorem section_content_spans_body (text : string) (i : nat) (s : Section) :
  parse text !! i = Some s ->
  let lines := py_split NL text in
  (exists heading,
     line_at lines (start_line s) = Some heading /\
     heading_of heading = Some (level s, title s)) /\
  start_line s <= end_line s <= Z.of_nat (length lines) /\
  parse_document_structure.content s =
    py_join nl (lines_between lines (start_line s + 1) (end_line s)) /\
  (forall n line,
     start_line s < n <= end_line s ->
     line_at lines n = Some line -> heading_of line = None) /\
  match parse text !! Datatypes.S i with
  | Some next => start_line next = end_line s + 1
  | None => end_line s = Z.of_nat (length lines)
  end.
Proof.
  intros Hs. cbn zeta.
  destruct (parse_fields text i s Hs) as (h & Hh & _ & Ht & Hl & Hst & He & Hc).
  unfold extract_headers in Hh, He.
  destruct (headers_from_spec (py_split NL text) 1) as [_ Hspec].
  destruct (Hspec i h Hh) as (H1 & H2 & H3 & (line & Hline & Hhead) & Hgap).
  set (lines := py_split NL text) in *.
  set (nx := next_line (headers_from 1 lines) i (1 + Z.of_nat (length lines))) in *.
  split; [|split; [|split; [|split]]].
  - exists line. unfold line_at. rewrite Hst.
    destruct (Z.ltb_spec (line_num h) 1); [lia|].
    split; [exact Hline|]. now rewrite Hl, Ht.
  - lia.
  - rewrite Hc. now rewrite py_slice_lines by lia.
  - intros n ln Hn Hln. unfold line_at in Hln.
    destruct (Z.ltb_spec n 1); [lia|].
    apply (Hgap n ln); [lia|exact Hln].
  - destruct (parse text !! Datatypes.S i) as [s'|] eqn:Es'.
    + destruct (parse_fields text (Datatypes.S i) s' Es')
        as (h' & Hh' & _ & _ & _ & Hst' & _).
      unfold extract_headers in Hh'. fold lines in Hh'.
      rewrite Hst', He. unfold nx, next_line. rewrite Hh'. lia.
    + assert (Hnone : headers_from 1 lines !! Datatypes.S i = None).
      { apply lookup_ge_None. apply lookup_ge_None in Es'.
        unfold parse in Es'. now rewrite build_section_hierarchy_length in Es'. }
      rewrite He. unfold nx, next_line. rewrite Hnone. lia.
Qed.

(** *** Parents and children *)

(** [find_parent] finds the nearest preceding header of a strictly lower
    level, and finds none only when there is none. *)
Lemma find_parent_spec (headers : list header) (lvl : Z) (i : nat) :
  match find_parent headers lvl i with
  | Some p =>
      exists j h, (j < i)%nat /\ headers !! j = Some h /\ p = sec_id j /\
                  h_level h < lvl /\
                  (forall k hk, (j < k < i)%nat -> headers !! k = Some hk ->
                                lvl <= h_level hk)
  | None =>
      forall k hk, (k < i)%nat -> headers !! k = Some hk -> lvl <= h_level hk
  end.
Proof.
  induction i as [|i IH]; cbn [find_parent].
  - intros k hk Hk. lia.
  - destruct (headers !! i) as [h|] eqn:Eh.
    + destruct (Z.ltb_spec (h_level h) lvl) as [Hlt|Hge].
      * exists i, h. repeat split; try assumption; try lia.
      * destruct (find_parent headers lvl i) as [p|].
        -- destruct IH as (j & hj & Hj & Hhj & Hp & Hlvl & Hbetween).
           exists j, hj. repeat split; try assumption; try lia.
           intros k hk Hk Hhk.
           destruct (Nat.eq_dec k i) as [->|Hne].
           ++ rewrite Eh in Hhk. inversion Hhk; subst hk. exact Hge.
           ++ apply (Hbetween k hk); [lia|exact Hhk].
        -- intros k hk Hk Hhk.
           destruct (Nat.eq_dec k i) as [->|Hne].
           ++ rewrite Eh in Hhk. inversion Hhk; subst hk. exact Hge.
           ++ apply (IH k hk); [lia|exact Hhk].
    + destruct (find_parent headers lvl i) as [p|].
      * destruct IH as (j & hj & Hj & Hhj & Hp & Hlvl & Hbetween).
        exists j, hj. repeat split; try assumption; try lia.
        intros k hk Hk Hhk.
        destruct (Nat.eq_dec k i) as [->|Hne]; [congruence|].
        apply (Hbetween k hk); [lia|exact Hhk].
      * intros k hk Hk Hhk.
        destruct (Nat.eq_dec k i) as [->|Hne]; [congruence|].
        apply (IH k hk); [lia|exact Hhk].
Qed.

Lemma is_child_of_true (s t : Section) :
  is_child_of s t = true <-> parent_id t = Some (id s).
Proof.
  unfold is_child_of. destruct (parent_id t) as [p|].
  - rewrite String.eqb_eq. split; congruence.
  - split; discriminate.
Qed.

(** The children loop, read as a filter of the final list. *)
Lemma children_filter (all : list Section) (s : Section) (l : list Section) :
  map id (List.filter (is_child_of s) l) =
  id <$> filter (fun t => parent_id t = Some (id s)) (map (add_children all) l).
Proof.
  induction l as [|t l IH]; [reflexivity|].
  cbn [List.filter map].
  destruct (is_child_of s t) eqn:E.
  - rewrite filter_cons_True by (cbn; now apply is_child_of_true).
    cbn. now rewrite IH.
  - rewrite filter_cons_False; [exact IH|].
    cbn. intros H. apply is_child_of_true in H. congruence.
Qed.

(** A recorded parent comes earlier in the list. *)
Lemma child_parent_earlier (text : string) (headers : list header) (c p : string) :
  child_parent (build_section_hierarchy text headers) c p ->
  exists i j, c = sec_id i /\ p = sec_id j /\ (j < i)%nat.
Proof.
  intros (s & Hin & Hc & Hp).
  apply list_elem_of_lookup in Hin as [i Hi].
  apply build_section_hierarchy_fields in Hi.
  destruct Hi as (h & Hh & Hid & _ & _ & Hpar & _).
  pose proof (find_parent_spec headers (h_level h) i) as Hspec.
  rewrite <- Hpar, Hp in Hspec.
  destruct Hspec as (j & hj & Hj & _ & Hpj & _).
  exists i, j. repeat split; congruence || assumption.
Qed.

Lemma tc_child_parent_earlier (text : string) (headers : list header) (c p : string) :
  tc (child_parent (build_section_hierarchy text headers)) c p ->
  exists i j, c = sec_id i /\ p = sec_id j /\ (j < i)%nat.
Proof.
  induction 1 as [c p H|c m p H _ IH].
  - now apply child_parent_earlier in H.
  - apply child_parent_earlier in H. destruct H as (i & j & -> & -> & Hji).
    destruct IH as (j' & k & Hj' & -> & Hkj).
    apply sec_id_inj in Hj'. subst j'. exists i, k. repeat split. lia.
Qed.

(** C8.  In the section list of [build_section_hierarchy], the section
    number [i] has the id [sec_i]; its [parent_id], when present, is the id
    of an earlier section of strictly lower level, the nearest such one
    (every section in between has a level at least its own), and it is
    absent exactly when no earlier section has a lower level; its
    [children] are the ids of the sections whose [parent_id] is its id, in
    document order; and no section is its own ancestor. *)
Theorem section_hierarchy_is_forest (text : string) (headers : list header) :
  let sections := build_section_hierarchy text headers in
  (forall i s, sections !! i = Some s ->
     id s = sec_id i /\
     match parent_id s with
     | Some p =>
         exists j sp, (j < i)%nat /\ sections !! j = Some sp /\ id sp = p /\
                      level sp < level s /\
                      (forall k sk, (j < k < i)%nat -> sections !! k = Some sk ->
                                    level s <= level sk)
     | None =>
         forall k sk, (k < i)%nat -> sections !! k = Some sk -> level s <= level sk
     end /\
     children s = id <$> filter (fun t => parent_id t = Some (id s)) sections) /\
  NoDup (id <$> sections) /\
  (forall x, ~ tc (child_parent sections) x x).
Proof.
  cbn zeta. split; [|split].
  - intros i s Hs.
    assert (Hlevel : forall k sk,
              build_section_hierarchy text headers !! k = Some sk ->
              exists hk, headers !! k = Some hk /\ level sk = h_level hk /\ id sk = sec_id k).
    { intros k sk Hk. apply build_section_hierarchy_fields in Hk.
      destruct Hk as (hk & Hhk & Hid & _ & Hl & _). now exists hk. }
    pose proof Hs as Hf. apply build_section_hierarchy_fields in Hf.
    destruct Hf as (h & Hh & Hid & _ & Hl & Hpar & _).
    split; [exact Hid|]. split.
    + pose proof (find_parent_spec headers (h_level h) i) as Hspec.
      rewrite <- Hpar in Hspec. destruct (parent_id s) as [p|].
      * destruct Hspec as (j & hj & Hj & Hhj & Hp & Hlt & Hbetween).
        destruct (build_section_hierarchy text headers !! j) as [sp|] eqn:Esp.
        2:{ apply lookup_ge_None in Esp. rewrite build_section_hierarchy_length in Esp.
            apply lookup_lt_Some in Hhj. lia. }
        destruct (Hlevel j sp Esp) as (hj' & Hhj' & Hlj & Hidj).
        assert (hj' = hj) by congruence. subst hj'.
        exists j, sp. repeat split; try assumption; try congruence; try lia.
        intros k sk Hk Hsk. destruct (Hlevel k sk Hsk) as (hk & Hhk & Hlk & _).
        rewrite Hl, Hlk. now apply (Hbetween k hk).
      * intros k sk Hk Hsk. destruct (Hlevel k sk Hsk) as (hk & Hhk & Hlk & _).
        rewrite Hl, Hlk. now apply (Hspec k hk).
    + rewrite build_section_hierarchy_lookup, Hh in Hs. cbn in Hs.
      inversion Hs as [Hs']. clear Hs Hid Hl Hpar. subst s.
      unfold build_section_hierarchy. cbn zeta.
      exact (children_filter _ (make_section (py_split NL text) headers i h) _).
  - apply NoDup_alt. intros i j x Hi Hj.
    rewrite list_lookup_fmap in Hi, Hj.
    destruct (build_section_hierarchy text headers !! i) as [si|] eqn:Ei; [|discriminate].
    destruct (build_section_hierarchy text headers !! j) as [sj|] eqn:Ej; [|discriminate].
    apply build_section_hierarchy_fields in Ei, Ej.
    destruct Ei as (_ & _ & Hidi & _). destruct Ej as (_ & _ & Hidj & _).
    cbn in Hi, Hj. apply sec_id_inj. congruence.
  - intros x Hx. apply tc_child_parent_earlier in Hx.
    destruct Hx as (i & j & Hi & Hj & Hlt).
    rewrite Hi in Hj. apply sec_id_inj in Hj. lia.
Qed.

End ParserFacts.

(** The section of [# A] in [small_document]. *)
Lemma section_content_spans_body_example :
  exists s,
    parse_document_structure.parse small_document !! 0%nat = Some s /\
    parse_document_structure.start_line s = 1 /\
    parse_document_structure.end_line s = 2 /\
    parse_document_structure.content s = "body" /\
    parse_document_structure.content s =
      py_join nl (lines_between (py_split NL small_document)
                    (parse_document_structure.start_line s + 1)
                    (parse_document_structure.end_line s)).
Proof.
  eexists. split; [vm_compute; reflexivity|].
  split; [reflexivity|]. split; [reflexivity|]. split; [reflexivity|].
  refine (proj1 (proj2 (proj2
            (section_content_spans_body small_document 0%nat _ _)))).
  vm_compute. reflexivity.
Defined.

(** C4 as worded fails on [small_document]: the content of the section of
    [# A] is ["body"], without the heading line. *)
Lemma content_excludes_heading_line :
  ~ content_spans_from_heading_line small_document.
Proof.
  intros H. unfold content_spans_from_heading_line in H.
  specialize (H 0%nat). vm_compute in H.
  specialize (H _ _ eq_refl eq_refl). discriminate H.
Qed.

(** ** The Abstract-First strategy *)

(** [py_rfind] is [str.rfind]: the index it returns is the last one at
    which [sub] occurs, and it returns [-1] only when [sub] does not occur. *)
Lemma py_rfind_from_spec (sub : string) (s : string) :
  forall i best,
    let r := py_rfind_from sub s i best in
    (r = best /\
     forall k, (k <= String.length s)%nat ->
               String.prefix sub (string_drop k s) = false) \/
    (exists k, (k <= String.length s)%nat /\ r = i + Z.of_nat k /\
               String.prefix sub (string_drop k s) = true /\
               forall k', (k < k' <= String.length s)%nat ->
                          String.prefix sub (string_drop k' s) = false).
Proof.
  induction s as [|c s IH]; intros i best; cbn zeta.
  - cbn [py_rfind_from]. destruct (String.prefix sub "") eqn:E.
    + right. exists 0%nat. cbn. repeat split; try lia; try assumption.
    + left. split; [reflexivity|]. intros k Hk. cbn in Hk.
      replace k with 0%nat by lia. exact E.
  - cbn [py_rfind_from].
    destruct (IH (i + 1) (if String.prefix sub (String c s) then i else best))
      as [[Hr Hnone]|(k & Hk & Hr & Hocc & Hlast)].
    + destruct (String.prefix sub (String c s)) eqn:E.
      * right. exists 0%nat. cbn [String.length string_drop].
        repeat split; try lia; try assumption.
        intros [|k'] Hk'; [lia|]. cbn. apply Hnone. lia.
      * left. split; [exact Hr|]. intros [|k] Hk; [exact E|].
        cbn. apply Hnone. cbn in Hk. lia.
    + right. exists (Datatypes.S k). cbn [String.length string_drop].
      repeat split; try lia; try assumption.
      intros [|k'] Hk'; [lia|]. cbn. apply Hlast. lia.
Qed.

Lemma py_rfind_last (s sub : string) (p : Z) :
  py_rfind s sub = p -> 0 <= p ->
  String.prefix sub (string_drop (Z.to_nat p) s) = true /\
  forall k, (Z.to_nat p < k <= String.length s)%nat ->
            String.prefix sub (string_drop k s) = false.
Proof.
  unfold py_rfind. intros Hp H0.
  destruct (py_rfind_from_spec sub s 0 (-1)) as [[Hr _]|(k & Hk & Hr & Hocc & Hlast)];
    cbn zeta in Hr; [lia|].
  replace (Z.to_nat p) with k by lia. now split.
Qed.

Lemma py_rfind_none (s sub : string) :
  py_rfind s sub < 0 ->
  forall k, (k <= String.length s)%nat ->
            String.prefix sub (string_drop k s) = false.
Proof.
  unfold py_rfind. intros Hp.
  destruct (py_rfind_from_spec sub s 0 (-1)) as [[_ Hnone]|(k & Hk & Hr & _)];
    cbn zeta in *; [exact Hnone|lia].
Qed.

Section AbstractFacts.

Variable encode : string -> list Z.
Variable decode : list Z -> string.

(** [_extractive_abstract] cuts by priority. *)
Lemma _extractive_abstract_cut (self : chunker.AbstractFirstChunker)
    (content : string) :
  chunker._extractive_abstract encode decode self content =
  cut_by_priority
    (decode (py_slice_to (encode content) (chunker.abstract_max_tokens self))).
Proof.
  unfold chunker._extractive_abstract, cut_by_priority, past_seventy_percent.
  cbn. unfold chunker.close_to_end.
  repeat match goal with |- context [if ?b then _ else _] => destruct b end;
    reflexivity.
Qed.

Lemma _generate_abstract_extractive (self : chunker.AbstractFirstChunker)
    (content : string) :
  chunker._generate_abstract encode decode self content =
  chunker._extractive_abstract encode decode self content.
Proof. unfold chunker._generate_abstract. now destruct (String.eqb _ _). Qed.

Lemma for_each_Return {A B : Type} (f : A -> outcome B) (l : list A) :
  forall l', chunker.for_each f l = Return l' ->
             Forall2 (fun x y => f x = Return y) l l'.
Proof.
  induction l as [|x l IH]; intros l' H; cbn in H.
  - inversion H. constructor.
  - destruct (f x) as [y| |] eqn:Ey; cbn in H; try discriminate.
    destruct (chunker.for_each f l) as [ys| |]; cbn in H; try discriminate.
    inversion H. constructor; [exact Ey|]. now apply IH.
Qed.

(** The fields [add_abstract] leaves and sets. *)
Lemma add_abstract_fields (self : chunker.AbstractFirstChunker)
    (c c' : gmap string pyval) :
  chunker.add_abstract encode decode self c = Return c' ->
  exists text,
    c !! "content" = Some (VStr text) /\
    c' !! "content" = Some (VStr text) /\
    c' !! "abstract" =
      Some (VStr (chunker._extractive_abstract encode decode self text)) /\
    c' !! "abstract_tokens" =
      Some (VInt (chunker.count_tokens encode
                    (chunker._extractive_abstract encode decode self text))).
Proof.
  unfold chunker.add_abstract, py_getitem. intros H.
  destruct (c !! "content") as [[text| | |]|] eqn:Ec;
    cbn [mbind outcome_bind obind] in H; try discriminate.
  rewrite _generate_abstract_extractive in H.
  inversion H; subst c'; clear H. exists text.
  split; [reflexivity|]. split.
  - rewrite lookup_insert_ne by discriminate.
    now rewrite lookup_insert_ne by discriminate.
  - split.
    + rewrite lookup_insert_ne by discriminate. now rewrite lookup_insert_eq.
    + now rewrite lookup_insert_eq.
Qed.

(** C5, as the code has it.  Every chunk the Abstract-First strategy
    returns has a ["content"] string and an ["abstract"]: the first
    [abstract_max_tokens] tokens of the content, decoded, and cut just
    after the last ['. '] if that lies past 70% of the decoded length,
    failing that just after the last ['! '], failing that just after the
    last ['? '], and left whole otherwise.  (The terminators are tried in
    this order; the one nearest to the end does not take precedence.) *)
Theorem abstract_is_cut_by_priority (self : chunker.AbstractFirstChunker)
    (content : string) (metadata : gmap string pyval)
    (chunks : list (gmap string pyval)) (c : gmap string pyval) :
  chunker.AbstractFirstChunker_chunk encode decode self content metadata
    = Return chunks ->
  c ∈ chunks ->
  exists text,
    c !! "content" = Some (VStr text) /\
    c !! "abstract" =
      Some (VStr (cut_by_priority
                    (decode (py_slice_to (encode text)
                               (chunker.abstract_max_tokens self))))).
Proof.
  unfold chunker.AbstractFirstChunker_chunk. intros H Hc.
  destruct (chunker.LayoutAwareChunker_chunk encode (chunker.super self) content metadata)
    as [base| |]; cbn in H; try discriminate.
  apply for_each_Return in H.
  apply list_elem_of_lookup in Hc as [i Hi].
  destruct (Forall2_lookup_r _ _ _ _ _ H Hi) as (c0 & _ & Hadd).
  apply add_abstract_fields in Hadd as (text & _ & Hcontent & Habstract & _).
  exists text. split; [exact Hcontent|].
  now rewrite Habstract, _extractive_abstract_cut.
Qed.

(** Where the first terminator in the order ['. '], ['! '], ['? '] that
    lies past 70% is also the nearest to the end, or none lies past 70%,
    the code's cut is the spec's. *)
Lemma cut_by_priority_nearest (abstract : string) :
  let len := Z.of_nat (String.length abstract) in
  let period := py_rfind abstract ". " in
  let exclamation := py_rfind abstract "! " in
  let question := py_rfind abstract "? " in
  (past_seventy_percent period len = true -> nearest_terminator abstract = period) ->
  (past_seventy_percent period len = false ->
   past_seventy_percent exclamation len = true ->
   nearest_terminator abstract = exclamation) ->
  (past_seventy_percent period len = false ->
   past_seventy_percent exclamation len = false ->
   past_seventy_percent question len = true ->
   nearest_terminator abstract = question) ->
  cut_by_priority abstract =
  (if past_seventy_percent (nearest_terminator abstract) len
   then py_str_slice_to abstract (nearest_terminator abstract + 1)
   else abstract).
Proof.
  cbn zeta. unfold cut_by_priority. cbn zeta. intros H1 H2 H3.
  destruct (past_seventy_percent (py_rfind abstract ". ") _) eqn:E1.
  - rewrite (H1 eq_refl). now rewrite E1.
  - destruct (past_seventy_percent (py_rfind abstract "! ") _) eqn:E2.
    + rewrite (H2 eq_refl eq_refl). now rewrite E2.
    + destruct (past_seventy_percent (py_rfind abstract "? ") _) eqn:E3.
      * rewrite (H3 eq_refl eq_refl eq_refl). now rewrite E3.
      * unfold nearest_terminator.
        destruct (Z.max_spec (py_rfind abstract "! ") (py_rfind abstract "? "))
          as [[_ ->]|[_ ->]].
        -- destruct (Z.max_spec (py_rfind abstract ". ") (py_rfind abstract "? "))
             as [[_ ->]|[_ ->]]; now rewrite ?E1, ?E3.
        -- destruct (Z.max_spec (py_rfind abstract ". ") (py_rfind abstract "! "))
             as [[_ ->]|[_ ->]]; now rewrite ?E1, ?E2.
Qed.

End AbstractFacts.

(** 70% in binary64: of a length of 10, index 8 lies past it and index 7
    does not; of a length of 90, index 63 does, because [90 * 0.7] is
    rounded to 62.99999999999999. *)
Lemma past_seventy_percent_examples :
  past_seventy_percent 7 10 = false /\
  past_seventy_percent 8 10 = true /\
  past_seventy_percent 63 90 = true /\
  past_seventy_percent 62 90 = false.
Proof. repeat split; vm_compute; reflexivity. Qed.

(** The Abstract-First strategy returns one chunk for
    [two_terminator_section]: the whole document, with the abstract cut
    after the period at index 59.  The terminator nearest to the end is
    the exclamation mark at index 65, where the spec's rule cuts. *)
Lemma two_terminator_section_abstract :
  length abstracts_of_two_terminator_section = 1%nat /\
  hd ∅ abstracts_of_two_terminator_section !! "content"
  = Some (VStr two_terminator_section) /\
  hd ∅ abstracts_of_two_terminator_section !! "abstract"
  = Some (VStr ("## Notes" +:+ nl +:+ string_repeat "a" 50 +:+ ".")) /\
  abstract_as_specified char_codec.encode char_codec.decode
    (chunker.abstract_max_tokens chunker.AbstractFirstChunker_init)
    two_terminator_section
  = "## Notes" +:+ nl +:+ string_repeat "a" 50 +:+ ". Bbbb!".
Proof. repeat split; vm_compute; reflexivity. Qed.

(** The chunk of [two_terminator_section] carries such an abstract: cut
    after its period, 60 characters of 69. *)
Lemma abstract_is_cut_by_priority_example :
  exists text,
    hd ∅ abstracts_of_two_terminator_section !! "content" = Some (VStr text) /\
    hd ∅ abstracts_of_two_terminator_section !! "abstract" =
      Some (VStr (cut_by_priority
                    (char_codec.decode
                       (py_slice_to (char_codec.encode text)
                          (chunker.abstract_max_tokens
                             chunker.AbstractFirstChunker_init))))).
Proof.
  apply (abstract_is_cut_by_priority char_codec.encode char_codec.decode
           chunker.AbstractFirstChunker_init two_terminator_section ∅
           abstracts_of_two_terminator_section
           (hd ∅ abstracts_of_two_terminator_section)).
  - apply returned_Return. vm_compute. reflexivity.
  - apply hd_elem_of. vm_compute. lia.
Defined.

(** C5 as worded fails of the chunk the strategy returns for
    [two_terminator_section]: the nearest terminator is the ['! '] at index
    65, but the code cuts after the ['. '] at index 59, which it tries
    first and which also lies past 70% of 69. *)
Lemma nearest_terminator_does_not_decide : ~ abstract_cut_at_nearest_terminator.
Proof.
  intros H.
  destruct (H char_codec.encode char_codec.decode
              chunker.AbstractFirstChunker_init two_terminator_section ∅
              abstracts_of_two_terminator_section
              (hd ∅ abstracts_of_two_terminator_section))
    as (text & Hcontent & Habstract).
  - apply returned_Return. vm_compute. reflexivity.
  - apply hd_elem_of. vm_compute. lia.
  - destruct two_terminator_section_abstract as (_ & Hc & Ha & Hspec).
    rewrite Hc in Hcontent. assert (Htext : text = two_terminator_section)
      by congruence.
    rewrite Htext, Ha, Hspec in Habstract.
    vm_compute in Habstract. discriminate Habstract.
Qed.

(** ** The retrieval scorer *)

(** In binary64 the score of distance 0 is exactly 1 and that of 9 is the
    float nearest to 0.1. *)
Lemma similarity_of_examples :
  query.similarity_of 0%float = Return 1%float /\
  query.similarity_of 9%float = Return 0.1%float.
Proof. split; vm_compute; reflexivity. Qed.

(** C6 as worded fails in binary64: [1 + 1e-17] and [1 + 2e-17] both round
    to 1, so the two distances get the same score 1.0. *)
Lemma score_not_strictly_decreasing : ~ score_strictly_decreasing.
Proof.
  intros H.
  specialize (H 1e-17%float 2e-17%float 1%float 1%float).
  assert (E : PrimFloat.ltb 1%float 1%float = true).
  { apply H; vm_compute; reflexivity. }
  vm_compute in E. discriminate E.
Qed.

(** The score of an infinite distance is 0. *)
Lemma similarity_of_infinity :
  query.similarity_of infinity = Return 0%float.
Proof. vm_compute. reflexivity. Qed.

(** *** Rounding to nearest in binary64 *)

Lemma shr_1_frac (N D : Z) :
  0 <= N -> 0 < D -> shr_1 (frac_record N D) = frac_record N (2 * D).
Proof.
  intros HN HD. unfold frac_record.
  assert (Hq : 0 <= N / D) by (apply Z.div_pos; lia).
  pose proof (Z.mod_pos_bound N D HD) as Hr.
  assert (Hdiv : N / (2 * D) = N / D / 2).
  { rewrite (Z.mul_comm 2 D). symmetry. apply Z.div_div; lia. }
  assert (Hmod : N mod (2 * D) = N mod D + D * ((N / D) mod 2)).
  { rewrite (Z.mul_comm 2 D). apply Z.rem_mul_r; lia. }
  rewrite Hdiv, Hmod.
  set (q := N / D) in *. set (r := N mod D) in *.
  assert (Hq2 : q = 2 * (q / 2) + q mod 2) by (apply Z.div_mod; lia).
  pose proof (Z.mod_pos_bound q 2 ltac:(lia)) as Hb.
  destruct q as [|[p|p|]|p]; try lia; cbn [shr_1].
  - (* 0 *)
    change (0 / 2) with 0. change (0 mod 2) with 0. f_equal.
    + symmetry. apply Z.leb_gt. lia.
    + destruct (Z.eqb_spec r 0), (Z.eqb_spec (2 * r) D), (Z.leb_spec D (2 * r)),
        (Z.eqb_spec (r + D * 0) 0), (Z.eqb_spec (2 * (r + D * 0)) (2 * D));
        cbn; try reflexivity; lia.
  - (* xI *)
    assert (E1 : Z.pos p~1 / 2 = Z.pos p) by (symmetry; apply (Z.div_unique _ 2 _ 1); lia).
    assert (E2 : Z.pos p~1 mod 2 = 1) by (symmetry; apply (Z.mod_unique _ 2 (Z.pos p) 1); lia).
    rewrite E1, E2. f_equal.
    + symmetry. apply Z.leb_le. lia.
    + destruct (Z.eqb_spec r 0), (Z.eqb_spec (2 * r) D), (Z.leb_spec D (2 * r)),
        (Z.eqb_spec (r + D * 1) 0), (Z.eqb_spec (2 * (r + D * 1)) (2 * D));
        cbn; try reflexivity; lia.
  - (* xO *)
    assert (E1 : Z.pos p~0 / 2 = Z.pos p) by (symmetry; apply (Z.div_unique _ 2 _ 0); lia).
    assert (E2 : Z.pos p~0 mod 2 = 0) by (symmetry; apply (Z.mod_unique _ 2 (Z.pos p) 0); lia).
    rewrite E1, E2. f_equal.
    + symmetry. apply Z.leb_gt. lia.
    + destruct (Z.eqb_spec r 0), (Z.eqb_spec (2 * r) D), (Z.leb_spec D (2 * r)),
        (Z.eqb_spec (r + D * 0) 0), (Z.eqb_spec (2 * (r + D * 0)) (2 * D));
        cbn; try reflexivity; lia.
  - (* xH *)
    change (1 / 2) with 0. change (1 mod 2) with 1. f_equal.
    + symmetry. apply Z.leb_le. lia.
    + destruct (Z.eqb_spec r 0), (Z.eqb_spec (2 * r) D), (Z.leb_spec D (2 * r)),
        (Z.eqb_spec (r + D * 1) 0), (Z.eqb_spec (2 * (r + D * 1)) (2 * D));
        cbn; try reflexivity; lia.
Qed.

Lemma iter_shr_1_frac (N : Z) (p : positive) :
  0 <= N ->
  forall D, 0 < D ->
    SpecFloat.iter_pos shr_1 p (frac_record N D) = frac_record N (2 ^ Z.pos p * D).
Proof.
  intros HN. induction p as [p IH|p IH|]; intros D HD; cbn [SpecFloat.iter_pos].
  - rewrite shr_1_frac by assumption.
    rewrite IH by lia. rewrite IH by (apply Z.mul_pos_pos; [apply Z.pow_pos_nonneg|]; lia).
    f_equal. replace (Z.pos p~1) with (Z.pos p + Z.pos p + 1) by lia.
    rewrite !Z.pow_add_r by lia. rewrite Z.pow_1_r. ring.
  - rewrite IH by lia. rewrite IH by (apply Z.mul_pos_pos; [apply Z.pow_pos_nonneg|]; lia).
    f_equal. replace (Z.pos p~0) with (Z.pos p + Z.pos p) by lia.
    rewrite Z.pow_add_r by lia. ring.
  - rewrite shr_1_frac by assumption. reflexivity.
Qed.

Lemma shr_frac (N D e n : Z) :
  0 <= N -> 0 < D -> 0 <= n ->
  shr (frac_record N D) e n = (frac_record N (2 ^ n * D), e + n).
Proof.
  intros HN HD Hn. unfold shr. destruct n as [|p|p]; try lia.
  - rewrite Z.pow_0_r, Z.mul_1_l, Z.add_0_r. reflexivity.
  - now rewrite iter_shr_1_frac.
Qed.

Lemma digits2_pos_bounds (p : positive) :
  2 ^ (Z.pos (digits2_pos p) - 1) <= Z.pos p < 2 ^ Z.pos (digits2_pos p).
Proof.
  induction p as [p IH|p IH|]; cbn [digits2_pos].
  - rewrite Pos2Z.inj_succ.
    replace (Z.succ (Z.pos (digits2_pos p)) - 1) with (Z.succ (Z.pos (digits2_pos p) - 1)) by lia.
    rewrite !Z.pow_succ_r by lia. lia.
  - rewrite Pos2Z.inj_succ.
    replace (Z.succ (Z.pos (digits2_pos p)) - 1) with (Z.succ (Z.pos (digits2_pos p) - 1)) by lia.
    rewrite !Z.pow_succ_r by lia. lia.
  - cbn. lia.
Qed.

(** A number below [2 ^ k] has at most [k] digits; one from [2 ^ (k - 1)]
    on has at least [k]. *)
Lemma digits2_pos_le (p : positive) (k : Z) :
  0 <= k -> Z.pos p < 2 ^ k -> Z.pos (digits2_pos p) <= k.
Proof.
  intros Hk Hp. destruct (digits2_pos_bounds p) as [Hlo _].
  destruct (Z.le_gt_cases (Z.pos (digits2_pos p)) k) as [H|H]; [exact H|].
  assert (2 ^ k <= 2 ^ (Z.pos (digits2_pos p) - 1)) by (apply Z.pow_le_mono_r; lia).
  lia.
Qed.

Lemma digits2_pos_ge (p : positive) (k : Z) :
  2 ^ (k - 1) <= Z.pos p -> k <= Z.pos (digits2_pos p).
Proof.
  intros Hp. destruct (digits2_pos_bounds p) as [_ Hhi].
  destruct (Z.le_gt_cases k (Z.pos (digits2_pos p))) as [H|H]; [exact H|].
  assert (2 ^ Z.pos (digits2_pos p) <= 2 ^ (k - 1)) by (apply Z.pow_le_mono_r; lia).
  lia.
Qed.

(** [rne_frac] by the remainder. *)
Lemma rne_frac_cases (N D : Z) :
  0 < D ->
  let q := N / D in
  let r := N mod D in
  rne_frac N D =
  if 2 * r <? D then q
  else if 2 * r =? D then (if Z.even q then q else q + 1)
  else q + 1.
Proof.
  intros HD q r. unfold rne_frac, frac_record. fold q r. cbn [shr_m loc_of_shr_record].
  pose proof (Z.mod_pos_bound N D HD) as Hr. fold r in Hr.
  destruct (Z.ltb_spec (2 * r) D), (Z.eqb_spec (2 * r) D), (Z.leb_spec D (2 * r)),
    (Z.eqb_spec r 0); cbn; try reflexivity; lia.
Qed.

Lemma rne_frac_bounds (N D : Z) :
  0 < D -> N / D <= rne_frac N D <= N / D + 1.
Proof.
  intros HD. rewrite rne_frac_cases by assumption. cbn zeta.
  destruct (_ <? _); [lia|]. destruct (_ =? _); [destruct (Z.even _)|]; lia.
Qed.

Lemma rne_frac_exact (N D : Z) :
  0 < D -> N mod D = 0 -> rne_frac N D = N / D.
Proof.
  intros HD Hr. rewrite rne_frac_cases by assumption. cbn zeta. rewrite Hr.
  destruct (Z.ltb_spec (2 * 0) D); [reflexivity|lia].
Qed.

(** An integer bound on the fraction bounds its rounding. *)
Lemma rne_frac_le_int (N D k : Z) :
  0 < D -> N <= k * D -> rne_frac N D <= k.
Proof.
  intros HD HN. pose proof (rne_frac_bounds N D HD) as Hb.
  pose proof (Z.div_mod N D ltac:(lia)) as Hdm.
  pose proof (Z.mod_pos_bound N D HD) as Hr.
  assert (Hq : N / D <= k) by (apply Z.div_le_upper_bound; lia).
  destruct (Z.eq_dec (N / D) k) as [E|E]; [|lia].
  rewrite rne_frac_exact; [lia|assumption|]. nia.
Qed.

Lemma rne_frac_ge_int (N D k : Z) :
  0 < D -> k * D <= N -> k <= rne_frac N D.
Proof.
  intros HD HN. pose proof (rne_frac_bounds N D HD) as Hb.
  assert (Hq : k <= N / D) by (apply Z.div_le_lower_bound; lia).
  lia.
Qed.

(** Rounding to nearest is monotone. *)
Lemma rne_frac_mono (N D N' D' : Z) :
  0 < D -> 0 < D' -> N * D' <= N' * D -> rne_frac N D <= rne_frac N' D'.
Proof.
  intros HD HD' Hle.
  pose proof (Z.div_mod N D ltac:(lia)) as Hdm.
  pose proof (Z.mod_pos_bound N D HD) as Hr.
  pose proof (Z.div_mod N' D' ltac:(lia)) as Hdm'.
  pose proof (Z.mod_pos_bound N' D' HD') as Hr'.
  set (q := N / D) in *. set (r := N mod D) in *.
  set (q' := N' / D') in *. set (r' := N' mod D') in *.
  assert (Hqq : q <= q').
  { destruct (Z.le_gt_cases q q') as [H|H]; [exact H|]. exfalso.
    assert (q' + 1 <= q) by lia.
    assert (N' < (q' + 1) * D') by lia.
    assert ((q' + 1) * D <= N) by nia.
    nia. }
  pose proof (rne_frac_bounds N D HD) as Hb. fold q in Hb.
  pose proof (rne_frac_bounds N' D' HD') as Hb'. fold q' in Hb'.
  destruct (Z.eq_dec q q') as [E|E]; [|lia].
  assert (Hrr : r * D' <= r' * D) by nia.
  rewrite (rne_frac_cases N D HD), (rne_frac_cases N' D' HD'). cbn zeta.
  fold q r q' r'. rewrite <- E.
  destruct (Z.ltb_spec (2 * r) D), (Z.ltb_spec (2 * r') D'),
    (Z.eqb_spec (2 * r) D), (Z.eqb_spec (2 * r') D'); try lia;
    try (destruct (Z.even q); lia); nia.
Qed.

Lemma rne_frac_scale (N D k : Z) :
  0 < D -> 0 < k -> rne_frac (k * N) (k * D) = rne_frac N D.
Proof.
  intros HD Hk. unfold rne_frac, frac_record.
  rewrite Z.div_mul_cancel_l by lia. rewrite Z.mul_mod_distr_l by lia.
  cbn [shr_m loc_of_shr_record].
  replace (k * D <=? 2 * (k * (N mod D))) with (D <=? 2 * (N mod D)).
  2:{ destruct (Z.leb_spec D (2 * (N mod D))), (Z.leb_spec (k * D) (2 * (k * (N mod D))));
        try reflexivity; nia. }
  replace (k * (N mod D) =? 0) with (N mod D =? 0).
  2:{ destruct (Z.eqb_spec (N mod D) 0), (Z.eqb_spec (k * (N mod D)) 0);
        try reflexivity; nia. }
  replace (2 * (k * (N mod D)) =? k * D) with (2 * (N mod D) =? D).
  2:{ destruct (Z.eqb_spec (2 * (N mod D)) D), (Z.eqb_spec (2 * (k * (N mod D))) (k * D));
        try reflexivity; nia. }
  reflexivity.
Qed.

Lemma fexp64 (e : Z) : fexp prec emax e = Z.max (e - 53) (-1074).
Proof. reflexivity. Qed.

Lemma shr_m_of_loc (m : Z) (l : location) : shr_m (shr_record_of_loc m l) = m.
Proof. destruct l as [|[]]; reflexivity. Qed.

Lemma frac_record_exact (m : Z) :
  shr_record_of_loc m loc_Exact = frac_record m 1.
Proof.
  unfold frac_record. rewrite Z.mod_1_r, Z.div_1_r. reflexivity.
Qed.

Lemma pow2_pos (k : Z) : 0 <= k -> 0 < 2 ^ k.
Proof. intros. apply Z.pow_pos_nonneg; lia. Qed.

Lemma shr_nonpos (mrs : shr_record) (e n : Z) : n <= 0 -> shr mrs e n = (mrs, e).
Proof. intros Hn. unfold shr. destruct n; try reflexivity. lia. Qed.

(** What [binary_round_aux] returns for the fraction [N / D] counted in
    units of [2 ^ e]: the nearest integer of the fraction counted in units
    of [2 ^ f], [f] being the exponent the format gives that magnitude,
    with its value written in units of [2 ^ -1074]. *)
Lemma binary_round_aux_frac (m e : Z) (l : location) (N D : Z) :
  0 < m -> 0 <= N -> 0 < D ->
  shr_record_of_loc m l = frac_record N D ->
  let E := Zdigits2 m + e in
  let f := fexp prec emax E in
  e <= f ->
  let m2 := rne_frac N (2 ^ (f - e) * D) in
  match binary_round_aux prec emax false m e l with
  | S754_zero s => s = false /\ m2 = 0
  | S754_finite s m3 e3 =>
      s = false /\ Z.pos m3 * 2 ^ (e3 + 1074) = m2 * 2 ^ (f + 1074) /\
      Z.pos m3 < 2 ^ 53 /\ e3 <= 971
  | S754_infinity s => s = false /\ 2 ^ (emax + 1074) <= m2 * 2 ^ (f + 1074)
  | S754_nan => False
  end.
Proof.
  intros Hm HN HD Hrec E f Hef m2.
  assert (Hmq : m = N / D).
  { rewrite <- (shr_m_of_loc m l), Hrec. reflexivity. }
  assert (Hf : f = Z.max (E - 53) (-1074)) by apply fexp64.
  set (n := f - e) in *.
  assert (Hn : 0 <= n) by lia.
  assert (HD1 : 0 < 2 ^ n * D) by (apply Z.mul_pos_pos; [apply pow2_pos|]; lia).
  unfold binary_round_aux, shr_fexp. fold E. fold f. fold n.
  rewrite Hrec, shr_frac by assumption.
  change (round_nearest_even (shr_m (frac_record N (2 ^ n * D)))
            (loc_of_shr_record (frac_record N (2 ^ n * D)))) with m2.
  replace (e + n) with f by lia.
  rewrite frac_record_exact.
  (* the size of [m2] *)
  destruct m as [|pm|pm]; try lia.
  pose proof (digits2_pos_bounds pm) as Hdig.
  set (d := Z.pos (digits2_pos pm)) in *.
  assert (HE : E = d + e) by reflexivity.
  pose proof (Z.div_mod N D ltac:(lia)) as Hdm.
  pose proof (Z.mod_pos_bound N D HD) as Hr.
  rewrite <- Hmq in Hdm.
  assert (Hm2nonneg : 0 <= m2).
  { apply (rne_frac_ge_int N (2 ^ n * D) 0); lia. }
  assert (Hm2le : m2 <= 2 ^ 53).
  { apply rne_frac_le_int; [exact HD1|].
    assert (N <= 2 ^ d * D) by nia.
    assert (2 ^ d <= 2 ^ (53 + n)) by (apply Z.pow_le_mono_r; lia).
    rewrite Z.pow_add_r in * by lia. nia. }
  destruct m2 as [|p2|p2] eqn:Em2; try lia.
  - (* the rounding is zero *)
    cbn [Zdigits2]. rewrite fexp64.
    rewrite shr_nonpos by lia.
    unfold frac_record. rewrite Z.div_1_r. cbn [shr_m]. split; reflexivity.
  - pose proof (digits2_pos_bounds p2) as Hdig2.
    set (d2 := Z.pos (digits2_pos p2)) in *.
    cbn [Zdigits2]. fold d2. rewrite fexp64.
    assert (Hd2 : d2 <= 54).
    { apply digits2_pos_le; [lia|]. change (2 ^ 54) with (2 * 2 ^ 53). lia. }
    destruct (Z.le_gt_cases d2 53) as [Hsmall|Hbig].
    + (* no carry *)
      rewrite shr_nonpos by lia.
      unfold frac_record. rewrite Z.div_1_r. cbn [shr_m].
        destruct (Z.leb_spec f (emax - prec)) as [Hfit|Hover].
        { assert (2 ^ d2 <= 2 ^ 53) by (apply Z.pow_le_mono_r; lia).
          change (emax - prec) with 971 in Hfit. repeat split; lia. }
        split; [reflexivity|]. change emax with 1024 in *. change prec with 53 in *.
        assert (Hk : d - 1 - n = 52) by lia.
        assert (H52 : 2 ^ 52 <= Z.pos p2).
        { rewrite <- Em2. apply rne_frac_ge_int; [exact HD1|].
          assert (2 ^ (d - 1) = 2 ^ 52 * 2 ^ n).
          { rewrite <- Z.pow_add_r by lia. f_equal. lia. }
          nia. }
        replace (1024 + 1074) with (52 + (972 + 1074)) by lia.
        rewrite Z.pow_add_r by lia.
        assert (2 ^ (972 + 1074) <= 2 ^ (f + 1074)) by (apply Z.pow_le_mono_r; lia).
        assert (0 < 2 ^ (972 + 1074)) by (apply pow2_pos; lia).
        nia.
    + (* the carry: [m2 = 2 ^ 53] *)
      assert (Ed2 : d2 = 54) by lia.
      assert (Ep2 : Z.pos p2 = 2 ^ 53).
      { rewrite Ed2 in Hdig2. change (54 - 1) with 53 in Hdig2. lia. }
      replace (Z.max (d2 + f - 53) (-1074) - f) with 1 by lia.
      rewrite shr_frac by lia. rewrite Ep2.
      change (frac_record (2 ^ 53) (2 ^ 1 * 1)) with
        {| shr_m := 2 ^ 52; shr_r := false; shr_s := false |}.
      cbn [shr_m]. change (2 ^ 52) with (Z.pos 4503599627370496).
      cbv iota beta.
      destruct (Z.leb_spec (f + 1) (emax - prec)) as [Hfit|Hover].
      * change (emax - prec) with 971 in Hfit.
        split; [reflexivity|]. split; [|split; [reflexivity|lia]].
        replace (f + 1 + 1074) with (1 + (f + 1074)) by lia.
        rewrite Z.pow_add_r by lia.
        change (Z.pos 4503599627370496) with (2 ^ 52). change (2 ^ 53) with (2 * 2 ^ 52).
        change (2 ^ 1) with 2. ring.
      * split; [reflexivity|]. change emax with 1024 in *. change prec with 53 in *.
        replace (1024 + 1074) with (53 + (971 + 1074)) by lia.
        rewrite Z.pow_add_r by lia.
        assert (2 ^ (971 + 1074) <= 2 ^ (f + 1074)) by (apply Z.pow_le_mono_r; lia).
        assert (0 < 2 ^ (971 + 1074)) by (apply pow2_pos; lia).
        nia.
Qed.

Lemma is_mag_le N D k N' D' k' :
  is_mag N D k -> is_mag N' D' k' -> N * D' <= N' * D -> k <= k'.
Proof.
  intros (HD & Hk & Hlo & Hhi) (HD' & Hk' & Hlo' & Hhi') Hle.
  destruct (Z.le_gt_cases k k') as [|Hgt]; [assumption|exfalso].
  assert (2 ^ k' <= 2 ^ (k - 1)) by (apply Z.pow_le_mono_r; lia).
  assert (0 < 2 ^ k') by (apply pow2_pos; lia).
  assert (2 ^ (k - 1) * (D * D') <= N * D') by nia.
  assert (N' * D < 2 ^ k' * (D * D')) by nia.
  assert (0 < D * D') by nia.
  nia.
Qed.

Lemma rounded_mono N D k N' D' k' :
  is_mag N D k -> is_mag N' D' k' -> N * D' <= N' * D ->
  rounded N D k <= rounded N' D' k'.
Proof.
  intros Hm Hm' Hle.
  pose proof (is_mag_le _ _ _ _ _ _ Hm Hm' Hle) as Hkk.
  destruct Hm as (HD & Hk & Hlo & Hhi), Hm' as (HD' & Hk' & Hlo' & Hhi').
  unfold rounded.
  set (g := Z.max (k - 53) 0). set (g' := Z.max (k' - 53) 0).
  assert (Hg : 0 < 2 ^ g) by (apply pow2_pos; lia).
  assert (Hg' : 0 < 2 ^ g') by (apply pow2_pos; lia).
  apply Z.min_le_compat_l.
  destruct (Z.eq_dec g g') as [<-|Hne].
  - apply Z.mul_le_mono_nonneg_r; [lia|].
    apply rne_frac_mono; nia.
  - assert (Hgg : g < g') by lia.
    assert (Eg' : g' = k' - 53) by lia.
    assert (Hup : rne_frac N (2 ^ g * D) <= 2 ^ (k - g)).
    { apply rne_frac_le_int; [nia|].
      rewrite Z.mul_assoc, <- Z.pow_add_r by lia.
      replace (k - g + g) with k by lia. lia. }
    assert (Hdown : 2 ^ 52 <= rne_frac N' (2 ^ g' * D')).
    { apply rne_frac_ge_int; [nia|].
      rewrite Z.mul_assoc, <- Z.pow_add_r by lia.
      replace (52 + g') with (k' - 1) by lia. lia. }
    assert (E1 : 2 ^ (k - g) * 2 ^ g = 2 ^ k).
    { rewrite <- Z.pow_add_r by lia. f_equal. lia. }
    assert (E2 : 2 ^ 52 * 2 ^ g' = 2 ^ (k' - 1)).
    { rewrite <- Z.pow_add_r by lia. f_equal. lia. }
    assert (2 ^ k <= 2 ^ (k' - 1)) by (apply Z.pow_le_mono_r; lia).
    nia.
Qed.

(** [binary_round_aux] computes [rounded]. *)
Lemma binary_round_aux_units (m e : Z) (l : location) (N D : Z) :
  0 < m -> 0 <= N -> 0 < D -> -1074 <= e ->
  shr_record_of_loc m l = frac_record N D ->
  e <= fexp prec emax (Zdigits2 m + e) ->
  let k := Zdigits2 m + e + 1074 in
  let r := binary_round_aux prec emax false m e l in
  is_mag (2 ^ (e + 1074) * N) D k /\
  nonneg r = true /\
  units r = rounded (2 ^ (e + 1074) * N) D k.
Proof.
  intros Hm HN HD He Hrec Hef k r.
  pose proof (binary_round_aux_frac m e l N D Hm HN HD Hrec Hef) as Haux.
  cbv zeta in Haux. fold r in Haux.
  assert (Hmq : m = N / D).
  { rewrite <- (shr_m_of_loc m l), Hrec. reflexivity. }
  rewrite fexp64 in Hef, Haux.
  destruct m as [|pm|pm]; try lia.
  pose proof (digits2_pos_bounds pm) as Hdig.
  cbn [Zdigits2] in *.
  set (d := Z.pos (digits2_pos pm)) in *.
  assert (Hd : 1 <= d) by (unfold d; lia).
  set (f := Z.max (d + e - 53) (-1074)) in *.
  pose proof (Z.div_mod N D ltac:(lia)) as Hdm.
  pose proof (Z.mod_pos_bound N D HD) as Hr.
  rewrite <- Hmq in Hdm.
  assert (Hp : 0 < 2 ^ (e + 1074)) by (apply pow2_pos; lia).
  assert (Hmag : is_mag (2 ^ (e + 1074) * N) D k).
  { unfold is_mag, k. split; [exact HD|]. split; [lia|].
    replace (d + e + 1074 - 1) with ((d - 1) + (e + 1074)) by lia.
    replace (d + e + 1074) with (d + (e + 1074)) by lia.
    rewrite (Z.pow_add_r 2 (d - 1) (e + 1074)), (Z.pow_add_r 2 d (e + 1074)) by lia.
    assert (2 ^ (d - 1) * D <= N) by nia.
    assert (N < 2 ^ d * D) by nia.
    set (P := 2 ^ (e + 1074)) in *.
    split.
    - replace (2 ^ (d - 1) * P * D) with (P * (2 ^ (d - 1) * D)) by ring.
      apply Z.mul_le_mono_nonneg_l; lia.
    - replace (2 ^ d * P * D) with (P * (2 ^ d * D)) by ring.
      apply (proj1 (Z.mul_lt_mono_pos_l P _ _ Hp)). lia. }
  split; [exact Hmag|].
  assert (Eg : Z.max (k - 53) 0 = f + 1074) by (unfold k, f; lia).
  assert (Ernd : rne_frac (2 ^ (e + 1074) * N) (2 ^ (f + 1074) * D)
                 = rne_frac N (2 ^ (f - e) * D)).
  { replace (f + 1074) with ((e + 1074) + (f - e)) by lia.
    rewrite (Z.pow_add_r 2 (e + 1074) (f - e)) by lia. rewrite <- Z.mul_assoc.
    apply rne_frac_scale; [|exact Hp].
    apply Z.mul_pos_pos; [apply pow2_pos; lia|exact HD]. }
  unfold rounded. rewrite Eg, Ernd.
  set (m2 := rne_frac N (2 ^ (f - e) * D)) in *.
  destruct r as [s|s| |s m3 e3].
  - destruct Haux as [-> ->]. split; [reflexivity|].
    cbn [units]. rewrite Z.mul_0_l. reflexivity.
  - destruct Haux as [-> Hbig]. split; [reflexivity|].
    cbn [units]. change (emax + 1074) with 2098 in Hbig. lia.
  - contradiction.
  - destruct Haux as (-> & Heq & Hm3 & He3). split; [reflexivity|].
    cbn [units]. rewrite <- Heq.
    assert (2 ^ (e3 + 1074) <= 2 ^ (971 + 1074)) by (apply Z.pow_le_mono_r; lia).
    assert (0 <= 2 ^ (e3 + 1074)) by (apply Z.pow_nonneg; lia).
    assert (2 ^ 53 * 2 ^ (971 + 1074) = 2 ^ 2098) by (rewrite <- Z.pow_add_r by lia; reflexivity).
    nia.
Qed.

Lemma bounded_finite (m : positive) (e : Z) :
  bounded prec emax m e = true ->
  -1074 <= e <= 971 /\ Z.pos m < 2 ^ 53 /\ (-1074 < e -> 2 ^ 52 <= Z.pos m).
Proof.
  unfold bounded, canonical_mantissa. rewrite fexp64.
  intros H. apply andb_prop in H. destruct H as [Hc He].
  apply Z.eqb_eq in Hc. apply Z.leb_le in He. change (emax - prec) with 971 in He.
  pose proof (digits2_pos_bounds m) as Hdig.
  set (d := Z.pos (digits2_pos m)) in *.
  assert (Hd : 1 <= d) by (unfold d; lia).
  split; [lia|]. split.
  - assert (2 ^ d <= 2 ^ 53) by (apply Z.pow_le_mono_r; lia). lia.
  - intros Hn. assert (d = 53) as Ed by lia. rewrite Ed in Hdig.
    change (53 - 1) with 52 in Hdig. lia.
Qed.

Lemma units_finite_bounds (m : positive) (e : Z) :
  bounded prec emax m e = true ->
  0 < units (S754_finite false m e) < 2 ^ 2098.
Proof.
  intros H. apply bounded_finite in H. destruct H as (He & Hm & _).
  cbn [units].
  assert (0 < 2 ^ (e + 1074)) by (apply pow2_pos; lia).
  assert (2 ^ (e + 1074) <= 2 ^ (971 + 1074)) by (apply Z.pow_le_mono_r; lia).
  assert (2 ^ 53 * 2 ^ (971 + 1074) = 2 ^ 2098) by (rewrite <- Z.pow_add_r by lia; reflexivity).
  nia.
Qed.

(** The order of valid floats that are not negative is the order of their
    values. *)
Lemma SFleb_units (x y : spec_float) :
  valid_binary x = true -> valid_binary y = true ->
  nonneg x = true -> nonneg y = true ->
  SFleb x y = (units x <=? units y).
Proof.
  intros Vx Vy Nx Ny.
  destruct x as [sx|sx| |sx mx ex], y as [sy|sy| |sy my ey];
    try discriminate Nx; try discriminate Ny;
    try (destruct sx; try discriminate Nx); try (destruct sy; try discriminate Ny);
    try reflexivity.
  - (* zero, finite *)
    change (bounded prec emax my ey = true) in Vy. pose proof (units_finite_bounds _ _ Vy) as Hy.
    unfold SFleb, SFcompare. symmetry. apply Z.leb_le. cbn [units] in *. lia.
  - change (bounded prec emax my ey = true) in Vy. pose proof (units_finite_bounds _ _ Vy) as Hy.
    unfold SFleb, SFcompare. symmetry. apply Z.leb_le. cbn [units] in *. lia.
  - (* infinity, finite *)
    change (bounded prec emax my ey = true) in Vy. pose proof (units_finite_bounds _ _ Vy) as Hy.
    unfold SFleb, SFcompare. symmetry. apply Z.leb_gt. cbn [units] in *. lia.
  - (* finite, zero *)
    change (bounded prec emax mx ex = true) in Vx. pose proof (units_finite_bounds _ _ Vx) as Hx.
    unfold SFleb, SFcompare. symmetry. apply Z.leb_gt. cbn [units] in *. lia.
  - change (bounded prec emax mx ex = true) in Vx. pose proof (units_finite_bounds _ _ Vx) as Hx.
    unfold SFleb, SFcompare. symmetry. apply Z.leb_gt. cbn [units] in *. lia.
  - (* finite, infinity *)
    change (bounded prec emax mx ex = true) in Vx. pose proof (units_finite_bounds _ _ Vx) as Hx.
    unfold SFleb, SFcompare. symmetry. apply Z.leb_le. cbn [units] in *. lia.
  - (* finite, finite *)
    change (bounded prec emax mx ex = true) in Vx. change (bounded prec emax my ey = true) in Vy.
    apply bounded_finite in Vx, Vy.
    destruct Vx as (Hex & Hmx & Hnx), Vy as (Hey & Hmy & Hny).
    unfold SFleb, SFcompare. cbn [units].
    rewrite Pos.compare_cont_spec. cbn [Pos.switch_Eq].
    destruct (Z.compare_spec ex ey) as [<-|Hlt|Hgt].
    + assert (Hp : 0 < 2 ^ (ex + 1074)) by (apply pow2_pos; lia).
      destruct (Pos.compare_spec mx my) as [E|L|G]; cbn [Pos.switch_Eq];
        symmetry; [apply Z.leb_le|apply Z.leb_le|apply Z.leb_gt]; nia.
    + symmetry. apply Z.leb_le.
      assert (Hp : 0 < 2 ^ (ex + 1074)) by (apply pow2_pos; lia).
      assert (2 * 2 ^ (ex + 1074) <= 2 ^ (ey + 1074)).
      { replace (ey + 1074) with ((ey - ex - 1) + (1 + (ex + 1074))) by lia.
        rewrite (Z.pow_add_r 2 (ey - ex - 1)), (Z.pow_add_r 2 1) by lia.
        assert (1 <= 2 ^ (ey - ex - 1)) by (apply Z.lt_pred_le, pow2_pos; lia).
        change (2 ^ 1) with 2. nia. }
      assert (2 ^ 52 <= Z.pos my) by (apply Hny; lia).
      change (2 ^ 53) with (2 * 2 ^ 52) in Hmx. nia.
    + symmetry. apply Z.leb_gt.
      assert (Hp : 0 < 2 ^ (ey + 1074)) by (apply pow2_pos; lia).
      assert (2 * 2 ^ (ey + 1074) <= 2 ^ (ex + 1074)).
      { replace (ex + 1074) with ((ex - ey - 1) + (1 + (ey + 1074))) by lia.
        rewrite (Z.pow_add_r 2 (ex - ey - 1)), (Z.pow_add_r 2 1) by lia.
        assert (1 <= 2 ^ (ex - ey - 1)) by (apply Z.lt_pred_le, pow2_pos; lia).
        change (2 ^ 1) with 2. nia. }
      assert (2 ^ 52 <= Z.pos mx) by (apply Hnx; lia).
      change (2 ^ 53) with (2 * 2 ^ 52) in Hmy. nia.
Qed.

Lemma iter_xO (m d : positive) : Z.pos (Pos.iter xO m d) = Z.pos m * 2 ^ Z.pos d.
Proof.
  induction d as [|d IH] using Pos.peano_ind.
  - cbn [Pos.iter]. rewrite Pos2Z.inj_xO. change (2 ^ 1) with 2. ring.
  - rewrite Pos.iter_succ, Pos2Z.inj_xO, IH, Pos2Z.inj_succ, Z.pow_succ_r by lia. ring.
Qed.

Lemma shl_align_le (mx : positive) (ex ez : Z) :
  ez <= ex ->
  snd (shl_align mx ex ez) = ez /\
  Z.pos (fst (shl_align mx ex ez)) = Z.pos mx * 2 ^ (ex - ez).
Proof.
  intros Hle. unfold shl_align.
  destruct (ez - ex) as [|p|p] eqn:E; try lia.
  - cbn [fst snd]. replace (ex - ez) with 0 by lia. change (2 ^ 0) with 1. lia.
  - cbn [fst snd]. rewrite iter_xO. replace (ex - ez) with (Z.pos p) by lia. lia.
Qed.

Lemma shl_align_ge (mx : positive) (ex ez : Z) :
  ex <= ez -> shl_align mx ex ez = (mx, ex).
Proof.
  intros Hle. unfold shl_align.
  destruct (ez - ex) as [|p|p] eqn:E; try reflexivity. lia.
Qed.

Lemma digits2_pos_shift (m m' : positive) (d : Z) :
  0 <= d -> Z.pos m' = Z.pos m * 2 ^ d ->
  Z.pos (digits2_pos m') = Z.pos (digits2_pos m) + d.
Proof.
  intros Hd E.
  pose proof (digits2_pos_bounds m) as Hdig.
  set (k := Z.pos (digits2_pos m)) in *.
  assert (Hk : 1 <= k) by (unfold k; lia).
  assert (Hp : 0 < 2 ^ d) by (apply pow2_pos; lia).
  apply Z.le_antisymm.
  - apply digits2_pos_le; [lia|]. rewrite E, Z.pow_add_r by lia. nia.
  - apply digits2_pos_ge. rewrite E.
    replace (k + d - 1) with ((k - 1) + d) by lia.
    rewrite Z.pow_add_r by lia. nia.
Qed.

(** [binary_round] computes [rounded]. *)
Lemma binary_round_units (m : positive) (e : Z) :
  -1074 <= e ->
  let N := Z.pos m * 2 ^ (e + 1074) in
  let k := Z.pos (digits2_pos m) + e + 1074 in
  let r := binary_round prec emax false m e in
  is_mag N 1 k /\ nonneg r = true /\ units r = rounded N 1 k.
Proof.
  intros He N k r. unfold r, binary_round.
  set (d := Z.pos (digits2_pos m)) in *.
  set (f := fexp prec emax (d + e)).
  assert (Hf : f = Z.max (d + e - 53) (-1074)) by apply fexp64.
  destruct (Z.le_gt_cases e f) as [Hle|Hgt].
  - rewrite shl_align_ge by exact Hle.
    pose proof (binary_round_aux_units (Z.pos m) e loc_Exact (Z.pos m) 1
                  ltac:(lia) ltac:(lia) ltac:(lia) He (frac_record_exact _) Hle) as H.
    cbv zeta in H. cbn [Zdigits2] in H. fold d in H.
    replace (2 ^ (e + 1074) * Z.pos m) with N in H by (unfold N; ring).
    exact H.
  - destruct (shl_align_le m e f ltac:(lia)) as [Hs Hm].
    destruct (shl_align m e f) as [m' e'] eqn:Eal. cbn [fst snd] in Hs, Hm. subst e'.
    pose proof (digits2_pos_shift m m' (e - f) ltac:(lia) Hm) as Hdig. fold d in Hdig.
    assert (Hcan : f <= fexp prec emax (Zdigits2 (Z.pos m') + f)).
    { cbn [Zdigits2]. rewrite Hdig. replace (d + (e - f) + f) with (d + e) by lia.
      fold f. lia. }
    pose proof (binary_round_aux_units (Z.pos m') f loc_Exact (Z.pos m') 1
                  ltac:(lia) ltac:(lia) ltac:(lia) ltac:(lia) (frac_record_exact _) Hcan) as H.
    cbv zeta in H. cbn [Zdigits2] in H. rewrite Hdig in H.
    replace (d + (e - f) + f + 1074) with k in H by (unfold k; lia).
    replace (2 ^ (f + 1074) * Z.pos m') with N in H; [exact H|].
    unfold N. rewrite Hm.
    replace (e + 1074) with ((f + 1074) + (e - f)) by lia.
    rewrite (Z.pow_add_r 2 (f + 1074) (e - f)) by lia. ring.
Qed.

(** [1 + a] is the rounding of the exact sum. *)
Lemma SFadd_one_units (a : spec_float) :
  valid_binary a = true -> nonneg a = true ->
  let r := SFadd prec emax sf_one a in
  exists k, is_mag (2 ^ 1074 + units a) 1 k /\ nonneg r = true /\
            units r = rounded (2 ^ 1074 + units a) 1 k.
Proof.
  intros Va Na r.
  destruct a as [s|s| |s ma ea]; try discriminate Na.
  - exists 1075. unfold r. cbn [SFadd sf_one units nonneg negb].
    split; [|split; [reflexivity|]].
    + unfold is_mag. rewrite Z.add_0_r, !Z.mul_1_r.
      change (1075 - 1) with 1074. change 1075 with (1 + 1074).
      rewrite (Z.pow_add_r 2 1 1074) by lia. change (2 ^ 1) with 2.
      assert (0 < 2 ^ 1074) by (apply pow2_pos; lia). lia.
    + vm_compute. reflexivity.
  - destruct s; try discriminate Na.
    exists 2099. unfold r. cbn [SFadd sf_one units nonneg negb].
    split; [|split; [reflexivity|]].
    + unfold is_mag. rewrite !Z.mul_1_r.
      change (2099 - 1) with 2098. change 2099 with (1 + 2098).
      rewrite (Z.pow_add_r 2 1 2098) by lia. change (2 ^ 1) with 2.
      assert (0 < 2 ^ 1074) by (apply pow2_pos; lia).
      assert (2 ^ 1074 < 2 ^ 2098) by (apply Z.pow_lt_mono_r; lia). lia.
    + vm_compute. reflexivity.
  - destruct s; try discriminate Na.
    change (bounded prec emax ma ea = true) in Va.
    apply bounded_finite in Va. destruct Va as (Hea & Hma & _).
    unfold r, sf_one. cbn [SFadd cond_Zopp].
    set (ez := Z.min (-52) ea).
    destruct (shl_align_le 4503599627370496 (-52) ez ltac:(lia)) as [_ H1].
    destruct (shl_align_le ma ea ez ltac:(lia)) as [_ H2].
    set (p1 := fst (shl_align 4503599627370496 (-52) ez)) in *.
    set (p2 := fst (shl_align ma ea ez)) in *.
    change (Z.pos p1 + Z.pos p2) with (Z.pos (p1 + p2)).
    cbn [binary_normalize].
    pose proof (binary_round_units (p1 + p2) ez ltac:(lia)) as H.
    cbv zeta in H.
    exists (Z.pos (digits2_pos (p1 + p2)) + ez + 1074).
    replace (2 ^ 1074 + units (S754_finite false ma ea))
      with (Z.pos (p1 + p2) * 2 ^ (ez + 1074)); [exact H|].
    cbn [units]. rewrite Pos2Z.inj_add, H1, H2, Z.mul_add_distr_r.
    rewrite <- !Z.mul_assoc, <- !Z.pow_add_r by lia.
    replace (-52 - ez + (ez + 1074)) with 1022 by lia.
    replace (ea - ez + (ez + 1074)) with (ea + 1074) by lia.
    f_equal.
Qed.

Lemma new_location_frac (N D : Z) :
  0 < D ->
  shr_record_of_loc (N / D) (new_location D (N mod D)) = frac_record N D.
Proof.
  intros HD. unfold new_location, frac_record.
  pose proof (Z.mod_pos_bound N D HD) as Hr.
  set (r := N mod D) in *. cbv zeta.
  destruct (Z.even D) eqn:Ev.
  - unfold new_location_even.
    destruct (Z.eqb_spec r 0) as [E0|N0].
    + cbn [shr_record_of_loc orb negb]. f_equal. symmetry. apply Z.leb_gt. lia.
    + destruct (Z.compare_spec (2 * r) D) as [E|L|G]; cbn [shr_record_of_loc orb];
        destruct (Z.leb_spec D (2 * r)); try lia;
        destruct (Z.eqb_spec (2 * r) D); try lia; reflexivity.
  - assert (Hodd : Z.odd D = true) by (rewrite <- Z.negb_even, Ev; reflexivity).
    apply Z.odd_spec in Hodd. destruct Hodd as [h Hh].
    unfold new_location_odd.
    destruct (Z.eqb_spec r 0) as [E0|N0].
    + cbn [shr_record_of_loc orb negb]. f_equal. symmetry. apply Z.leb_gt. lia.
    + destruct (Z.compare_spec (2 * r + 1) D) as [E|L|G]; cbn [shr_record_of_loc orb];
        destruct (Z.leb_spec D (2 * r)); try lia;
        destruct (Z.eqb_spec (2 * r) D); try lia; reflexivity.
Qed.

Lemma rounded_scale (c N D k : Z) :
  0 < c -> 0 < D -> rounded (c * N) (c * D) k = rounded N D k.
Proof.
  intros Hc HD. unfold rounded.
  set (g := Z.max (k - 53) 0).
  assert (0 < 2 ^ g) by (apply pow2_pos; lia).
  replace (2 ^ g * (c * D)) with (c * (2 ^ g * D)) by ring.
  rewrite rne_frac_scale by nia. reflexivity.
Qed.

Lemma is_mag_scale (c N D k : Z) :
  0 < c -> is_mag N D k -> is_mag (c * N) (c * D) k.
Proof.
  intros Hc (HD & Hk & Hlo & Hhi). unfold is_mag.
  split; [nia|]. split; [exact Hk|].
  replace (2 ^ (k - 1) * (c * D)) with (c * (2 ^ (k - 1) * D)) by ring.
  replace (2 ^ k * (c * D)) with (c * (2 ^ k * D)) by ring.
  split.
  - apply Z.mul_le_mono_nonneg_l; lia.
  - apply (proj1 (Z.mul_lt_mono_pos_l c _ _ Hc)). exact Hhi.
Qed.

(** [1 / s] is the rounding of the exact quotient, for a finite [s] that is
    at least one. *)
Lemma SFdiv_one_units (ms : positive) (es : Z) :
  bounded prec emax ms es = true ->
  2 ^ 1074 <= units (S754_finite false ms es) ->
  let r := SFdiv prec emax sf_one (S754_finite false ms es) in
  exists k, is_mag (2 ^ 2148) (units (S754_finite false ms es)) k /\
            nonneg r = true /\
            units r = rounded (2 ^ 2148) (units (S754_finite false ms es)) k.
Proof.
  intros Vs Hone r.
  pose proof Vs as Hcan. unfold bounded in Hcan. apply andb_prop in Hcan.
  destruct Hcan as [Hcan _]. unfold canonical_mantissa in Hcan.
  apply Z.eqb_eq in Hcan. rewrite fexp64 in Hcan.
  apply bounded_finite in Vs. destruct Vs as (Hes & Hms & Hnorm).
  cbn [units] in *.
  assert (Hes52 : -53 < es).
  { destruct (Z.le_gt_cases es (-53)) as [Hl|]; [exfalso|lia].
    assert (2 ^ (es + 1074) <= 2 ^ (-53 + 1074)) by (apply Z.pow_le_mono_r; lia).
    assert (2 ^ 53 * 2 ^ (-53 + 1074) = 2 ^ 1074) by (rewrite <- Z.pow_add_r by lia; reflexivity).
    assert (0 < 2 ^ (es + 1074)) by (apply pow2_pos; lia).
    nia. }
  assert (Hd2 : Z.pos (digits2_pos ms) = 53) by lia.
  assert (Hms52 : 2 ^ 52 <= Z.pos ms) by (apply Hnorm; lia).
  unfold r, sf_one, SFdiv, SFdiv_core_binary.
  cbn [Zdigits2 xorb]. change (Z.pos (digits2_pos 4503599627370496)) with 53.
  rewrite Hd2, fexp64.
  set (e' := Z.min (Z.max (53 + -52 - (53 + es) - 53) (-1074)) (-52 - es)).
  set (sh := -52 - es - e').
  assert (He' : e' = Z.max (-105 - es) (-1074)) by (unfold e'; lia).
  assert (Hsh : 51 <= sh <= 53) by (unfold sh; lia).
  destruct sh as [|psh|psh] eqn:Esh; try lia.
  rewrite <- Esh in *. clear Esh psh.
  rewrite Z.shiftl_mul_pow2 by lia.
  change (Z.pos 4503599627370496) with (2 ^ 52).
  set (m' := 2 ^ 52 * 2 ^ sh).
  assert (Hm' : m' = 2 ^ (52 + sh)) by (unfold m'; rewrite Z.pow_add_r by lia; reflexivity).
  assert (Hdiv : Z.div_eucl m' (Z.pos ms) = (m' / Z.pos ms, m' mod Z.pos ms)).
  { unfold Z.div, Z.modulo. destruct (Z.div_eucl m' (Z.pos ms)); reflexivity. }
  rewrite Hdiv.
  set (q := m' / Z.pos ms).
  assert (Hm'pos : 0 < m') by (rewrite Hm'; apply pow2_pos; lia).
  assert (Hqlow : 2 ^ (sh - 1) <= q).
  { unfold q. apply Z.div_le_lower_bound; [lia|].
    rewrite Hm'. replace (52 + sh) with (53 + (sh - 1)) by lia.
    rewrite (Z.pow_add_r 2 53 (sh - 1)) by lia.
    assert (0 < 2 ^ (sh - 1)) by (apply pow2_pos; lia). nia. }
  assert (Hqpos : 0 < q).
  { assert (0 < 2 ^ (sh - 1)) by (apply pow2_pos; lia). lia. }
  assert (Hfe : e' <= fexp prec emax (Zdigits2 q + e')).
  { rewrite fexp64. destruct q as [|pq|pq] eqn:Eq; try lia.
    cbn [Zdigits2].
    assert (sh <= Z.pos (digits2_pos pq)) by (apply digits2_pos_ge; exact Hqlow).
    unfold sh in *. lia. }
  pose proof (binary_round_aux_units q e' (new_location (Z.pos ms) (m' mod Z.pos ms))
                m' (Z.pos ms) Hqpos ltac:(lia) ltac:(lia) ltac:(lia)
                (new_location_frac m' (Z.pos ms) ltac:(lia)) Hfe) as H.
  cbv zeta in H. destruct H as (Hmag & Hnn & Hun).
  assert (EN : 2 ^ (e' + 1074) * m' = 2 ^ (1074 - es)).
  { rewrite Hm', <- Z.pow_add_r by lia. f_equal. unfold sh. lia. }
  rewrite EN in Hmag, Hun.
  assert (Hc : 0 < 2 ^ (es + 1074)) by (apply pow2_pos; lia).
  assert (E2 : 2 ^ 2148 = 2 ^ (es + 1074) * 2 ^ (1074 - es)).
  { rewrite <- Z.pow_add_r by lia. f_equal. lia. }
  exists (Zdigits2 q + e' + 1074).
  rewrite E2, (Z.mul_comm (Z.pos ms)).
  split; [apply is_mag_scale; assumption|].
  split; [exact Hnn|].
  rewrite rounded_scale by lia. exact Hun.
Qed.

Lemma Prim2SF_one : Prim2SF 1 = sf_one.
Proof. reflexivity. Qed.

Lemma Prim2SF_zero : Prim2SF 0 = S754_zero false.
Proof. reflexivity. Qed.

Lemma units_nonneg (x : spec_float) : 0 <= units x.
Proof.
  destruct x as [s|[]| |[] m e]; cbn [units];
    first [ apply Z.mul_nonneg_nonneg; [lia|apply Z.pow_nonneg; lia]
          | apply Z.pow_nonneg; lia
          | lia ].
Qed.

Lemma SFleb_nonneg (x y : spec_float) :
  nonneg x = true -> SFleb x y = true -> nonneg y = true.
Proof.
  destruct x as [sx|[]| |[] mx ex], y as [sy|[]| |[] my ey];
    try discriminate; try reflexivity.
Qed.

Lemma SFleb_one_nonzero (x : spec_float) :
  SFleb sf_one x = true -> SFeqb x (S754_zero false) = false.
Proof.
  destruct x as [sx|[]| |[] mx ex]; try discriminate; reflexivity.
Qed.

(** Adding one keeps the order. *)
Lemma float_add_one_mono (a b : float) :
  (0 <=? a)%float = true -> (a <=? b)%float = true ->
  (1 + a <=? 1 + b)%float = true.
Proof.
  rewrite !FloatAxioms.leb_spec, !FloatAxioms.add_spec, Prim2SF_zero, Prim2SF_one.
  intros H0 Hab.
  pose proof (Prim2SF_valid a) as Va. pose proof (Prim2SF_valid b) as Vb.
  pose proof (Prim2SF_valid (1 + a)) as Vra. pose proof (Prim2SF_valid (1 + b)) as Vrb.
  rewrite FloatAxioms.add_spec, Prim2SF_one in Vra, Vrb.
  set (A := Prim2SF a) in *. set (B := Prim2SF b) in *.
  assert (Na : nonneg A = true) by (exact (SFleb_nonneg (S754_zero false) A eq_refl H0)).
  assert (Nb : nonneg B = true) by (exact (SFleb_nonneg _ _ Na Hab)).
  rewrite (SFleb_units A B Va Vb Na Nb) in Hab. apply Z.leb_le in Hab.
  destruct (SFadd_one_units A Va Na) as (ka & Hma & Nra & Ura).
  destruct (SFadd_one_units B Vb Nb) as (kb & Hmb & Nrb & Urb).
  unfold SF64add in *.
  rewrite (SFleb_units _ _ Vra Vrb Nra Nrb), Ura, Urb.
  apply Z.leb_le. apply rounded_mono; [assumption|assumption|lia].
Qed.

(** Taking the inverse reverses the order, from one upwards. *)
Lemma float_inv_antimono (s t : float) :
  (1 <=? s)%float = true -> (s <=? t)%float = true ->
  (1 / t <=? 1 / s)%float = true.
Proof.
  rewrite !FloatAxioms.leb_spec, !FloatAxioms.div_spec, Prim2SF_one.
  intros H1 Hst.
  pose proof (Prim2SF_valid s) as Vs. pose proof (Prim2SF_valid t) as Vt.
  pose proof (Prim2SF_valid (1 / s)) as Vrs. pose proof (Prim2SF_valid (1 / t)) as Vrt.
  rewrite FloatAxioms.div_spec, Prim2SF_one in Vrs, Vrt.
  set (fs := Prim2SF s) in *. set (ft := Prim2SF t) in *.
  assert (Ns : nonneg fs = true) by (exact (SFleb_nonneg sf_one fs eq_refl H1)).
  assert (Nt : nonneg ft = true) by (exact (SFleb_nonneg _ _ Ns Hst)).
  pose proof H1 as U1. rewrite (SFleb_units sf_one fs eq_refl Vs eq_refl Ns) in U1.
  apply Z.leb_le in U1. change (units sf_one) with (2 ^ 1074) in U1.
  pose proof Hst as Ust. rewrite (SFleb_units fs ft Vs Vt Ns Nt) in Ust.
  apply Z.leb_le in Ust.
  unfold SF64div in *.
  destruct ft as [st|st| |st mt et].
  - (* t is zero *)
    cbn [units] in Ust. assert (0 < 2 ^ 1074) by (apply pow2_pos; lia). lia.
  - (* t is the infinity *)
    destruct st; [discriminate Nt|].
    destruct fs as [ss|ss| |ss ms es]; try discriminate Ns.
    + cbn [units] in U1. assert (0 < 2 ^ 1074) by (apply pow2_pos; lia). lia.
    + destruct ss; [discriminate Ns|]. reflexivity.
    + destruct ss; [discriminate Ns|].
      change (bounded prec emax ms es = true) in Vs.
      destruct (SFdiv_one_units ms es Vs U1) as (ks & Hms & Nrs & Urs).
      change (SFdiv prec emax sf_one (S754_infinity false)) with (S754_zero false).
      rewrite (SFleb_units (S754_zero false) _ eq_refl Vrs eq_refl Nrs).
      apply Z.leb_le. apply units_nonneg.
  - discriminate Nt.
  - destruct st; [discriminate Nt|].
    change (bounded prec emax mt et = true) in Vt.
    destruct fs as [ss|ss| |ss ms es]; try discriminate Ns.
    + cbn [units] in U1. assert (0 < 2 ^ 1074) by (apply pow2_pos; lia). lia.
    + destruct ss; [discriminate Ns|]. discriminate Hst.
    + destruct ss; [discriminate Ns|].
      change (bounded prec emax ms es = true) in Vs.
      destruct (SFdiv_one_units ms es Vs U1) as (ks & Hms & Nrs & Urs).
      destruct (SFdiv_one_units mt et Vt ltac:(lia)) as (kt & Hmt & Nrt & Urt).
      rewrite (SFleb_units _ _ Vrt Vrs Nrt Nrs), Urs, Urt.
      apply Z.leb_le. apply rounded_mono; [assumption|assumption|].
      apply Z.mul_le_mono_nonneg_l; [apply Z.pow_nonneg; lia|exact Ust].
Qed.

(** The divisor [1 + d] is at least one, so it is not zero. *)
Lemma one_le_divisor (d : float) :
  (0 <=? d)%float = true -> (1 <=? 1 + d)%float = true.
Proof.
  intros H0.
  pose proof (float_add_one_mono 0 d eq_refl H0) as H.
  change (1 + 0)%float with 1%float in H. exact H.
Qed.

Lemma divisor_nonzero (d : float) :
  (0 <=? d)%float = true -> (1 + d =? 0)%float = false.
Proof.
  intros H0. apply one_le_divisor in H0.
  rewrite FloatAxioms.leb_spec, Prim2SF_one in H0.
  rewrite FloatAxioms.eqb_spec, Prim2SF_zero.
  apply SFleb_one_nonzero. exact H0.
Qed.

(** A greater distance never has a greater score. *)
Lemma score_antimono (d d' : float) :
  (0 <=? d)%float = true -> (d <=? d')%float = true ->
  (1 / (1 + d') <=? 1 / (1 + d))%float = true.
Proof.
  intros H0 Hdd.
  apply float_inv_antimono.
  - apply one_le_divisor, H0.
  - apply float_add_one_mono; assumption.
Qed.

Lemma score_bounds (d : float) :
  (0 <=? d)%float = true ->
  (0 <=? 1 / (1 + d))%float = true /\ (1 / (1 + d) <=? 1)%float = true.
Proof.
  intros H0. split.
  - assert (Hinf : (d <=? infinity)%float = true).
    { rewrite FloatAxioms.leb_spec in *.
      change (Prim2SF infinity) with (S754_infinity false).
      rewrite Prim2SF_zero in H0.
      destruct (Prim2SF d) as [s|[]| |[] m e]; try discriminate; reflexivity. }
    pose proof (score_antimono d infinity H0 Hinf) as H.
    change (1 / (1 + infinity))%float with 0%float in H. exact H.
  - pose proof (score_antimono 0 d eq_refl H0) as H.
    change (1 / (1 + 0))%float with 1%float in H. exact H.
Qed.

(** The score of a finite distance is not zero. *)
Lemma score_positive (d : float) :
  (0 <=? d)%float = true -> (d <=? max_float)%float = true ->
  (0 <? 1 / (1 + d))%float = true.
Proof.
  intros H0 Hmax.
  pose proof (score_antimono d max_float H0 Hmax) as H.
  rewrite FloatAxioms.leb_spec in H. rewrite FloatAxioms.ltb_spec, Prim2SF_zero.
  change (Prim2SF (1 / (1 + max_float))%float)
    with (S754_finite false 1125899906842624 (-1074)) in H.
  destruct (Prim2SF (1 / (1 + d))%float) as [s|[]| |[] m e];
    try discriminate H; reflexivity.
Qed.

(** C6, on the code's binary64 score.  For every distance [d] that is not
    negative the scorer does not raise and returns [1 / (1 + d)]; the score
    lies in [[0, 1]], it is above 0 when [d] is finite, a greater distance
    never has a greater score, and the score of distance 0 is exactly 1. *)
Theorem similarity_of_bounds (d : float) :
  PrimFloat.leb 0%float d = true ->
  let s := PrimFloat.div 1%float (PrimFloat.add 1%float d) in
  query.similarity_of d = Return s /\
  PrimFloat.leb 0%float s = true /\
  PrimFloat.leb s 1%float = true /\
  (PrimFloat.leb d max_float = true -> PrimFloat.ltb 0%float s = true) /\
  (forall d', PrimFloat.leb d d' = true ->
     exists s', query.similarity_of d' = Return s' /\
                PrimFloat.leb s' s = true) /\
  query.similarity_of 0%float = Return 1%float.
Proof.
  intros H0 s.
  assert (Hret : forall x, PrimFloat.leb 0%float x = true ->
            query.similarity_of x
            = Return (PrimFloat.div 1%float (PrimFloat.add 1%float x))).
  { intros x Hx. unfold query.similarity_of. cbv zeta.
    now rewrite (divisor_nonzero x Hx). }
  destruct (score_bounds d H0) as [Hlow Hhigh].
  split; [exact (Hret d H0)|].
  split; [exact Hlow|]. split; [exact Hhigh|].
  split; [exact (score_positive d H0)|].
  split; [|reflexivity].
  intros d' Hdd.
  assert (H0' : PrimFloat.leb 0%float d' = true).
  { pose proof (float_add_one_mono d d' H0 Hdd) as Hsum.
    rewrite FloatAxioms.leb_spec in *.
    rewrite Prim2SF_zero in *.
    pose proof (SFleb_nonneg _ _ (SFleb_nonneg (S754_zero false) _ eq_refl H0) Hdd) as Hnn.
    destruct (Prim2SF d') as [s'|[]| |[] m' e']; try discriminate Hnn; reflexivity. }
  exists (PrimFloat.div 1%float (PrimFloat.add 1%float d')).
  split; [exact (Hret d' H0')|].
  exact (score_antimono d d' H0 Hdd).
Qed.

(** Distance 9: the score is the float nearest to 0.1, and no greater
    distance scores more. *)
Lemma similarity_of_bounds_example :
  let s := PrimFloat.div 1%float (PrimFloat.add 1%float 9%float) in
  query.similarity_of 9%float = Return s /\
  PrimFloat.leb 0%float s = true /\
  PrimFloat.leb s 1%float = true /\
  (PrimFloat.leb 9%float max_float = true -> PrimFloat.ltb 0%float s = true) /\
  (forall d', PrimFloat.leb 9%float d' = true ->
     exists s', query.similarity_of d' = Return s' /\
                PrimFloat.leb s' s = true) /\
  query.similarity_of 0%float = Return 1%float.
Proof.
  apply (similarity_of_bounds 9%float). reflexivity.
Defined.

(** ** The query engine *)

Section QueryFacts.

Lemma scored_lookup (ids documents : list string)
    (metadatas : list (gmap string pyval)) (distances : list float) :
  forall (i : nat) a b m d,
    ids !! i = Some a -> documents !! i = Some b ->
    metadatas !! i = Some m -> distances !! i = Some d ->
    scored ids documents metadatas distances !! i
    = Some (query.Result a b m (PrimFloat.div 1%float (PrimFloat.add 1%float d))).
Proof.
  revert documents metadatas distances.
  induction ids as [|x ids IH];
    intros [|y documents] [|z metadatas] [|w distances] i a b m d Ha Hb Hm Hd;
    try (now rewrite lookup_nil in Ha); try (now rewrite lookup_nil in Hb);
    try (now rewrite lookup_nil in Hm); try (now rewrite lookup_nil in Hd).
  destruct i as [|i]; cbn in *.
  - now inversion Ha; inversion Hb; inversion Hm; inversion Hd.
  - now apply IH.
Qed.

Lemma scored_length (ids documents : list string)
    (metadatas : list (gmap string pyval)) (distances : list float) :
  length documents = length ids -> length metadatas = length ids ->
  length distances = length ids ->
  length (scored ids documents metadatas distances) = length ids.
Proof.
  revert documents metadatas distances.
  induction ids as [|x ids IH];
    intros [|y documents] [|z metadatas] [|w distances] H1 H2 H3;
    cbn in *; try reflexivity; try discriminate.
  f_equal. apply IH; lia.
Qed.

Lemma take_snoc_full {A : Type} (acc : list A) (r : A) (l : list A) (k : nat) :
  (length acc < k <= length acc + 1)%nat -> take k (acc ++ r :: l) = acc ++ [r].
Proof.
  intros Hk. rewrite (cons_middle r acc l), app_assoc.
  apply take_app_length'. rewrite length_app. cbn [length]. lia.
Qed.

(** The loop of [query], started at index [i0] with [formatted_results]
    below [top_k] in length: it appends the survivors in order until
    [top_k] results are held. *)
Lemma collect_spec (top_k : Z) (min_score : float)
    (ids documents : list string) (metadatas : list (gmap string pyval))
    (distances : list float) :
  length documents = length ids -> length metadatas = length ids ->
  length distances = length ids ->
  Forall (fun d => PrimFloat.eqb (PrimFloat.add 1%float d) 0%float = false)
         distances ->
  forall (n i0 : nat) (formatted_results : list query.result),
    (i0 + n = length ids)%nat ->
    Z.of_nat (length formatted_results) < top_k ->
    query.collect top_k min_score
      {| query.ids := [ids]; query.documents := [documents];
         query.metadatas := [metadatas]; query.distances := Some [distances] |}
      (seq i0 n) formatted_results
    = Return (take (Z.to_nat top_k)
                (formatted_results ++
                 filter (survives min_score)
                   (drop i0 (scored ids documents metadatas distances)))).
Proof.
  intros Hdocs Hmetas Hdists Hnz.
  induction n as [|n IH]; intros i0 acc Hi0 Hacc.
  - cbn [seq query.collect].
    rewrite drop_ge by (rewrite scored_length by assumption; lia).
    rewrite filter_nil, app_nil_r. now rewrite take_ge by lia.
  - cbn [seq query.collect].
    destruct (lookup_lt_is_Some_2 ids i0 ltac:(lia)) as [a Ha].
    destruct (lookup_lt_is_Some_2 documents i0 ltac:(lia)) as [b Hb].
    destruct (lookup_lt_is_Some_2 metadatas i0 ltac:(lia)) as [m Hm].
    destruct (lookup_lt_is_Some_2 distances i0 ltac:(lia)) as [d Hd].
    pose proof (scored_lookup _ _ _ _ i0 a b m d Ha Hb Hm Hd) as Hr.
    rewrite (drop_S _ _ _ Hr).
    unfold query.distance_of, py_index. cbn [query.distances lookup list_lookup].
    cbn [mbind outcome_bind obind]. rewrite Hd. cbn [mbind outcome_bind obind].
    unfold query.similarity_of.
    rewrite (proj1 (Forall_lookup _ _) Hnz i0 d Hd). cbn [mbind outcome_bind obind].
    destruct (PrimFloat.ltb (PrimFloat.div 1 (PrimFloat.add 1 d)) min_score) eqn:Elt.
    + rewrite filter_cons_False by (unfold survives; cbn; congruence).
      apply IH; [lia|exact Hacc].
    + rewrite filter_cons_True by (unfold survives; cbn; exact Elt).
      cbn [query.ids query.documents query.metadatas lookup list_lookup].
      cbn [mbind outcome_bind obind]. rewrite Ha, Hb, Hm.
      cbn [mbind outcome_bind obind].
      rewrite length_app. cbn [length].
      destruct (Z.leb_spec top_k (Z.of_nat (length acc + 1))) as [Hfull|Hmore].
      * f_equal. symmetry. apply take_snoc_full. lia.
      * rewrite IH; [|lia|rewrite length_app; cbn [length]; lia].
        f_equal. f_equal. now rewrite <- app_assoc.
Qed.

End QueryFacts.

(** [query] with the values its two [or] expressions give: it asks the
    index for twice as many candidates as it keeps, and returns the first
    ones whose score is not below the threshold. *)
Lemma query_returns_survivors
    (embedding : Type) (embedding_model_encode : string -> embedding)
    (collection_query :
       embedding -> Z -> option (gmap string pyval) -> query.query_results)
    (q : string) (top_k : option Z) (filters : option (gmap string pyval))
    (min_score : option float)
    (ids documents : list string) (metadatas : list (gmap string pyval))
    (distances : list float) :
  let k := query.or_int top_k config.DEFAULT_TOP_K in
  let threshold := query.or_float min_score config.MIN_SIMILARITY_SCORE in
  collection_query (embedding_model_encode q) (k * 2) filters
    = {| query.ids := [ids]; query.documents := [documents];
         query.metadatas := [metadatas]; query.distances := Some [distances] |} ->
  length documents = length ids ->
  length metadatas = length ids ->
  length distances = length ids ->
  Forall (fun d => PrimFloat.eqb (PrimFloat.add 1%float d) 0%float = false)
         distances ->
  1 <= k ->
  query.query embedding embedding_model_encode collection_query
    q top_k filters min_score
  = Return (take (Z.to_nat k)
              (filter (survives threshold)
                 (scored ids documents metadatas distances))).
Proof.
  intros k threshold Hreply Hdocs Hmetas Hdists Hnz Hk.
  unfold query.query. fold k. fold threshold. rewrite Hreply.
  unfold py_index at 1. cbn [query.ids lookup list_lookup].
  cbn [mbind outcome_bind obind].
  rewrite (collect_spec k threshold ids documents metadatas distances
             Hdocs Hmetas Hdists Hnz (length ids) 0%nat []);
    [reflexivity|lia|cbn; lia].
Qed.

(** An argument that is passed and is not zero is the value in force. *)
Lemma or_int_passed (top_k : option Z) (d : Z) :
  default d top_k <> 0 -> query.or_int top_k d = default d top_k.
Proof.
  unfold query.or_int. destruct top_k as [n|]; cbn; [|reflexivity].
  intros Hn. now destruct (Z.eqb_spec n 0).
Qed.

Lemma or_float_passed (min_score : option float) (d : float) :
  PrimFloat.eqb (default d min_score) 0%float = false ->
  query.or_float min_score d = default d min_score.
Proof.
  unfold query.or_float. destruct min_score as [t|]; cbn; [|reflexivity].
  now intros ->.
Qed.

(** C7.  Let [k] be the [top_k] the caller passes (the configured 3 when
    none is passed) and [threshold] the [min_score] the caller passes (the
    configured 0.3 when none is passed), [k] at least 1 and [threshold]
    not zero.  [query] asks the index for [2 * k] candidates and reads the
    index nowhere else; when the index replies with aligned lists whose
    distances do not make the divisor zero, the result is the candidates
    whose score is not below [threshold], in the reply's order, cut after
    the first [k] of them; when fewer than [k] survive, all of the
    survivors are returned, and nothing is raised. *)
Theorem query_keeps_first_top_k_survivors
    (embedding : Type) (embedding_model_encode : string -> embedding)
    (collection_query :
       embedding -> Z -> option (gmap string pyval) -> query.query_results)
    (q : string) (top_k : option Z) (filters : option (gmap string pyval))
    (min_score : option float)
    (ids documents : list string) (metadatas : list (gmap string pyval))
    (distances : list float) :
  let k := default config.DEFAULT_TOP_K top_k in
  let threshold := default config.MIN_SIMILARITY_SCORE min_score in
  1 <= k ->
  PrimFloat.eqb threshold 0%float = false ->
  collection_query (embedding_model_encode q) (2 * k) filters
    = {| query.ids := [ids]; query.documents := [documents];
         query.metadatas := [metadatas]; query.distances := Some [distances] |} ->
  length documents = length ids ->
  length metadatas = length ids ->
  length distances = length ids ->
  Forall (fun d => PrimFloat.eqb (PrimFloat.add 1%float d) 0%float = false)
         distances ->
  let survivors :=
    filter (survives threshold) (scored ids documents metadatas distances) in
  query.query embedding embedding_model_encode collection_query
    q top_k filters min_score
  = Return (take (Z.to_nat k) survivors) /\
  ((length survivors < Z.to_nat k)%nat ->
   query.query embedding embedding_model_encode collection_query
     q top_k filters min_score
   = Return survivors) /\
  (forall other_index,
     other_index (embedding_model_encode q) (2 * k) filters
       = collection_query (embedding_model_encode q) (2 * k) filters ->
     query.query embedding embedding_model_encode other_index
       q top_k filters min_score
     = query.query embedding embedding_model_encode collection_query
         q top_k filters min_score).
Proof.
  intros k threshold Hk Ht Hreply Hdocs Hmetas Hdists Hnz survivors.
  pose proof (or_int_passed top_k config.DEFAULT_TOP_K ltac:(fold k; lia)) as Ek.
  pose proof (or_float_passed min_score config.MIN_SIMILARITY_SCORE Ht) as Et.
  fold k in Ek. fold threshold in Et.
  assert (Hmain :
    query.query embedding embedding_model_encode collection_query
      q top_k filters min_score
    = Return (take (Z.to_nat k) survivors)).
  { rewrite (query_returns_survivors embedding embedding_model_encode
               collection_query q top_k filters min_score
               ids documents metadatas distances);
      rewrite ?Ek, ?Et; try assumption; [reflexivity|].
    now rewrite Z.mul_comm. }
  split; [exact Hmain|]. split.
  - intros Hfew. rewrite Hmain. f_equal. apply take_ge. lia.
  - intros other_index Hsame. unfold query.query. rewrite Ek.
    rewrite (Z.mul_comm k 2). now rewrite Hsame.
Qed.

(** Three candidates with the scores 1, 0.1 and 0.5, asked for with
    [top_k = 1] and [min_score = 0.5]: the survivors are "a" and "c", and
    the first of them is returned. *)
Lemma query_keeps_first_top_k_survivors_example :
  let survivors :=
    filter (survives 0.5%float)
      (scored ["a"; "b"; "c"] ["doc a"; "doc b"; "doc c"] [∅; ∅; ∅]
         [0%float; 9%float; 1%float]) in
  query.query unit (fun _ => tt) example_index "q" (Some 1) None (Some 0.5%float)
  = Return (take (Z.to_nat 1) survivors) /\
  ((length survivors < Z.to_nat 1)%nat ->
   query.query unit (fun _ => tt) example_index "q" (Some 1) None (Some 0.5%float)
   = Return survivors) /\
  (forall other_index,
     other_index tt (2 * 1) None = example_index tt (2 * 1) None ->
     query.query unit (fun _ => tt) other_index "q" (Some 1) None (Some 0.5%float)
     = query.query unit (fun _ => tt) example_index "q" (Some 1) None
         (Some 0.5%float)).
Proof.
  apply (query_keeps_first_top_k_survivors unit (fun _ => tt) example_index
           "q" (Some 1) None (Some 0.5%float)
           ["a"; "b"; "c"] ["doc a"; "doc b"; "doc c"] [∅; ∅; ∅]
           [0%float; 9%float; 1%float]).
  - vm_compute. discriminate.
  - reflexivity.
  - reflexivity.
  - reflexivity.
  - reflexivity.
  - reflexivity.
  - repeat constructor.
Defined.

(** On that index the query with [top_k = 1] returns the candidate "a",
    and with [top_k = 3] the candidates "a" and "c": "b", with the score
    0.1, is filtered out, and no third survivor exists. *)
Lemma query_examples :
  fmap (M := outcome) (map query.id)
    (query.query unit (fun _ => tt) example_index "q" (Some 1) None None)
  = Return ["a"] /\
  fmap (M := outcome) (map query.id)
    (query.query unit (fun _ => tt) example_index "q" (Some 3) None None)
  = Return ["a"; "c"].
Proof. split; vm_compute; reflexivity. Qed.



(** On the example index a query with [top_k = 0] and [min_score = 0.0]
    answers as one with the defaults: the candidates scoring at least 0.3,
    at most three of them. *)
Lemma zero_arguments_example :
  fmap (M := outcome) (map query.id)
    (query.query unit (fun _ => tt) example_index "q"
       (Some 0) None (Some 0%float))
  = Return ["a"; "c"].
Proof. vm_compute. reflexivity. Qed.

(** ** The chunker factory and the indexer *)

Section IndexerFacts.

Variable encode : string -> list Z.
Variable decode : list Z -> string.
Variable rglob : string -> string -> list string.
Variable read_text : string -> string.
Variable path_name : string -> string.
Variable path_stem : string -> string.
Variable relative_to_grandparent : string -> string.
Variable embedding : Type.
Variable embedding_model_encode : list pyval -> list embedding.

Lemma get_chunker_unknown (name : string) :
  name <> "layout-aware" -> name <> "naive" -> name <> "abstract-first" ->
  chunker.get_chunker (Some name)
  = Raise (ValueError ("Unknown chunking strategy: " +:+ name)).
Proof.
  intros H1 H2 H3. unfold chunker.get_chunker.
  apply String.eqb_neq in H1, H2, H3. now rewrite H1, H2, H3.
Qed.

(** C9.  [get_chunker] returns the Layout-Aware, Naive and Abstract-First
    chunker for its three names (and the configured strategy, layout-aware,
    for no name); for every other name it raises [ValueError], and
    [index_directory] then raises it with the log of events unchanged:
    before any file is searched for, opened or indexed. *)
Theorem unknown_strategy_raises_before_any_document (name : string) :
  name ∉ ["layout-aware"; "naive"; "abstract-first"] ->
  chunker.get_chunker (Some name)
    = Raise (ValueError ("Unknown chunking strategy: " +:+ name)) /\
  (forall fuel directory log,
     ingest.index_directory encode decode rglob read_text path_name path_stem
       relative_to_grandparent embedding embedding_model_encode
       fuel directory (Some name) log
     = (Raise (ValueError ("Unknown chunking strategy: " +:+ name)), log)) /\
  chunker.get_chunker (Some "layout-aware")
    = Return (chunker.IsLayoutAware chunker.LayoutAwareChunker_init) /\
  chunker.get_chunker (Some "naive")
    = Return (chunker.IsNaive chunker.NaiveChunker_init) /\
  chunker.get_chunker (Some "abstract-first")
    = Return (chunker.IsAbstractFirst chunker.AbstractFirstChunker_init) /\
  chunker.get_chunker None
    = Return (chunker.IsLayoutAware chunker.LayoutAwareChunker_init).
Proof.
  intros Hname.
  assert (Hraise : chunker.get_chunker (Some name)
            = Raise (ValueError ("Unknown chunking strategy: " +:+ name))).
  { apply get_chunker_unknown; intros ->; apply Hname; set_solver. }
  split; [exact Hraise|]. split; [|repeat split].
  intros fuel directory log. unfold ingest.index_directory.
  now rewrite Hraise.
Qed.

End IndexerFacts.

(** The name ["semantic"] is not a strategy. *)
Lemma unknown_strategy_raises_before_any_document_example :
  chunker.get_chunker (Some "semantic")
    = Raise (ValueError ("Unknown chunking strategy: " +:+ "semantic")) /\
  (forall fuel directory log,
     ingest.index_directory char_codec.encode char_codec.decode
       (fun _ _ => ["wiki/runbooks/a.md"]) (fun _ => three_small_sections)
       (fun p => p) (fun p => p) (fun p => p) unit (fun l => map (fun _ => tt) l)
       fuel directory (Some "semantic") log
     = (Raise (ValueError ("Unknown chunking strategy: " +:+ "semantic")), log)) /\
  chunker.get_chunker (Some "layout-aware")
    = Return (chunker.IsLayoutAware chunker.LayoutAwareChunker_init) /\
  chunker.get_chunker (Some "naive")
    = Return (chunker.IsNaive chunker.NaiveChunker_init) /\
  chunker.get_chunker (Some "abstract-first")
    = Return (chunker.IsAbstractFirst chunker.AbstractFirstChunker_init) /\
  chunker.get_chunker None
    = Return (chunker.IsLayoutAware chunker.LayoutAwareChunker_init).
Proof.
  apply (unknown_strategy_raises_before_any_document
           char_codec.encode char_codec.decode
           (fun _ _ => ["wiki/runbooks/a.md"]) (fun _ => three_small_sections)
           (fun p => p) (fun p => p) (fun p => p) unit (fun l => map (fun _ => tt) l)
           "semantic").
  vm_compute. intros H. inversion H as [|? ? ? H1]; subst.
  inversion H1 as [|? ? ? H2]; subst. inversion H2 as [|? ? ? H3]; subst.
  inversion H3.
Defined.

(** * Further properties of the code *)

(** ** query.py: whatever the index replies *)

(** The loop keeps what it holds and adds only survivors; it holds at most
    [top_k] results, or one when [top_k] is below one. *)
Lemma collect_invariant (top_k : Z) (min_score : float)
    (results : query.query_results) (indices : list nat) :
  forall formatted_results rs,
    query.collect top_k min_score results indices formatted_results = Return rs ->
    Forall (survives min_score) formatted_results ->
    Z.of_nat (length formatted_results) < top_k \/ formatted_results = [] ->
    Forall (survives min_score) rs /\
    Z.of_nat (length rs) <= Z.max 1 top_k.
Proof.
  induction indices as [|i rest IH]; intros acc rs H Hacc Hlen; cbn [query.collect] in H.
  - inversion H; subst rs. split; [exact Hacc|].
    destruct Hlen as [Hlen| ->]; cbn; lia.
  - destruct (query.distance_of results i) as [d| |];
      cbn [mbind outcome_bind obind] in H; try discriminate.
    unfold query.similarity_of in H.
    destruct (PrimFloat.eqb (PrimFloat.add 1 d) 0);
      cbn [mbind outcome_bind obind] in H; try discriminate.
    destruct (PrimFloat.ltb (PrimFloat.div 1 (PrimFloat.add 1 d)) min_score) eqn:Elt.
    + now apply (IH acc rs).
    + repeat match type of H with
      | (?m ≫= _) = Return _ =>
          destruct m; cbn [mbind outcome_bind obind] in H; try discriminate
      end.
      assert (Hacc' : Forall (survives min_score)
                (acc ++ [query.Result a0 a2 a4 (PrimFloat.div 1 (PrimFloat.add 1 d))])).
      { apply Forall_app. split; [exact Hacc|]. constructor; [exact Elt|constructor]. }
      destruct (Z.leb_spec top_k
                  (Z.of_nat (length (acc ++
                     [query.Result a0 a2 a4 (PrimFloat.div 1 (PrimFloat.add 1 d))]))))
        as [Hfull|Hmore].
      * inversion H; subst rs. split; [exact Hacc'|].
        rewrite length_app. cbn [length].
        destruct Hlen as [Hlen| ->]; cbn; lia.
      * apply (IH _ rs H Hacc'). now left.
Qed.

(** X1.  Whatever the index replies, when [query] returns, every result
    has a score that is not below the threshold in force, and there are at
    most [top_k] results (at most one when [top_k] is below one). *)
Theorem query_results_meet_threshold
    (embedding : Type) (embedding_model_encode : string -> embedding)
    (collection_query :
       embedding -> Z -> option (gmap string pyval) -> query.query_results)
    (q : string) (top_k : option Z) (filters : option (gmap string pyval))
    (min_score : option float) (rs : list query.result) :
  query.query embedding embedding_model_encode collection_query
    q top_k filters min_score = Return rs ->
  Forall (survives (query.or_float min_score config.MIN_SIMILARITY_SCORE)) rs /\
  Z.of_nat (length rs) <= Z.max 1 (query.or_int top_k config.DEFAULT_TOP_K).
Proof.
  unfold query.query. intros H.
  destruct (py_index _ 0) as [ids0| |]; cbn [mbind outcome_bind obind] in H;
    try discriminate.
  apply (collect_invariant _ _ _ _ [] rs H); [constructor|now right].
Qed.

Lemma query_results_meet_threshold_example :
  Forall (survives (query.or_float None config.MIN_SIMILARITY_SCORE))
    (returned [] (query.query unit (fun _ => tt) example_index "q" (Some 3) None None)) /\
  Z.of_nat (length (returned []
               (query.query unit (fun _ => tt) example_index "q" (Some 3) None None)))
    <= Z.max 1 (query.or_int (Some 3) config.DEFAULT_TOP_K).
Proof.
  apply (query_results_meet_threshold unit (fun _ => tt) example_index
           "q" (Some 3) None None).
  apply returned_Return. vm_compute. reflexivity.
Defined.

(** Without ['distances'] the loop runs as on a reply whose distances are
    all 0. *)
Lemma collect_without_distances (top_k : Z) (min_score : float)
    (ids documents : list string) (metadatas : list (gmap string pyval))
    (n : nat) :
  forall (len i0 : nat) formatted_results,
    (i0 + len <= n)%nat ->
    query.collect top_k min_score
      {| query.ids := [ids]; query.documents := [documents];
         query.metadatas := [metadatas]; query.distances := None |}
      (seq i0 len) formatted_results
    = query.collect top_k min_score
        {| query.ids := [ids]; query.documents := [documents];
           query.metadatas := [metadatas];
           query.distances := Some [replicate n 0%float] |}
        (seq i0 len) formatted_results.
Proof.
  induction len as [|len IH]; intros i0 acc Hi0; [reflexivity|].
  cbn [seq query.collect].
  unfold query.distance_of, py_index.
  cbn [query.distances lookup list_lookup mbind outcome_bind obind].
  rewrite lookup_replicate_2 by lia. cbn [mbind outcome_bind obind].
  destruct (query.similarity_of 0) as [s| |]; cbn [mbind outcome_bind obind];
    try reflexivity.
  destruct (PrimFloat.ltb s min_score); [apply IH; lia|].
  cbn [query.ids query.documents query.metadatas lookup list_lookup
       mbind outcome_bind obind].
  repeat match goal with
  | |- (?m ≫= _) = (?m ≫= _) =>
      destruct m; cbn [mbind outcome_bind obind]; try reflexivity
  end.
  destruct (Z.leb _ _); [reflexivity|apply IH; lia].
Qed.

(** X2.  When the index reply carries no ['distances'], every candidate is
    scored as at distance 0, that is 1.0: with a threshold of at most 1 and
    [top_k >= 1] the result is the first [top_k] candidates of the reply,
    each with the score 1.0. *)
Theorem query_without_distances
    (embedding : Type) (embedding_model_encode : string -> embedding)
    (collection_query :
       embedding -> Z -> option (gmap string pyval) -> query.query_results)
    (q : string) (top_k : option Z) (filters : option (gmap string pyval))
    (min_score : option float)
    (ids documents : list string) (metadatas : list (gmap string pyval)) :
  let k := query.or_int top_k config.DEFAULT_TOP_K in
  let threshold := query.or_float min_score config.MIN_SIMILARITY_SCORE in
  collection_query (embedding_model_encode q) (k * 2) filters
    = {| query.ids := [ids]; query.documents := [documents];
         query.metadatas := [metadatas]; query.distances := None |} ->
  length documents = length ids ->
  length metadatas = length ids ->
  PrimFloat.ltb 1%float threshold = false ->
  1 <= k ->
  query.query embedding embedding_model_encode collection_query
    q top_k filters min_score
  = Return (take (Z.to_nat k)
              (scored ids documents metadatas (replicate (length ids) 0%float))) /\
  Forall (fun r => query.score r = 1%float)
    (scored ids documents metadatas (replicate (length ids) 0%float)).
Proof.
  intros k threshold Hreply Hdocs Hmetas Hthr Hk.
  assert (Hone : Forall (fun r => query.score r = 1%float)
            (scored ids documents metadatas (replicate (length ids) 0%float))).
  { clear. revert documents metadatas.
    induction ids as [|x ids IH]; intros [|y documents] [|z metadatas];
      cbn; constructor; [reflexivity|apply IH]. }
  split; [|exact Hone].
  unfold query.query. fold k. fold threshold. rewrite Hreply.
  unfold py_index at 1. cbn [query.ids lookup list_lookup mbind outcome_bind obind].
  rewrite (collect_without_distances k threshold ids documents metadatas
             (length ids) (length ids) 0%nat []) by lia.
  rewrite (collect_spec k threshold ids documents metadatas
             (replicate (length ids) 0%float) Hdocs Hmetas
             ltac:(now rewrite length_replicate)
             ltac:(apply Forall_replicate; reflexivity)
             (length ids) 0%nat []); [|lia|cbn; lia].
  assert (Hall : filter (survives threshold)
            (scored ids documents metadatas (replicate (length ids) 0%float))
            = scored ids documents metadatas (replicate (length ids) 0%float)).
  { clear -Hone Hthr. induction Hone as [|r l Hr _ IH]; [reflexivity|].
    rewrite filter_cons_True; [now rewrite IH|].
    unfold survives. now rewrite Hr. }
  rewrite drop_0, Hall. reflexivity.
Qed.

Lemma query_without_distances_example :
  query.query unit (fun _ => tt)
    (fun _ _ _ => {| query.ids := [["a"; "b"]]; query.documents := [["x"; "y"]];
                     query.metadatas := [[∅; ∅]]; query.distances := None |})
    "q" (Some 1) None None
  = Return (take (Z.to_nat (query.or_int (Some 1) config.DEFAULT_TOP_K))
              (scored ["a"; "b"] ["x"; "y"] [∅; ∅]
                 (replicate (length ["a"; "b"]) 0%float))) /\
  Forall (fun r => query.score r = 1%float)
    (scored ["a"; "b"] ["x"; "y"] [∅; ∅] (replicate (length ["a"; "b"]) 0%float)).
Proof.
  apply (query_without_distances unit (fun _ => tt)
           (fun _ _ _ => {| query.ids := [["a"; "b"]]; query.documents := [["x"; "y"]];
                            query.metadatas := [[∅; ∅]]; query.distances := None |})
           "q" (Some 1) None None ["a"; "b"] ["x"; "y"] [∅; ∅]).
  - reflexivity.
  - reflexivity.
  - reflexivity.
  - vm_compute. reflexivity.
  - vm_compute. discriminate.
Defined.

(** X3.  [query] raises instead of returning in two cases the loop does
    not guard: [IndexError] when the reply's ['ids'] holds no per-query
    list, and [ZeroDivisionError] when the first candidate's distance makes
    the divisor [1 + distance] zero (a distance of -1). *)
Theorem query_raises
    (embedding : Type) (embedding_model_encode : string -> embedding)
    (collection_query :
       embedding -> Z -> option (gmap string pyval) -> query.query_results)
    (q : string) (top_k : option Z) (filters : option (gmap string pyval))
    (min_score : option float) :
  let k := query.or_int top_k config.DEFAULT_TOP_K in
  (query.ids (collection_query (embedding_model_encode q) (k * 2) filters) = [] ->
   query.query embedding embedding_model_encode collection_query
     q top_k filters min_score = Raise IndexError) /\
  (forall i ids ids' d ds ds' documents metadatas,
     collection_query (embedding_model_encode q) (k * 2) filters
       = {| query.ids := (i :: ids) :: ids'; query.documents := documents;
            query.metadatas := metadatas;
            query.distances := Some ((d :: ds) :: ds') |} ->
     PrimFloat.eqb (PrimFloat.add 1%float d) 0%float = true ->
     query.query embedding embedding_model_encode collection_query
       q top_k filters min_score = Raise ZeroDivisionError).
Proof.
  cbn zeta. split.
  - intros H. unfold query.query. now rewrite H.
  - intros i ids ids' d ds ds' documents metadatas H Hd.
    unfold query.query. rewrite H.
    unfold py_index at 1. cbn [query.ids lookup list_lookup mbind outcome_bind obind].
    cbn [length seq query.collect]. unfold query.distance_of, py_index.
    cbn [query.distances lookup list_lookup mbind outcome_bind obind].
    unfold query.similarity_of. now rewrite Hd.
Qed.

(** A first candidate at distance -1. *)
Lemma query_raises_example :
  query.query unit (fun _ => tt)
    (fun _ _ _ => {| query.ids := [["a"]]; query.documents := [["x"]];
                     query.metadatas := [[∅]];
                     query.distances := Some [[(-1)%float]] |})
    "q" None None None
  = Raise ZeroDivisionError.
Proof. vm_compute. reflexivity. Qed.

(** ** ingest.py: what is stored and what is opened *)

Section IndexerLog.

Variable encode : string -> list Z.
Variable decode : list Z -> string.
Variable rglob : string -> string -> list string.
Variable read_text : string -> string.
Variable path_name : string -> string.
Variable path_stem : string -> string.
Variable relative_to_grandparent : string -> string.
Variable embedding : Type.
Variable embedding_model_encode : list pyval -> list embedding.

Lemma chunk_id_of_inj (file_path : string) (i j : nat) :
  ingest.chunk_id_of path_stem file_path i = ingest.chunk_id_of path_stem file_path j ->
  i = j.
Proof.
  unfold ingest.chunk_id_of. intros H.
  apply (inj (String.app _)) in H. apply (inj (String.app _)) in H.
  now apply (inj pretty) in H.
Qed.

Lemma add_optional_other (c m : gmap string pyval) (field k : string) :
  field <> k -> ingest.add_optional c m field !! k = m !! k.
Proof.
  intros Hne. unfold ingest.add_optional.
  destruct (c !! field) as [v|]; [|reflexivity].
  destruct (py_truthy v); [|reflexivity].
  now rewrite lookup_insert_ne.
Qed.

(** The stored [chunk_index] is the position, whatever the chunk carries. *)
Lemma chunk_metadata_of_index (file_path : string) (i : nat) (c : gmap string pyval) :
  ingest.chunk_metadata_of relative_to_grandparent file_path i c !! "chunk_index"
  = Some (VInt (Z.of_nat i)).
Proof.
  unfold ingest.chunk_metadata_of. cbn [fold_left].
  rewrite !add_optional_other by discriminate.
  now repeat (rewrite lookup_insert_ne by discriminate); rewrite lookup_insert_eq.
Qed.

Lemma prepare_built_by_position (file_path : string)
    (zipped : list (gmap string pyval * embedding)) :
  forall acc args,
    ingest.prepare path_stem relative_to_grandparent embedding file_path
      (length (ingest.ids acc)) zipped acc = Return args ->
    built_by_position path_stem file_path acc ->
    built_by_position path_stem file_path args /\
    length (ingest.ids args) = (length (ingest.ids acc) + length zipped)%nat.
Proof.
  induction zipped as [|[c e] zipped IH]; intros acc args H Hacc; cbn [ingest.prepare] in H.
  - inversion H; subst args. split; [exact Hacc|cbn; lia].
  - destruct (py_getitem c "content") as [document| |];
      cbn [mbind outcome_bind obind] in H; try discriminate.
    destruct Hacc as [Hlen Hacc].
    match type of H with
    | ingest.prepare _ _ _ _ _ _ ?acc' = _ =>
        destruct (IH acc' args) as [Hbuilt Hn]
    end.
    + cbn [ingest.ids]. rewrite length_app. cbn [length].
      now replace (length (ingest.ids acc) + 1)%nat
        with (Datatypes.S (length (ingest.ids acc))) by lia.
    + split; cbn [ingest.ids ingest.metadatas].
      * rewrite !length_app. cbn [length]. lia.
      * intros j x Hj. apply lookup_app_Some in Hj as [Hj|[Hge Hj]].
        -- destruct (Hacc j x Hj) as (Hx & m & Hm & Hidx).
           split; [exact Hx|]. exists m. split; [|exact Hidx].
           now apply lookup_app_l_Some.
        -- apply list_lookup_singleton_Some in Hj as [Hj <-].
           assert (j = length (ingest.ids acc)) by lia. subst j.
           split; [reflexivity|]. eexists. split.
           ++ rewrite lookup_app_r by lia. rewrite Hlen, Nat.sub_diag. reflexivity.
           ++ apply chunk_metadata_of_index.
    + split; [exact Hbuilt|]. rewrite Hn. cbn [ingest.ids length].
      rewrite length_app. cbn [length]. lia.
Qed.

(** X4.  When [index_file] returns, it has either stored nothing (the
    document gave no chunk: only the file was opened, and the count is 0),
    or added one batch to the collection whose ids are distinct, the id at
    position [i] being [<stem>-chunk-<i>], and whose metadata record at
    position [i] has [chunk_index = i]: the stored index is the final
    position, whatever [chunk_index] the chunker left in the chunk. *)
Theorem index_file_stores_positions (fuel : nat) (file_path : string)
    (c : chunker.Chunker) (log log' : list (ingest.event embedding)) (n : Z) :
  ingest.index_file encode decode read_text path_stem relative_to_grandparent
    embedding embedding_model_encode fuel file_path c log = (Return n, log') ->
  (n = 0 /\ log' = log ++ [ingest.Open embedding file_path]) \/
  (exists texts ids embeddings documents metadatas,
     log' = log ++ [ingest.Open embedding file_path;
                    ingest.Encode embedding texts;
                    ingest.CollectionAdd embedding ids embeddings documents metadatas] /\
     NoDup ids /\
     length metadatas = length ids /\
     Z.of_nat (length ids) <= n /\
     forall (i : nat) x, ids !! i = Some x ->
       x = path_stem file_path +:+ "-chunk-" +:+ pretty i /\
       exists m, metadatas !! i = Some m /\
                 m !! "chunk_index" = Some (VInt (Z.of_nat i))).
Proof.
  unfold ingest.index_file. run_io. intros H.
  destruct (chunker.chunk_ encode decode fuel c _ _) as [chunks| |];
    try (inversion H; fail).
  destruct chunks as [|ch chunks].
  { left. now inversion H. }
  right.
  destruct (chunker.for_each _ (ch :: chunks)) as [texts| |];
    try (inversion H; fail).
  destruct (ingest.prepare _ _ _ _ 0 _ _) as [args| |] eqn:Eargs;
    try (inversion H; fail).
  inversion H; subst; clear H.
  destruct (prepare_built_by_position file_path _ (ingest.AddArgs [] [] []) args Eargs)
    as [[Hlen Hbuilt] Hn].
  { split; [reflexivity|]. intros j x Hj. cbn [ingest.ids] in Hj.
    now rewrite lookup_nil in Hj. }
  exists texts, (ingest.ids args), (embedding_model_encode texts),
    (ingest.documents args), (ingest.metadatas args).
  split; [now rewrite <- !app_assoc|]. split; [|split; [exact Hlen|split]].
  - apply NoDup_alt. intros i j x Hi Hj.
    destruct (Hbuilt i x Hi) as [Hx _]. destruct (Hbuilt j x Hj) as [Hx' _].
    apply (chunk_id_of_inj file_path). congruence.
  - rewrite Hn. cbn [ingest.ids length]. rewrite length_zip.
    cbn [length]. lia.
  - exact Hbuilt.
Qed.

Lemma opened_app (log1 log2 : list (ingest.event embedding)) :
  opened (log1 ++ log2) = opened log1 ++ opened log2.
Proof. unfold opened. apply omap_app. Qed.

(** [index_file] opens its file and no other. *)
Lemma index_file_opened (fuel : nat) (file_path : string) (c : chunker.Chunker)
    (log : list (ingest.event embedding)) :
  opened (ingest.index_file encode decode read_text path_stem relative_to_grandparent
            embedding embedding_model_encode fuel file_path c log).2
  = opened log ++ [file_path].
Proof.
  unfold ingest.index_file. run_io.
  destruct (chunker.chunk_ encode decode fuel c _ _) as [chunks| |];
    cbn [snd]; try (now rewrite opened_app).
  destruct chunks as [|ch chunks]; cbn [snd]; [now rewrite opened_app|].
  destruct (chunker.for_each _ (ch :: chunks)) as [texts| |];
    cbn [snd]; try (now rewrite opened_app).
  destruct (ingest.prepare _ _ _ _ 0 _ _) as [args| |]; cbn [snd];
    rewrite ?opened_app; cbn; now rewrite ?app_nil_r.
Qed.

(** [index_files] opens a prefix of its list, in order: all of it when it
    returns. *)
Lemma index_files_opened (fuel : nat) (c : chunker.Chunker) (md_files : list string) :
  forall total_chunks (log : list (ingest.event embedding)),
    let run := ingest.index_files encode decode read_text path_stem
                 relative_to_grandparent embedding embedding_model_encode
                 fuel c md_files total_chunks log in
    exists l, opened run.2 = opened log ++ l /\ l `prefix_of` md_files /\
              (is_Return run.1 = true -> l = md_files).
Proof.
  induction md_files as [|f rest IH]; intros total log; cbn zeta.
  - exists []. cbn. rewrite app_nil_r. repeat split. apply prefix_nil.
  - cbn [ingest.index_files]. run_io.
    pose proof (index_file_opened fuel f c log) as Hf.
    destruct (ingest.index_file _ _ _ _ _ _ _ fuel f c log) as [[count| |] log1];
      cbn [fst snd] in *.
    + destruct (IH (total + count) log1) as (l & Hl & Hpre & Hall).
      exists (f :: l). rewrite Hl, Hf, <- app_assoc. cbn [app].
      repeat split.
      * now apply prefix_cons.
      * intros Hret. now rewrite (Hall Hret).
    + exists [f]. split; [exact Hf|]. split; [|discriminate].
      apply prefix_cons, prefix_nil.
    + exists [f]. split; [exact Hf|]. split; [|discriminate].
      apply prefix_cons, prefix_nil.
Qed.

(** [find_files] opens nothing and returns what [rglob] finds for each
    extension, in the order of the extensions. *)
Lemma find_files_run (directory : string) (exts : list string) :
  forall log : list (ingest.event embedding),
    exists log',
      ingest.find_files rglob embedding directory exts log
      = (Return (flat_map (fun ext => rglob directory ("*" +:+ ext)) exts), log') /\
      opened log' = opened log.
Proof.
  induction exts as [|ext rest IH]; intros log.
  - exists log. now split.
  - cbn [ingest.find_files flat_map]. run_io.
    destruct (IH (log ++ [ingest.Rglob embedding directory ("*" +:+ ext)]))
      as (log' & Hrun & Hopened).
    exists log'. rewrite Hrun. split; [reflexivity|].
    rewrite Hopened, opened_app. cbn. now rewrite app_nil_r.
Qed.

(** X5.  [index_directory] opens only files that [rglob] found under the
    directory for ["*.md"] or ["*.markdown"] and that no exclude pattern
    matches, in that order and without skipping any: the files opened in a
    run are a prefix of this list, and the whole list when the run returns.
    A file named [README.md], or whose name starts with a dot, is never
    opened. *)
Theorem index_directory_opens_in_order (fuel : nat) (directory : string)
    (strategy : option string) (log : list (ingest.event embedding)) :
  let run := ingest.index_directory encode decode rglob read_text path_name
               path_stem relative_to_grandparent embedding embedding_model_encode
               fuel directory strategy log in
  let md_files :=
    List.filter (fun f => negb (ingest.excluded path_name f))
      (rglob directory "*.md" ++ rglob directory "*.markdown") in
  exists l,
    opened run.2 = opened log ++ l /\
    l `prefix_of` md_files /\
    (is_Return run.1 = true -> l = md_files) /\
    Forall (fun f => path_name f <> "README.md" /\
                     forall rest, path_name f <> "." +:+ rest) l.
Proof.
  cbn zeta. unfold ingest.index_directory. run_io.
  assert (Hfilter : forall l,
            l `prefix_of` List.filter (fun f => negb (ingest.excluded path_name f))
                            (rglob directory "*.md" ++ rglob directory "*.markdown") ->
            Forall (fun f => path_name f <> "README.md" /\
                             forall rest, path_name f <> "." +:+ rest) l).
  { intros l [k Hk]. apply Forall_forall. intros f Hf.
    assert (Hin : In f (List.filter (fun f => negb (ingest.excluded path_name f))
                          (rglob directory "*.md" ++ rglob directory "*.markdown"))).
    { rewrite Hk. apply in_or_app. left. now apply list_elem_of_In. }
    apply filter_In in Hin as [_ Hex]. apply negb_true_iff in Hex.
    unfold ingest.excluded in Hex. split.
    - intros Hname. rewrite Hname in Hex. vm_compute in Hex. discriminate.
    - intros rest Hname. rewrite Hname in Hex.
      cbn [existsb config.EXCLUDE_PATTERNS] in Hex.
      apply orb_false_iff in Hex as [_ Hex]. apply orb_false_iff in Hex as [Hex _].
      vm_compute in Hex. discriminate. }
  destruct (chunker.get_chunker strategy) as [c| |]; cbn [fst snd].
  - destruct (find_files_run directory config.SUPPORTED_EXTENSIONS log)
      as (log1 & Hfind & Hopened).
    rewrite Hfind. cbn [flat_map config.SUPPORTED_EXTENSIONS]. rewrite app_nil_r.
    match goal with
    | |- context [ingest.index_files _ _ _ _ _ _ _ fuel c ?files 0 log1] =>
        destruct (index_files_opened fuel c files 0 log1) as (l & Hl & Hpre & Hall)
    end.
    exists l. rewrite Hl, Hopened. repeat split; try assumption.
    now apply Hfilter.
  - exists []. rewrite app_nil_r. repeat split; [apply prefix_nil|discriminate|constructor].
  - exists []. rewrite app_nil_r. repeat split; [apply prefix_nil|discriminate|constructor].
Qed.

End IndexerLog.

(** The run of [example_index_file] stores its chunks by position. *)
Lemma index_file_stores_positions_example :
  (returned 0 example_index_file.1 = 0 /\
   example_index_file.2 = [] ++ [ingest.Open unit "wiki/runbooks/a.md"]) \/
  (exists texts ids embeddings documents metadatas,
     example_index_file.2
       = [] ++ [ingest.Open unit "wiki/runbooks/a.md";
                ingest.Encode unit texts;
                ingest.CollectionAdd unit ids embeddings documents metadatas] /\
     NoDup ids /\
     length metadatas = length ids /\
     Z.of_nat (length ids) <= returned 0 example_index_file.1 /\
     forall (i : nat) x, ids !! i = Some x ->
       x = "wiki/runbooks/a.md" +:+ "-chunk-" +:+ pretty i /\
       exists m, metadatas !! i = Some m /\
                 m !! "chunk_index" = Some (VInt (Z.of_nat i))).
Proof.
  apply (index_file_stores_positions char_codec.encode char_codec.decode
           (fun _ => three_small_sections) (fun p => p) (fun p => p) unit
           (fun texts => map (fun _ => tt) texts) 1
           "wiki/runbooks/a.md" (chunker.IsLayoutAware chunker.LayoutAwareChunker_init)
           [] example_index_file.2 (returned 0 example_index_file.1)).
  fold example_index_file.
  rewrite <- (returned_Return 0 example_index_file.1) by (vm_compute; reflexivity).
  now destruct example_index_file.
Defined.

(** ** ingest.py: the metadata record *)

Lemma ascii_upper_idem (c : ascii) : ascii_upper (ascii_upper c) = ascii_upper c.
Proof. destruct c as [[] [] [] [] [] [] [] []]; reflexivity. Qed.

Lemma py_upper_idem (s : string) : py_upper (py_upper s) = py_upper s.
Proof.
  unfold py_upper. induction s as [|c s IH]; [reflexivity|].
  cbn. now rewrite ascii_upper_idem, IH.
Qed.

Lemma add_matches_keep (k : string) (ms : list rmatch) :
  forall metadata : gmap string string,
    is_Some (metadata !! k) ->
    is_Some (fold_left ingest.add_match ms metadata !! k).
Proof.
  induction ms as [|m ms IH]; intros metadata H; [exact H|].
  cbn [fold_left]. apply IH. unfold ingest.add_match.
  apply lookup_insert_is_Some'. now right.
Qed.

(** X6.  The metadata record of [extract_from_content] always has the
    fields [source_file] and [content_type]; whenever it has [service] it
    has [service_name] with the same value; and its [severity], when
    present, is in upper case. *)
Theorem extract_from_content_invariants (content file_path : string) :
  let metadata := ingest.extract_from_content content file_path in
  is_Some (metadata !! "source_file") /\
  is_Some (metadata !! "content_type") /\
  (forall v, metadata !! "service" = Some v -> metadata !! "service_name" = Some v) /\
  (forall v, metadata !! "severity" = Some v -> py_upper v = v).
Proof.
  cbn zeta. unfold ingest.extract_from_content.
  set (md0 := <["content_type" := _]> (<["source_file" := _]> ∅) : gmap string string).
  set (md1 := fold_left ingest.add_match _ md0).
  set (md2 := match re_search true ingest.re_h1 content with
              | Some h1_match => <["title" := m_group h1_match 1]> md1
              | None => md1
              end).
  set (md3 := match md2 !! "service" with
              | Some v => <["service_name" := v]> md2
              | None => md2
              end).
  assert (Hkeep : forall k, is_Some (md0 !! k) -> is_Some (md3 !! k)).
  { intros k Hk.
    apply (add_matches_keep k
             (re_finditer false ingest.blockquote_pattern content) md0) in Hk.
    fold md1 in Hk.
    assert (Hk2 : is_Some (md2 !! k)).
    { unfold md2. destruct (re_search _ _ _); [|exact Hk].
      apply lookup_insert_is_Some'. now right. }
    unfold md3. destruct (md2 !! "service"); [|exact Hk2].
    apply lookup_insert_is_Some'. now right. }
  assert (Hfinal : forall k, is_Some (md3 !! k) ->
            is_Some (match md3 !! "severity" with
                     | Some v => <["severity" := py_upper v]> md3
                     | None => md3
                     end !! k)).
  { intros k Hk. destruct (md3 !! "severity"); [|exact Hk].
    apply lookup_insert_is_Some'. now right. }
  split; [|split; [|split]].
  - apply Hfinal, Hkeep. unfold md0.
    rewrite lookup_insert_ne by discriminate. rewrite lookup_insert_eq. eauto.
  - apply Hfinal, Hkeep. unfold md0. rewrite lookup_insert_eq. eauto.
  - intros v Hv.
    assert (H3 : md3 !! "service" = Some v).
    { destruct (md3 !! "severity"); [|exact Hv].
      now rewrite lookup_insert_ne in Hv by discriminate. }
    assert (H3' : md3 !! "service_name" = Some v).
    { unfold md3 in *. destruct (md2 !! "service") as [u|] eqn:E2.
      - rewrite lookup_insert_ne in H3 by discriminate.
        rewrite lookup_insert_eq. congruence.
      - congruence. }
    destruct (md3 !! "severity"); [|exact H3'].
    now rewrite lookup_insert_ne by discriminate.
  - intros v Hv. destruct (md3 !! "severity") as [u|] eqn:E3.
    + rewrite lookup_insert_eq in Hv. inversion Hv. apply py_upper_idem.
    + congruence.
Qed.

(** Where the text ahead does not start with the quote marker, the
    annotation pattern does not match there. *)
Lemma blockquote_needs_marker (st : mstate) :
  match ms_rest st with
  | [] => True
  | c :: _ => c <> ">"%char
  end ->
  match_at false ingest.blockquote_pattern st = None.
Proof.
  intros H. unfold match_at, ingest.blockquote_pattern.
  cbn [rx_seq rx_match]. unfold ms_step, ms_advance. cbn [ms_rest].
  destruct (ms_rest st) as [|c rest]; [reflexivity|].
  destruct (Ascii.eqb_spec ">" c) as [<-|_]; [congruence|reflexivity].
Qed.

Lemma search_without_marker (fuel : nat) :
  forall st, Forall (fun c => c <> ">"%char) (ms_rest st) ->
             search_from false ingest.blockquote_pattern fuel st = None.
Proof.
  induction fuel as [|fuel IH]; intros st H; cbn [search_from];
    (rewrite blockquote_needs_marker
       by (destruct (ms_rest st); [exact I|now inversion H])).
  - reflexivity.
  - unfold ms_advance. destruct (ms_rest st) as [|c rest] eqn:E; [reflexivity|].
    apply IH. cbn [ms_rest]. now inversion H.
Qed.

(** X7.  A document with no [>] character yields no annotation field:
    its metadata record has [source_file] (the path), [content_type] (read
    off the path), possibly [title], and nothing else; in particular an
    unquoted [**Service:** checkout] is not extracted. *)
Theorem no_quote_marker_no_annotation (content file_path : string) :
  Forall (fun c => c <> ">"%char) (list_ascii_of_string content) ->
  let metadata := ingest.extract_from_content content file_path in
  metadata !! "source_file" = Some file_path /\
  metadata !! "content_type" = Some (ingest._infer_content_type file_path) /\
  forall k, k <> "source_file" -> k <> "content_type" -> k <> "title" ->
            metadata !! k = None.
Proof.
  intros H. cbn zeta. unfold ingest.extract_from_content.
  unfold re_finditer. cbn [finditer_from].
  rewrite search_without_marker by exact H. cbn [fold_left].
  set (md0 := <["content_type" := _]> (<["source_file" := _]> ∅) : gmap string string).
  set (md2 := match re_search true ingest.re_h1 content with
              | Some h1_match => <["title" := m_group h1_match 1]> md0
              | None => md0
              end).
  assert (Hother : forall k, k <> "title" -> md2 !! k = md0 !! k).
  { intros k Hk. unfold md2. destruct (re_search _ _ _); [|reflexivity].
    now rewrite lookup_insert_ne. }
  assert (Hservice : md2 !! "service" = None).
  { rewrite Hother by discriminate. reflexivity. }
  rewrite Hservice.
  assert (Hseverity : md2 !! "severity" = None).
  { rewrite Hother by discriminate. reflexivity. }
  rewrite Hseverity.
  split; [|split].
  - rewrite Hother by discriminate. reflexivity.
  - rewrite Hother by discriminate. reflexivity.
  - intros k H1 H2 H3. rewrite Hother by exact H3. unfold md0.
    rewrite lookup_insert_ne by congruence.
    rewrite lookup_insert_ne by congruence. apply lookup_empty.
Qed.

Lemma no_quote_marker_no_annotation_example :
  let metadata :=
    ingest.extract_from_content "**Service:** checkout" "wiki/apps/checkout.md" in
  metadata !! "source_file" = Some "wiki/apps/checkout.md" /\
  metadata !! "content_type"
    = Some (ingest._infer_content_type "wiki/apps/checkout.md") /\
  forall k, k <> "source_file" -> k <> "content_type" -> k <> "title" ->
            metadata !! k = None.
Proof.
  apply (no_quote_marker_no_annotation "**Service:** checkout" "wiki/apps/checkout.md").
  repeat constructor; discriminate.
Defined.

(** ** chunker.py: the merge pass *)

Lemma string_app_assoc (a b c : string) : (a +:+ b) +:+ c = a +:+ (b +:+ c).
Proof.
  induction a as [|x a IH]; [reflexivity|].
  change (String x ((a +:+ b) +:+ c) = String x (a +:+ (b +:+ c))).
  now rewrite IH.
Qed.

Lemma py_join_cons (sep x : string) (l : list string) :
  py_join sep (x :: l) = match l with [] => x | _ :: _ => x +:+ sep +:+ py_join sep l end.
Proof. reflexivity. Qed.

Section MergeFacts.

Variable encode : string -> list Z.
Variable self : chunker.LayoutAwareChunker.

Lemma merge_of_nil : merge_of encode [] [].
Proof. repeat split; cbn; try lia; constructor. Qed.

(** A chunk that is kept as it is. *)
Lemma merge_of_keep c rest out :
  mergeable c -> merge_of encode rest out -> merge_of encode (c :: rest) (c :: out).
Proof.
  intros Hc (Hjoin & Hlen & Hall & Htok). repeat split.
  - cbn [map]. rewrite !py_join_cons.
    destruct rest as [|r rest], out as [|o out]; cbn [map length] in *;
      try lia; [reflexivity|].
    cbn [map] in Hjoin. now rewrite Hjoin.
  - cbn [length]. lia.
  - cbn [length]. lia.
  - now constructor.
  - intros H. inversion H; subst. constructor; [assumption|now apply Htok].
Qed.

(** Two chunks that are merged into one. *)
Lemma merge_of_pair c next m text1 text2 rest out :
  c !! "content" = Some (VStr text1) ->
  next !! "content" = Some (VStr text2) ->
  m !! "content" = Some (VStr (text1 +:+ (nl +:+ nl) +:+ text2)) ->
  m !! "tokens"
    = Some (VInt (chunker.count_tokens encode (text1 +:+ (nl +:+ nl) +:+ text2))) ->
  is_Some (m !! "section_title") ->
  merge_of encode rest out ->
  merge_of encode (c :: next :: rest) (m :: out).
Proof.
  intros Hc Hn Hm Ht Htitle (Hjoin & Hlen & Hall & Htok). repeat split.
  - assert (Ec : content_of c = text1) by (unfold content_of; now rewrite Hc).
    assert (En : content_of next = text2) by (unfold content_of; now rewrite Hn).
    assert (Em : content_of m = text1 +:+ (nl +:+ nl) +:+ text2)
      by (unfold content_of; now rewrite Hm).
    cbn [map]. rewrite !py_join_cons, Ec, En, Em.
    destruct rest as [|r rest], out as [|o out]; cbn [map length] in *; try lia.
    + now rewrite ?string_app_assoc.
    + cbn [map] in Hjoin. rewrite Hjoin. now rewrite ?string_app_assoc.
  - cbn [length]. lia.
  - cbn [length]. lia.
  - constructor; [|exact Hall]. repeat split; eauto.
  - intros H. inversion H as [|? ? _ H']; subst. inversion H'; subst.
    constructor; [|now apply Htok]. eexists. split; [exact Hm|exact Ht].
Qed.

(** One iteration that keeps the current chunk. *)
Lemma merge_body_keep (chunks : list (gmap string pyval)) (i : nat) acc current t :
  chunks !! i = Some current ->
  current !! "tokens" = Some (VInt t) ->
  (t <? chunker.min_tokens self) && (i + 1 <? length chunks)%nat = false ->
  chunker.merge_body encode self chunks (chunker.MergeState i acc)
  = Return (chunker.MergeState (i + 1) (acc ++ [current])).
Proof.
  intros Hcur Htokens Hcond. unfold chunker.merge_body, py_index, py_getitem.
  cbn [chunker.merge_i chunker.merged]. rewrite Hcur.
  cbn [mbind outcome_bind obind]. rewrite Htokens.
  cbn [mbind outcome_bind obind py_lt_int]. now rewrite Hcond.
Qed.

(** One iteration that merges the current chunk with the next one. *)
Lemma merge_body_pair (chunks : list (gmap string pyval)) (i : nat) acc
    current next t text1 text2 title1 title2 :
  chunks !! i = Some current ->
  chunks !! (i + 1)%nat = Some next ->
  current !! "tokens" = Some (VInt t) ->
  (t <? chunker.min_tokens self) && (i + 1 <? length chunks)%nat = true ->
  current !! "content" = Some (VStr text1) ->
  next !! "content" = Some (VStr text2) ->
  current !! "section_title" = Some title1 ->
  next !! "section_title" = Some title2 ->
  chunker.merge_body encode self chunks (chunker.MergeState i acc)
  = Return (chunker.MergeState (i + 2)
      (acc ++
       [ <["merged" := VBool true]>
         (<["tokens" := VInt (chunker.count_tokens encode
                                (text1 +:+ (nl +:+ nl) +:+ text2))]>
         (<["section_title" := VStr (py_str title1 +:+ " + " +:+ py_str title2)]>
         (<["content" := VStr (text1 +:+ (nl +:+ nl) +:+ text2)]> current))) ])).
Proof.
  intros Hcur Hnext Htokens Hcond Hc1 Hc2 Ht1 Ht2.
  unfold chunker.merge_body, py_index, py_getitem.
  cbn [chunker.merge_i chunker.merged]. rewrite Hcur.
  cbn [mbind outcome_bind obind]. rewrite Htokens.
  cbn [mbind outcome_bind obind py_lt_int]. rewrite Hcond, Hnext.
  cbn [mbind outcome_bind obind]. rewrite Hc1.
  cbn [mbind outcome_bind obind py_add_str]. rewrite Hc2.
  cbn [mbind outcome_bind obind py_str_add]. rewrite Ht1.
  cbn [mbind outcome_bind obind]. rewrite Ht2.
  cbn [mbind outcome_bind obind]. now rewrite !string_app_assoc.
Qed.

(** The loop of [_merge_small_chunks] from the index [i] on: it returns,
    having appended a merge of the chunks from [i] on. *)
Lemma merge_loop (chunks : list (gmap string pyval)) :
  Forall mergeable chunks ->
  forall fuel i acc,
    (i <= length chunks)%nat ->
    (length chunks - i < fuel)%nat ->
    exists out,
      py_while fuel
        (fun st => Return (chunker.merge_i st <? length chunks)%nat)
        (chunker.merge_body encode self chunks) (chunker.MergeState i acc)
      = Return (chunker.MergeState (length chunks) (acc ++ out)) /\
      merge_of encode (drop i chunks) out.
Proof.
  intros Hall. induction fuel as [|fuel IH]; intros i acc Hi Hfuel; [lia|].
  cbn [py_while chunker.merge_i mbind outcome_bind obind].
  destruct (Nat.ltb_spec i (length chunks)) as [Hlt|Hge].
  2:{ exists []. rewrite app_nil_r. replace i with (length chunks) by lia.
      rewrite drop_all. split; [reflexivity|apply merge_of_nil]. }
  destruct (lookup_lt_is_Some_2 chunks i Hlt) as [current Hcur].
  pose proof (proj1 (Forall_lookup _ _) Hall i current Hcur)
    as ((t & Htokens) & (text1 & Hcontent) & (title1 & Htitle)).
  rewrite (drop_S _ _ _ Hcur).
  destruct ((t <? chunker.min_tokens self) && (i + 1 <? length chunks)%nat) eqn:Hcond.
  - apply andb_true_iff in Hcond as Hboth. destruct Hboth as [_ Hlt'].
    apply Nat.ltb_lt in Hlt'.
    destruct (lookup_lt_is_Some_2 chunks (i + 1) Hlt') as [next Hnext].
    pose proof (proj1 (Forall_lookup _ _) Hall (i + 1)%nat next Hnext)
      as (_ & (text2 & Hcontent2) & (title2 & Htitle2)).
    rewrite (merge_body_pair chunks i acc current next t text1 text2 title1 title2
               Hcur Hnext Htokens Hcond Hcontent Hcontent2 Htitle Htitle2).
    cbn [mbind outcome_bind obind].
    match goal with
    | |- context [chunker.MergeState (i + 2) (acc ++ [?m])] =>
        destruct (IH (i + 2)%nat (acc ++ [m]) ltac:(lia) ltac:(lia))
          as (out & Hrun & Hmerge);
        exists (m :: out)
    end.
    rewrite Hrun. split; [now rewrite <- app_assoc|].
    replace (Datatypes.S i) with (i + 1)%nat by lia.
    rewrite (drop_S _ _ _ Hnext).
    replace (Datatypes.S (i + 1)) with (i + 2)%nat by lia.
    eapply merge_of_pair; [exact Hcontent|exact Hcontent2| | | |exact Hmerge].
    + rewrite !lookup_insert_ne by discriminate. now rewrite lookup_insert_eq.
    + rewrite lookup_insert_ne by discriminate. now rewrite lookup_insert_eq.
    + rewrite !lookup_insert_ne by discriminate. rewrite lookup_insert_eq. eauto.
  - rewrite (merge_body_keep chunks i acc current t Hcur Htokens Hcond).
    cbn [mbind outcome_bind obind].
    destruct (IH (i + 1)%nat (acc ++ [current]) ltac:(lia) ltac:(lia))
      as (out & Hrun & Hmerge).
    exists (current :: out). rewrite Hrun. split; [now rewrite <- app_assoc|].
    replace (Datatypes.S i) with (i + 1)%nat by lia.
    apply merge_of_keep; [|exact Hmerge]. repeat split; eauto.
Qed.

(** The merge pass on readable chunks. *)
Lemma merge_returns (chunks : list (gmap string pyval)) :
  Forall mergeable chunks ->
  exists merged,
    chunker._merge_small_chunks encode self chunks = Return merged /\
    merge_of encode chunks merged.
Proof.
  intros Hall. unfold chunker._merge_small_chunks.
  destruct (merge_loop chunks Hall (Datatypes.S (length chunks)) 0%nat [])
    as (out & Hrun & Hmerge); [lia|lia|].
  exists out. rewrite Hrun. split; [reflexivity|exact Hmerge].
Qed.

(** X8.  On chunks it can read (an integer ["tokens"], a string
    ["content"], a ["section_title"]) the merge pass returns, and loses no
    text: the contents of the result joined by blank lines are the
    contents of the input joined by blank lines.  The result has at most as
    many chunks as the input and at least half as many, every chunk of it
    can be read again, and if every input chunk's ["tokens"] is the token
    count of its content, so is every output chunk's, a merged chunk's
    included. *)
Theorem merge_pass_preserves_text (chunks : list (gmap string pyval)) :
  Forall mergeable chunks ->
  exists merged,
    chunker._merge_small_chunks encode self chunks = Return merged /\
    py_join (nl +:+ nl) (map content_of merged)
      = py_join (nl +:+ nl) (map content_of chunks) /\
    (length merged <= length chunks <= 2 * length merged)%nat /\
    Forall mergeable merged /\
    (Forall (tokens_match encode) chunks -> Forall (tokens_match encode) merged).
Proof.
  intros Hall. destruct (merge_returns chunks Hall) as (merged & Hrun & Hmerge).
  exists merged. split; [exact Hrun|exact Hmerge].
Qed.

End MergeFacts.

Lemma merge_pass_preserves_text_example :
  exists merged,
    chunker._merge_small_chunks char_codec.encode chunker.LayoutAwareChunker_init
      two_small_chunks = Return merged /\
    py_join (nl +:+ nl) (map content_of merged)
      = py_join (nl +:+ nl) (map content_of two_small_chunks) /\
    (length merged <= length two_small_chunks <= 2 * length merged)%nat /\
    Forall mergeable merged /\
    (Forall (tokens_match char_codec.encode) two_small_chunks ->
     Forall (tokens_match char_codec.encode) merged).
Proof.
  apply (merge_pass_preserves_text char_codec.encode chunker.LayoutAwareChunker_init
           two_small_chunks).
  repeat constructor; eexists; vm_compute; reflexivity.
Defined.

(** ** chunker.py: the Layout-Aware strategy as a whole *)

Section LayoutAwareWhole.

Variable encode : string -> list Z.
Variable self : chunker.LayoutAwareChunker.

Lemma layout_chunk_own_field (c t h : string) (n i : Z)
    (metadata : gmap string pyval) (k : string) :
  metadata !! k = None ->
  chunker.layout_chunk c t h n i metadata !! k
  = (<["content" := VStr c]> (<["section_title" := VStr t]>
    (<["heading_level" := VStr h]> (<["tokens" := VInt n]>
    (<["chunk_index" := VInt i]> (∅ : gmap string pyval)))))) !! k.
Proof. intros H. unfold chunker.layout_chunk. now rewrite lookup_union_r. Qed.

Lemma layout_chunk_metadata_field (c t h : string) (n i : Z)
    (metadata : gmap string pyval) (k : string) (v : pyval) :
  metadata !! k = Some v ->
  chunker.layout_chunk c t h n i metadata !! k = Some v.
Proof. intros H. unfold chunker.layout_chunk. now apply lookup_union_Some_l. Qed.

(** A property of every chunk [chunk] builds holds of all the chunks
    before the merge pass. *)
Lemma chunks_before_merge_all (P : gmap string pyval -> Prop)
    (metadata : gmap string pyval) (content : string) :
  (forall c t h i, P (chunker.layout_chunk c t h (chunker.count_tokens encode c) i metadata)) ->
  Forall P (fold_left (chunker.chunk_section encode self metadata)
              (chunker._split_by_h2 content) []).
Proof.
  intros HP. generalize (chunker._split_by_h2 content). intros secs.
  assert (H : forall chunks, Forall P chunks ->
            Forall P (fold_left (chunker.chunk_section encode self metadata) secs chunks)).
  { induction secs as [|sec secs IH]; intros chunks Hall; [exact Hall|].
    cbn [fold_left]. apply IH. unfold chunker.chunk_section.
    destruct (_ <? 50); [exact Hall|].
    destruct (_ <? _).
    - generalize (chunker._split_by_h3 (chunker.content sec)). intros subs.
      revert chunks Hall. induction subs as [|sub subs IHs]; intros chunks Hall;
        [exact Hall|].
      cbn [fold_left]. apply IHs. unfold chunker.append_subsection.
      apply Forall_app. split; [exact Hall|]. constructor; [apply HP|constructor].
    - apply Forall_app. split; [exact Hall|]. constructor; [apply HP|constructor]. }
  apply H. constructor.
Qed.

(** X9.  When the metadata has none of the keys ["content"], ["tokens"]
    and ["section_title"], Layout-Aware chunking returns (it raises
    nothing, with or without the merge pass), and in every chunk it
    returns, merged or not, ["tokens"] is the exact token count of
    ["content"]. *)
Theorem layout_chunks_have_exact_tokens (content : string)
    (metadata : gmap string pyval) :
  metadata !! "content" = None ->
  metadata !! "tokens" = None ->
  metadata !! "section_title" = None ->
  exists chunks,
    chunker.LayoutAwareChunker_chunk encode self content metadata = Return chunks /\
    Forall (tokens_match encode) chunks.
Proof.
  intros Hc Ht Hs. unfold chunker.LayoutAwareChunker_chunk.
  set (chunks := fold_left _ _ []).
  assert (Hall : Forall (fun c => mergeable c /\ tokens_match encode c) chunks).
  { apply chunks_before_merge_all. intros c t h i.
    assert (E1 : chunker.layout_chunk c t h (chunker.count_tokens encode c) i metadata
                   !! "content" = Some (VStr c)).
    { rewrite layout_chunk_own_field by exact Hc. now rewrite lookup_insert_eq. }
    assert (E2 : chunker.layout_chunk c t h (chunker.count_tokens encode c) i metadata
                   !! "tokens" = Some (VInt (chunker.count_tokens encode c))).
    { rewrite layout_chunk_own_field by exact Ht.
      now repeat (rewrite lookup_insert_ne by discriminate); rewrite lookup_insert_eq. }
    assert (E3 : chunker.layout_chunk c t h (chunker.count_tokens encode c) i metadata
                   !! "section_title" = Some (VStr t)).
    { rewrite layout_chunk_own_field by exact Hs.
      now repeat (rewrite lookup_insert_ne by discriminate); rewrite lookup_insert_eq. }
    split; [repeat split; eauto|]. exists c. now split. }
  apply Forall_and in Hall as [Hmergeable Hmatch].
  destruct (chunker.merge_small self).
  - destruct (merge_returns encode self chunks Hmergeable)
      as (merged & Hrun & _ & _ & _ & Htok).
    exists merged. split; [exact Hrun|now apply Htok].
  - exists chunks. now split.
Qed.

(** X10.  The metadata is spliced into every chunk after the chunk's own
    fields, so a metadata field named ["tokens"] replaces the token count.
    With the merge pass on, a string there (as an annotation
    [> **Tokens:** ...] gives) makes the chunking raise [TypeError] as soon
    as there is a chunk to look at: the merge pass compares the field with
    the minimum. *)
Theorem tokens_annotation_raises (content : string)
    (metadata : gmap string pyval) (s : string) :
  chunker.merge_small self = true ->
  metadata !! "tokens" = Some (VStr s) ->
  returns_some
    (chunker.LayoutAwareChunker_chunk encode (without_merge self) content metadata)
    = true ->
  chunker.LayoutAwareChunker_chunk encode self content metadata = Raise TypeError.
Proof.
  intros Hon Hmd Hsome. unfold chunker.LayoutAwareChunker_chunk in *.
  cbn [without_merge chunker.merge_small] in Hsome. rewrite Hon.
  assert (Hfold : fold_left (chunker.chunk_section encode (without_merge self) metadata)
                    (chunker._split_by_h2 content) []
                  = fold_left (chunker.chunk_section encode self metadata)
                      (chunker._split_by_h2 content) []).
  { reflexivity. }
  rewrite Hfold in Hsome.
  pose proof (chunks_before_merge_all
                (fun c => c !! "tokens" = Some (VStr s)) metadata content
                ltac:(intros; now apply layout_chunk_metadata_field)) as Hall.
  destruct (fold_left _ _ []) as [|c cs]; [discriminate|].
  inversion Hall as [|? ? Hc _]; subst.
  unfold chunker._merge_small_chunks. cbn [py_while length].
  cbn [chunker.merge_i mbind outcome_bind obind Nat.ltb Nat.leb].
  unfold chunker.merge_body, py_index, py_getitem.
  cbn [chunker.merge_i lookup list_lookup mbind outcome_bind obind].
  rewrite Hc. reflexivity.
Qed.

End LayoutAwareWhole.

Lemma layout_chunks_have_exact_tokens_example :
  exists chunks,
    chunker.LayoutAwareChunker_chunk char_codec.encode chunker.LayoutAwareChunker_init
      three_small_sections ∅ = Return chunks /\
    Forall (tokens_match char_codec.encode) chunks.
Proof.
  apply (layout_chunks_have_exact_tokens char_codec.encode
           chunker.LayoutAwareChunker_init three_small_sections ∅);
    apply lookup_empty.
Defined.

(** The annotation of [tokens_annotation] reaches the chunker through the
    metadata extractor. *)
Lemma tokens_annotation_raises_example :
  chunker.LayoutAwareChunker_chunk char_codec.encode chunker.LayoutAwareChunker_init
    tokens_annotation
    (VStr <$> ingest.extract_from_content tokens_annotation "wiki/a.md")
  = Raise TypeError.
Proof.
  apply (tokens_annotation_raises char_codec.encode chunker.LayoutAwareChunker_init
           tokens_annotation
           (VStr <$> ingest.extract_from_content tokens_annotation "wiki/a.md")
           "many").
  - reflexivity.
  - vm_compute. reflexivity.
  - vm_compute. reflexivity.
Defined.

(** ** chunker.py: the Naive strategy without overlap *)

Section NaiveTiling.

Variable encode : string -> list Z.
Variable decode : list Z -> string.
Variable self : chunker.NaiveChunker.
Variable metadata : gmap string pyval.

Lemma naive_body_range (tokens : list Z) (st : chunker.naive_state) :
  metadata !! "start_token" = None ->
  metadata !! "end_token" = None ->
  exists c,
    chunker.chunks (chunker.naive_body decode self tokens metadata st)
      = chunker.chunks st ++ [c] /\
    token_range c
    = (Some (VInt (chunker.start st)),
       Some (VInt (Z.min (chunker.start st + chunker.chunk_size self)
                         (Z.of_nat (length tokens))))).
Proof.
  intros Hs He. unfold chunker.naive_body. cbn [chunker.chunks].
  eexists. split; [reflexivity|]. unfold token_range. f_equal.
  - rewrite lookup_union_r by exact Hs.
    now repeat (rewrite lookup_insert_ne by discriminate); rewrite lookup_insert_eq.
  - rewrite lookup_union_r by exact He.
    now repeat (rewrite lookup_insert_ne by discriminate); rewrite lookup_insert_eq.
Qed.

(** The loop from a state that has emitted [j] tiles and stands at the
    start of the next one. *)
Lemma naive_tiling_loop (tokens : list Z) :
  chunker.overlap self = 0 ->
  0 < chunker.chunk_size self ->
  metadata !! "start_token" = None ->
  metadata !! "end_token" = None ->
  let size := chunker.chunk_size self in
  let total := Z.of_nat (length tokens) in
  forall (n : nat) (st : chunker.naive_state),
    chunker.start st = Z.min (Z.of_nat (length (chunker.chunks st)) * size) total ->
    tiles size total (chunker.chunks st) ->
    (chunker.chunks st = [] \/
     (Z.of_nat (length (chunker.chunks st)) - 1) * size < total) ->
    total - chunker.start st <= Z.of_nat n ->
    exists st',
      py_while (Datatypes.S n)
        (fun st => Return (chunker.naive_cond tokens st))
        (fun st => Return (chunker.naive_body decode self tokens metadata st)) st
      = Return st' /\
      tiles size total (chunker.chunks st') /\
      total <= Z.of_nat (length (chunker.chunks st')) * size /\
      (chunker.chunks st' = [] \/
       (Z.of_nat (length (chunker.chunks st')) - 1) * size < total).
Proof.
  intros Hov Hsize Hs He size total.
  induction n as [|n IH]; intros st Hstart Htiles Hlast Hn;
    cbn [py_while mbind outcome_bind obind]; unfold chunker.naive_cond at 1;
    fold total;
    destruct (Z.ltb_spec (chunker.start st) total) as [Hlt|Hge];
    try (exists st; repeat split; [exact Htiles|lia|exact Hlast]); [lia|].
  destruct (naive_body_range tokens st Hs He) as (c & Hchunks & Hrange).
  fold size total in Hrange.
  assert (Hj : chunker.start st = Z.of_nat (length (chunker.chunks st)) * size) by lia.
  apply IH.
  - rewrite Hchunks, length_app. cbn [length chunker.start chunker.naive_body].
    fold size total. rewrite Hov. lia.
  - rewrite Hchunks. intros i c' Hi.
    apply lookup_app_Some in Hi as [Hi|[Hge Hi]]; [now apply Htiles|].
    apply list_lookup_singleton_Some in Hi as [Hi <-].
    rewrite Hrange. replace (Z.of_nat i) with (Z.of_nat (length (chunker.chunks st))) by lia.
    rewrite Hj. f_equal. f_equal. f_equal. f_equal. lia.
  - right. rewrite Hchunks, length_app. cbn [length]. lia.
  - cbn [chunker.start chunker.naive_body]. fold size total. rewrite Hov. lia.
Qed.

(** X11.  With no overlap and a positive window the Naive strategy
    returns; it gives the ceiling of [tokens / window] chunks, and (when
    the metadata has no key [start_token] or [end_token]) the chunk at
    position [i] records the token range from [i * window] to
    [(i + 1) * window], cut at the token count: the chunks tile the token
    sequence without gap or overlap. *)
Theorem naive_chunks_tile_without_overlap (content : string) :
  chunker.overlap self = 0 ->
  0 < chunker.chunk_size self ->
  metadata !! "start_token" = None ->
  metadata !! "end_token" = None ->
  let size := chunker.chunk_size self in
  let total := Z.of_nat (length (encode content)) in
  exists chunks,
    chunker.NaiveChunker_chunk encode decode
      (Datatypes.S (length (encode content))) self content metadata
    = Return chunks /\
    Z.of_nat (length chunks) = (total + size - 1) / size /\
    tiles size total chunks.
Proof.
  intros Hov Hsize Hs He size total. unfold chunker.NaiveChunker_chunk.
  destruct (naive_tiling_loop (encode content) Hov Hsize Hs He
              (length (encode content)) (chunker.NaiveState 0 []))
    as (st' & Hrun & Htiles & Hend & Hlast).
  - cbn. lia.
  - intros i c Hi. cbn [chunker.chunks] in Hi. now rewrite lookup_nil in Hi.
  - now left.
  - cbn. lia.
  - rewrite Hrun. cbn [mbind outcome_bind obind]. exists (chunker.chunks st').
    split; [reflexivity|]. split; [|exact Htiles].
    fold size total in Hend, Hlast.
    destruct Hlast as [Hnil|Hlast].
    + rewrite Hnil in *. cbn [length] in *. symmetry. apply Z.div_small. lia.
    + apply Z.div_unique with (r := total + size - 1
                                    - size * Z.of_nat (length (chunker.chunks st'))); lia.
Qed.

End NaiveTiling.

(** 1000 tokens in windows of 400: three chunks. *)
Lemma naive_chunks_tile_without_overlap_example :
  let self := {| chunker.chunk_size := 400; chunker.overlap := 0 |} in
  let size := chunker.chunk_size self in
  let total := Z.of_nat (length (char_codec.encode thousand_tokens)) in
  exists chunks,
    chunker.NaiveChunker_chunk char_codec.encode char_codec.decode
      (Datatypes.S (length (char_codec.encode thousand_tokens))) self
      thousand_tokens ∅
    = Return chunks /\
    Z.of_nat (length chunks) = (total + size - 1) / size /\
    tiles size total chunks.
Proof.
  apply (naive_chunks_tile_without_overlap char_codec.encode char_codec.decode
           {| chunker.chunk_size := 400; chunker.overlap := 0 |} ∅ thousand_tokens).
  - reflexivity.
  - reflexivity.
  - apply lookup_empty.
  - apply lookup_empty.
Defined.

(** ** chunker.py: the splitters *)

Lemma py_split_not_nil (sep : ascii) (s : string) : py_split sep s <> [].
Proof.
  destruct s as [|c s]; cbn; [discriminate|].
  destruct (Ascii.eqb c sep); [discriminate|].
  destruct (py_split sep s); discriminate.
Qed.

(** [sep.join(s.split(sep)) == s] *)
Lemma py_join_split (sep : ascii) (s : string) :
  py_join (String sep "") (py_split sep s) = s.
Proof.
  induction s as [|c s IH]; [reflexivity|].
  cbn [py_split]. destruct (Ascii.eqb_spec c sep) as [->|Hne].
  - pose proof (py_split_not_nil sep s) as Hnil.
    destruct (py_split sep s) as [|hd tl]; [contradiction|].
    cbn [py_join] in *. now rewrite IH.
  - pose proof (py_split_not_nil sep s) as Hnil.
    destruct (py_split sep s) as [|hd tl]; [contradiction|].
    cbn [py_join] in *. destruct tl; cbn; now rewrite <- IH.
Qed.

Section Splitters.

Variable heading : regex.
Variable first_title : string.

Lemma save_section_cut (seen : list string) (st : chunker.split_state) :
  split_inv heading first_title seen st ->
  exists groups,
    seen = concat groups /\
    chunker.save_section st = map (section_of_lines heading first_title) groups /\
    cut_at_headings heading groups.
Proof.
  intros (groups & Hseen & Hsec & [Hruns Hheads] & Htail & Hhead & Htitle).
  unfold chunker.save_section.
  destruct (chunker.current_section st) as [|l cur] eqn:Hcur.
  - exists groups. rewrite app_nil_r in Hseen. repeat split; assumption.
  - exists (groups ++ [l :: cur]). split; [|split; [|split]].
    + rewrite concat_app. cbn [concat]. now rewrite app_nil_r.
    + rewrite map_app, Hsec. cbn [map]. do 2 f_equal. now rewrite Htitle.
    + apply Forall_app. split; [exact Hruns|].
      constructor; [|constructor]. split; [discriminate|exact Htail].
    + destruct groups as [|g groups]; [constructor|].
      cbn [tail app] in *. apply Forall_app. split; [exact Hheads|].
      constructor; [|constructor]. now apply Hhead.
Qed.

Lemma split_line_inv (seen : list string) (st : chunker.split_state)
    (line : string) :
  split_inv heading first_title seen st ->
  split_inv heading first_title (seen ++ [line])
    (chunker.split_line heading st line).
Proof.
  intros Hinv. unfold chunker.split_line.
  destruct (re_match false heading line) as [m|] eqn:Hm.
  - destruct (save_section_cut seen st Hinv) as (groups & Hseen & Hsec & Hcut).
    exists groups. cbn [chunker.sections chunker.current_section chunker.current_title].
    split; [|split; [exact Hsec|split; [exact Hcut|split; [|split]]]].
    + now rewrite Hseen.
    + constructor.
    + intros _. exists line. split; [reflexivity|]. unfold is_heading. now rewrite Hm.
    + unfold section_of_lines. cbn [chunker.title]. now rewrite Hm.
  - destruct Hinv as (groups & Hseen & Hsec & Hcut & Htail & Hhead & Htitle).
    exists groups. cbn [chunker.sections chunker.current_section chunker.current_title].
    assert (Hline : is_heading heading line = false)
      by (unfold is_heading; now rewrite Hm).
    split; [|split; [exact Hsec|split; [exact Hcut|split; [|split]]]].
    + now rewrite Hseen, app_assoc.
    + destruct (chunker.current_section st) as [|l cur]; [constructor|].
      cbn [tail app] in *. apply Forall_app. split; [exact Htail|].
      constructor; [exact Hline|constructor].
    + intros Hne. destruct (Hhead Hne) as (l & Hl & Hh).
      destruct (chunker.current_section st); [discriminate|]. now exists l.
    + rewrite Htitle. unfold section_of_lines. cbn [chunker.title].
      destruct (chunker.current_section st); cbn [app]; [now rewrite Hm|reflexivity].
Qed.

Lemma split_lines_inv (lines : list string) :
  forall seen st,
    split_inv heading first_title seen st ->
    split_inv heading first_title (seen ++ lines)
      (fold_left (chunker.split_line heading) lines st).
Proof.
  induction lines as [|line lines IH]; intros seen st Hinv; cbn [fold_left].
  - now rewrite app_nil_r.
  - replace (seen ++ line :: lines) with ((seen ++ [line]) ++ lines)
      by now rewrite <- app_assoc.
    apply IH. now apply split_line_inv.
Qed.

Lemma split_by_cut (content : string) :
  exists groups,
    concat groups = py_split NL content /\
    py_join nl (concat groups) = content /\
    cut_at_headings heading groups /\
    chunker.split_by heading first_title content
    = map (section_of_lines heading first_title) groups.
Proof.
  unfold chunker.split_by. cbn zeta.
  destruct (save_section_cut (py_split NL content)
              (fold_left (chunker.split_line heading) (py_split NL content)
                 (chunker.SplitState [] [] first_title)))
    as (groups & Hseen & Hsec & Hcut).
  - apply (split_lines_inv (py_split NL content) []).
    exists []. cbn.
    split; [reflexivity|split; [reflexivity|split; [split; constructor|]]].
    split; [constructor|split; [|reflexivity]]. intros H. now contradiction H.
  - exists groups. split; [now symmetry|]. split; [|now split].
    rewrite <- Hseen. apply py_join_split.
Qed.

End Splitters.

(** X12.  The splitters lose no line and invent none.  [_split_by_h2]
    (and [_split_by_h3] in the same way) cuts the lines of the text, that
    is [content.split('\n')], into consecutive runs: the runs put end to
    end are exactly these lines in order (so, joined by newlines, the text
    again); no run is empty; a heading line is nowhere but at the start of
    a run, and every run but the first starts with one.  The sections are
    these runs in order, each stripped of surrounding white space and
    titled by its heading, the first by ["Introduction"] (["Section"])
    when the text does not start with a heading. *)
Theorem splitters_cut_at_headings (content : string) :
  (exists groups,
     concat groups = py_split NL content /\
     py_join nl (concat groups) = content /\
     cut_at_headings chunker.re_h2 groups /\
     chunker._split_by_h2 content
     = map (section_of_lines chunker.re_h2 "Introduction") groups) /\
  (exists groups,
     concat groups = py_split NL content /\
     py_join nl (concat groups) = content /\
     cut_at_headings chunker.re_h3 groups /\
     chunker._split_by_h3 content
     = map (section_of_lines chunker.re_h3 "Section") groups).
Proof.
  split; apply split_by_cut.
Qed.

(** ** chunker.py: where an abstract ends *)

Lemma string_of_list_ascii_app (l1 l2 : list ascii) :
  string_of_list_ascii (l1 ++ l2)
  = string_of_list_ascii l1 +:+ string_of_list_ascii l2.
Proof.
  induction l1 as [|c l1 IH]; [reflexivity|]. cbn. now rewrite IH.
Qed.

Lemma string_drop_skipn (k : nat) :
  forall s, list_ascii_of_string (string_drop k s)
            = skipn k (list_ascii_of_string s).
Proof.
  induction k as [|k IH]; intros [|c s]; cbn; try reflexivity. apply IH.
Qed.

(** [s[:n]] for an [n] that is not negative. *)
Lemma py_str_slice_to_nat (s : string) (n : nat) :
  py_str_slice_to s (Z.of_nat n)
  = string_of_list_ascii (firstn n (list_ascii_of_string s)).
Proof.
  unfold py_str_slice_to, py_slice_to, py_slice, py_clamp.
  set (l := list_ascii_of_string s).
  destruct (Z.ltb_spec (Z.of_nat n) 0) as [Hneg|_]; [lia|].
  cbn [Z.ltb Z.compare]. rewrite (Z.min_l 0) by lia.
  change (Z.to_nat 0) with 0%nat. rewrite drop_0.
  rewrite Z.sub_0_r. f_equal.
  destruct (Z.min_spec (Z.of_nat n) (Z.of_nat (length l))) as [[Hlt ->]|[Hge ->]].
  - now rewrite Nat2Z.id.
  - rewrite Nat2Z.id. rewrite firstn_all. symmetry. apply firstn_all2. lia.
Qed.

Lemma prefix_two (c d : ascii) (t : string) :
  String.prefix (String c (String d "")) t = true ->
  exists rest, t = String c (String d rest).
Proof.
  destruct t as [|c' [|d' rest]]; cbn; try discriminate.
  - destruct (ascii_dec c c'); discriminate.
  - destruct (ascii_dec c c') as [->|]; [|discriminate].
    destruct (ascii_dec d d') as [->|]; [|discriminate].
    intros _. now exists rest.
Qed.

(** Cutting right after the last occurrence of [c] followed by a space. *)
Lemma cut_after_terminator (s : string) (c : ascii) :
  let a := py_str_slice_to s (py_rfind s (String c " ") + 1) in
  a = "" \/
  exists pre rest, a = pre +:+ String c "" /\ s = a +:+ String " " rest.
Proof.
  cbn zeta. unfold py_rfind.
  destruct (py_rfind_from_spec (String c " ") s 0 (-1))
    as [[-> _]|(k & Hk & -> & Hocc & _)].
  - left. change (-1 + 1) with (Z.of_nat 0). now rewrite py_str_slice_to_nat.
  - right. apply prefix_two in Hocc as [rest Hdrop].
    apply (f_equal list_ascii_of_string) in Hdrop.
    rewrite string_drop_skipn in Hdrop. cbn [list_ascii_of_string] in Hdrop.
    replace (0 + Z.of_nat k + 1) with (Z.of_nat (k + 1)) by lia.
    rewrite py_str_slice_to_nat.
    set (l := list_ascii_of_string s) in *.
    assert (Hl : l = firstn k l ++ c :: " "%char :: list_ascii_of_string rest)
      by (now rewrite <- Hdrop, firstn_skipn).
    assert (Hlen : length (firstn k l) = k).
    { apply firstn_length_le.
      destruct (Nat.lt_ge_cases k (length l)) as [H|H]; [lia|].
      rewrite skipn_all2 in Hdrop by exact H. discriminate. }
    assert (Hcut : firstn (k + 1) l = firstn k l ++ [c]).
    { rewrite Hl at 1. rewrite firstn_app, Hlen.
      rewrite firstn_all2 by lia.
      now replace (k + 1 - k)%nat with 1%nat by lia. }
    exists (string_of_list_ascii (firstn k l)), rest. split.
    + now rewrite Hcut, string_of_list_ascii_app.
    + rewrite <- (string_of_list_ascii_of_string s). fold l.
      rewrite Hl at 1. rewrite Hcut.
      replace (firstn k l ++ c :: " "%char :: list_ascii_of_string rest)
        with ((firstn k l ++ [c]) ++ " "%char :: list_ascii_of_string rest)
        by now rewrite <- app_assoc.
      rewrite string_of_list_ascii_app. cbn [string_of_list_ascii].
      now rewrite string_of_list_ascii_of_string.
Qed.

Section AbstractEnd.

Variable encode : string -> list Z.
Variable decode : list Z -> string.
Variable self : chunker.AbstractFirstChunker.

(** X13.  The abstract of a text is the decoded window of its first
    [abstract_max_tokens] tokens, or that window cut right after a
    sentence terminator: unless it is the whole window (or empty), the
    abstract ends in a period, an exclamation mark or a question mark, and
    the window goes on with a space after it.  The abstract never holds
    text that the window does not start with. *)
Theorem abstract_ends_a_sentence (content : string) :
  let window :=
    decode (py_slice_to (encode content) (chunker.abstract_max_tokens self)) in
  let abstract := chunker._generate_abstract encode decode self content in
  abstract = window \/
  abstract = "" \/
  exists pre c rest,
    In c ["."; "!"; "?"]%char /\
    abstract = pre +:+ String c "" /\
    window = abstract +:+ String " " rest.
Proof.
  cbn zeta. rewrite _generate_abstract_extractive, _extractive_abstract_cut.
  set (window := decode _). unfold cut_by_priority. cbn zeta.
  destruct (past_seventy_percent (py_rfind window ". ") _).
  { destruct (cut_after_terminator window ".") as [H|(pre & rest & H1 & H2)];
      [now right; left|].
    right; right. exists pre, "."%char, rest. cbn [In]. auto. }
  destruct (past_seventy_percent (py_rfind window "! ") _).
  { destruct (cut_after_terminator window "!") as [H|(pre & rest & H1 & H2)];
      [now right; left|].
    right; right. exists pre, "!"%char, rest. cbn [In]. auto. }
  destruct (past_seventy_percent (py_rfind window "? ") _).
  { destruct (cut_after_terminator window "?") as [H|(pre & rest & H1 & H2)];
      [now right; left|].
    right; right. exists pre, "?"%char, rest. cbn [In]. auto. }
  now left.
Qed.

End AbstractEnd.

(** ** chunker.py: Abstract-First over Layout-Aware *)

Lemma for_each_total {A B : Type} (f : A -> outcome B) (R : A -> B -> Prop)
    (l : list A) :
  Forall (fun x => exists y, f x = Return y /\ R x y) l ->
  exists l', chunker.for_each f l = Return l' /\ Forall2 R l l'.
Proof.
  induction 1 as [|x l (y & Hy & HR) _ (l' & Hl' & HR')]; cbn [chunker.for_each].
  - exists []. split; [reflexivity|constructor].
  - exists (y :: l'). rewrite Hy. cbn [mbind outcome_bind obind]. rewrite Hl'.
    split; [reflexivity|now constructor].
Qed.

Section AbstractFirstWhole.

Variable encode : string -> list Z.
Variable decode : list Z -> string.
Variable self : chunker.AbstractFirstChunker.

Lemma layout_chunks_readable (content : string) (metadata : gmap string pyval) :
  metadata !! "content" = None ->
  metadata !! "tokens" = None ->
  metadata !! "section_title" = None ->
  exists chunks,
    chunker.LayoutAwareChunker_chunk encode (chunker.super self) content metadata
    = Return chunks /\
    Forall mergeable chunks.
Proof.
  intros Hc Ht Hs. unfold chunker.LayoutAwareChunker_chunk.
  set (chunks := fold_left _ _ []).
  assert (Hall : Forall mergeable chunks).
  { apply chunks_before_merge_all. intros c t h i. repeat split.
    - eexists. rewrite layout_chunk_own_field by exact Ht.
      now repeat (rewrite lookup_insert_ne by discriminate); rewrite lookup_insert_eq.
    - exists c. rewrite layout_chunk_own_field by exact Hc. now rewrite lookup_insert_eq.
    - exists (VStr t). rewrite layout_chunk_own_field by exact Hs.
      now repeat (rewrite lookup_insert_ne by discriminate); rewrite lookup_insert_eq. }
  destruct (chunker.merge_small (chunker.super self)).
  - destruct (merge_returns encode (chunker.super self) chunks Hall)
      as (merged & Hrun & _ & _ & Hmergeable & _).
    now exists merged.
  - now exists chunks.
Qed.

Lemma add_abstract_readable (c : gmap string pyval) :
  mergeable c ->
  exists c',
    chunker.add_abstract encode decode self c = Return c' /\
    abstract_added encode decode self c c'.
Proof.
  intros (_ & (text & Htext) & _). unfold chunker.add_abstract, py_getitem.
  rewrite Htext. cbn [mbind outcome_bind obind].
  assert (Hcontent : content_of c = text) by (unfold content_of; now rewrite Htext).
  eexists. split; [reflexivity|]. unfold abstract_added. rewrite Hcontent.
  split; [|split].
  - intros k Ha Ht. now rewrite !lookup_insert_ne by congruence.
  - rewrite lookup_insert_ne by discriminate. now rewrite lookup_insert_eq.
  - now rewrite lookup_insert_eq.
Qed.

(** X14.  The Abstract-First strategy is the Layout-Aware strategy with two
    fields more.  When the metadata has none of the keys [content],
    [tokens], [section_title], both return, with the same number of chunks
    in the same order, and the chunk at each position is the Layout-Aware
    chunk with [abstract] set to the abstract of its content and
    [abstract_tokens] to the abstract's token count; every other field,
    merged title and chunk index included, is as the Layout-Aware strategy
    left it. *)
Theorem abstract_first_extends_layout_aware (content : string)
    (metadata : gmap string pyval) :
  metadata !! "content" = None ->
  metadata !! "tokens" = None ->
  metadata !! "section_title" = None ->
  exists base chunks,
    chunker.LayoutAwareChunker_chunk encode (chunker.super self) content metadata
    = Return base /\
    chunker.AbstractFirstChunker_chunk encode decode self content metadata
    = Return chunks /\
    Forall2 (abstract_added encode decode self) base chunks.
Proof.
  intros Hc Ht Hs.
  destruct (layout_chunks_readable content metadata Hc Ht Hs) as (base & Hbase & Hall).
  destruct (for_each_total (chunker.add_abstract encode decode self)
              (abstract_added encode decode self) base) as (chunks & Hrun & Hadded).
  - eapply Forall_impl; [exact Hall|]. intros c Hm. now apply add_abstract_readable.
  - exists base, chunks. unfold chunker.AbstractFirstChunker_chunk. rewrite Hbase.
    cbn [mbind outcome_bind obind]. now split.
Qed.

End AbstractFirstWhole.

(** Three sections of a hundred tokens each, under the configured limits. *)
Lemma abstract_first_extends_layout_aware_example :
  exists base chunks,
    chunker.LayoutAwareChunker_chunk char_codec.encode
      (chunker.super chunker.AbstractFirstChunker_init) three_small_sections ∅
    = Return base /\
    chunker.AbstractFirstChunker_chunk char_codec.encode char_codec.decode
      chunker.AbstractFirstChunker_init three_small_sections ∅
    = Return chunks /\
    Forall2 (abstract_added char_codec.encode char_codec.decode
               chunker.AbstractFirstChunker_init) base chunks.
Proof.
  apply (abstract_first_extends_layout_aware char_codec.encode char_codec.decode
           chunker.AbstractFirstChunker_init three_small_sections ∅);
    apply lookup_empty.
Defined.

(** ** chunker.py: the size limits of the Layout-Aware strategy *)

Section LayoutAwareLimits.

Variable encode : string -> list Z.
Variable self : chunker.LayoutAwareChunker.
Variable metadata : gmap string pyval.

Hypothesis no_tokens : metadata !! "tokens" = None.
Hypothesis no_heading_level : metadata !! "heading_level" = None.

Lemma layout_chunk_heading_level (c t h : string) (n i : Z) :
  chunker.layout_chunk c t h n i metadata !! "heading_level" = Some (VStr h).
Proof using no_heading_level.
  rewrite layout_chunk_own_field by exact no_heading_level.
  now repeat (rewrite lookup_insert_ne by discriminate); rewrite lookup_insert_eq.
Qed.

Lemma layout_chunk_tokens (c t h : string) (n i : Z) :
  chunker.layout_chunk c t h n i metadata !! "tokens" = Some (VInt n).
Proof using no_tokens.
  rewrite layout_chunk_own_field by exact no_tokens.
  now repeat (rewrite lookup_insert_ne by discriminate); rewrite lookup_insert_eq.
Qed.

Lemma append_subsections_limits (sec : chunker.section)
    (subs : list chunker.section) :
  forall chunks,
    Forall (within_limits self) chunks ->
    Forall (within_limits self)
      (fold_left (chunker.append_subsection encode sec metadata) subs chunks).
Proof using no_heading_level.
  induction subs as [|sub subs IH]; intros chunks Hall; [exact Hall|].
  cbn [fold_left]. apply IH. unfold chunker.append_subsection.
  apply Forall_app. split; [exact Hall|]. constructor; [|constructor].
  right. apply layout_chunk_heading_level.
Qed.

Lemma chunk_section_limits (chunks : list (gmap string pyval))
    (sec : chunker.section) :
  Forall (within_limits self) chunks ->
  Forall (within_limits self)
    (chunker.chunk_section encode self metadata chunks sec).
Proof using no_tokens no_heading_level.
  intros Hall. unfold chunker.chunk_section. cbn zeta.
  destruct (Z.ltb_spec (chunker.count_tokens encode (chunker.content sec)) 50)
    as [Hsmall|Hbig]; [exact Hall|].
  destruct (Z.ltb_spec (chunker.max_tokens self)
              (chunker.count_tokens encode (chunker.content sec)))
    as [Hover|Hfits].
  - now apply append_subsections_limits.
  - apply Forall_app. split; [exact Hall|]. constructor; [|constructor].
    left. split; [apply layout_chunk_heading_level|].
    eexists. split; [apply layout_chunk_tokens|]. lia.
Qed.

(** X15.  Without the merge pass, and with no [tokens] or [heading_level]
    key in the metadata, every chunk of the Layout-Aware strategy is
    either a whole section (["h2"]) with at least 50 and at most
    [max_tokens] tokens, or a subsection (["h3"]) of a section that was
    over [max_tokens]; sections under 50 tokens give no chunk.  The limits
    bound whole-section chunks only. *)
Theorem whole_section_chunks_within_limits (content : string) :
  chunker.merge_small self = false ->
  exists chunks,
    chunker.LayoutAwareChunker_chunk encode self content metadata = Return chunks /\
    Forall (within_limits self) chunks.
Proof using no_tokens no_heading_level.
  intros Hmerge. unfold chunker.LayoutAwareChunker_chunk. rewrite Hmerge.
  eexists. split; [reflexivity|].
  generalize (chunker._split_by_h2 content). intros secs.
  assert (H : forall chunks, Forall (within_limits self) chunks ->
            Forall (within_limits self)
              (fold_left (chunker.chunk_section encode self metadata) secs chunks)).
  { induction secs as [|sec secs IH]; intros chunks Hall; [exact Hall|].
    cbn [fold_left]. apply IH. now apply chunk_section_limits. }
  apply H. constructor.
Qed.

End LayoutAwareLimits.

(** Three sections of a hundred tokens each, the merge pass switched off. *)
Lemma whole_section_chunks_within_limits_example :
  exists chunks,
    chunker.LayoutAwareChunker_chunk char_codec.encode
      (without_merge chunker.LayoutAwareChunker_init) three_small_sections ∅
    = Return chunks /\
    Forall (within_limits (without_merge chunker.LayoutAwareChunker_init)) chunks.
Proof.
  apply (whole_section_chunks_within_limits char_codec.encode
           (without_merge chunker.LayoutAwareChunker_init) ∅
           (lookup_empty _) (lookup_empty _) three_small_sections).
  reflexivity.
Defined.

(** ** parse_document_structure.py: the section map *)

Lemma string_app_nil_r (s : string) : s +:+ "" = s.
Proof.
  induction s as [|c s IH]; [reflexivity|].
  change (String c (s +:+ "") = String c s). now rewrite IH.
Qed.

Lemma concat_lines_app (l1 l2 : list string) :
  concat_lines (l1 ++ l2) = concat_lines l1 +:+ concat_lines l2.
Proof.
  induction l1 as [|x l1 IH]; [reflexivity|].
  unfold concat_lines in *. cbn [app fold_right]. rewrite IH.
  symmetry. apply string_app_assoc.
Qed.

Lemma filter_seq_nil (P : nat -> Prop) `{!forall x, Decision (P x)} (len : nat) :
  forall x,
    (forall j, (x <= j < x + len)%nat -> ~ P j) ->
    filter P (seq x len) = [].
Proof.
  induction len as [|len IH]; intros x Hnone; [reflexivity|].
  cbn [seq]. rewrite filter_cons_False by (apply Hnone; lia).
  apply IH. intros j Hj. apply Hnone. lia.
Qed.

Lemma find_by_id (l : list parse_document_structure.Section) :
  forall off i s,
    (forall j t, l !! j = Some t ->
                 parse_document_structure.id t
                 = parse_document_structure.sec_id (off + j)) ->
    l !! i = Some s ->
    List.find (fun t => String.eqb (parse_document_structure.id t)
                          (parse_document_structure.sec_id (off + i))) l
    = Some s.
Proof.
  induction l as [|t l IH]; intros off i s Hid Hi; [now rewrite lookup_nil in Hi|].
  cbn [List.find]. pose proof (Hid 0%nat t eq_refl) as Ht.
  destruct i as [|i].
  - cbn in Hi. inversion Hi. subst t. rewrite Ht.
    now rewrite String.eqb_refl.
  - rewrite Ht. destruct (String.eqb_spec (parse_document_structure.sec_id (off + 0))
                            (parse_document_structure.sec_id (off + Datatypes.S i)))
      as [Heq|_].
    + apply sec_id_inj in Heq. lia.
    + replace (off + Datatypes.S i)%nat with (Datatypes.S off + i)%nat by lia.
      apply IH; [|exact Hi]. intros j t' Hj.
      rewrite (Hid (Datatypes.S j) t' Hj). f_equal. lia.
Qed.

Section TreeWalk.

Import parse_document_structure.

(** The sections as a forest over their positions: [par] gives the
    position of the parent, [lv] the level, [dep] the depth. *)
Variable n : nat.
Variable lv : nat -> Z.
Variable par : nat -> option nat.
Variable dep : nat -> nat.
Variable secs : list Section.

Hypothesis secs_length : length secs = n.
Hypothesis secs_id : forall i s, secs !! i = Some s -> id s = sec_id i.
Hypothesis secs_children :
  forall i s, secs !! i = Some s ->
    children s = sec_id <$> hanging par (Some i) (seq 0 n).
Hypothesis secs_roots :
  map id (List.filter (fun s => match parent_id s with
                                | None => true
                                | Some _ => false
                                end) secs)
  = sec_id <$> hanging par None (seq 0 n).
Hypothesis par_some :
  forall i j, (i < n)%nat -> par i = Some j ->
    (j < i)%nat /\ lv j < lv i /\ forall k, (j < k < i)%nat -> lv i <= lv k.
Hypothesis par_none :
  forall i, (i < n)%nat -> par i = None -> forall k, (k < i)%nat -> lv i <= lv k.
Hypothesis dep_root : forall i, (i < n)%nat -> par i = None -> dep i = 0%nat.
Hypothesis dep_child :
  forall i j, (i < n)%nat -> par i = Some j -> dep i = Datatypes.S (dep j).

Lemma find_section (i : nat) (s : Section) :
  secs !! i = Some s ->
  List.find (fun t => String.eqb (id t) (sec_id i)) secs = Some s.
Proof using All.
  intros Hi. apply (find_by_id secs 0 i s); [|exact Hi].
  intros j t Hj. now apply secs_id.
Qed.

(** The next section after [a] that hangs under [p], or [e]. *)
Lemma next_root (p : option nat) (e : nat) :
  forall k a, (e - a = k)%nat -> (a <= e)%nat ->
    exists e', (a <= e' <= e)%nat /\
               (forall j, (a <= j < e')%nat -> par j <> p) /\
               (e' = e \/ par e' = p).
Proof using All.
  induction k as [|k IH]; intros a Hk Hle.
  - exists e. split; [lia|]. split; [intros j Hj; lia|now left].
  - destruct (decide (par a = p)) as [Hp|Hp].
    + exists a. split; [lia|]. split; [intros j Hj; lia|now right].
    + destruct (IH (Datatypes.S a)) as (e' & He' & Hnone & Hend); [lia|lia|].
      exists e'. split; [lia|]. split; [|exact Hend].
      intros j Hj. destruct (decide (j = a)) as [->|Hne]; [exact Hp|].
      apply Hnone. lia.
Qed.

Lemma closed_prefix (a e e' : nat) (p : option nat) :
  closed n par a e -> below p a ->
  (a < e' <= e)%nat -> (e <= n)%nat ->
  e' = e \/ par e' = p ->
  closed n par a e'.
Proof using All.
  intros Hclosed Hbelow He' Hen Hend j k Hj Hpar Hk.
  destruct (le_lt_dec e j) as [Hej|Hje].
  { apply (Hclosed j k); [lia|exact Hpar|lia]. }
  destruct Hend as [->|Hroot]; [lia|].
  destruct (decide (j = e')) as [->|Hne].
  { rewrite Hpar in Hroot. symmetry in Hroot. apply Hbelow in Hroot. lia. }
  destruct (par_some j k) as (Hkj & Hlv & Hbetween); [lia|exact Hpar|].
  pose proof (Hbetween e' ltac:(lia)) as Hje'.
  destruct p as [q|].
  - pose proof (Hbelow q eq_refl) as Hq.
    destruct (par_some e' q) as (_ & _ & Hbetween'); [lia|exact Hroot|].
    pose proof (Hbetween' k ltac:(lia)). lia.
  - pose proof (par_none e' ltac:(lia) Hroot k ltac:(lia)). lia.
Qed.

Lemma children_local (a e' : nat) (s : Section) :
  secs !! a = Some s ->
  (a < e' <= n)%nat ->
  closed n par a e' ->
  children s
  = sec_id <$> hanging par (Some a) (seq (Datatypes.S a) (e' - Datatypes.S a)).
Proof using All.
  intros Hs He' Hclosed. rewrite (secs_children a s Hs). f_equal.
  unfold hanging.
  assert (Hsplit : seq 0 n
                   = seq 0 (Datatypes.S a)
                     ++ seq (Datatypes.S a) (e' - Datatypes.S a)
                     ++ seq e' (n - e')).
  { replace n with (Datatypes.S a + ((e' - Datatypes.S a) + (n - e')))%nat at 1 by lia.
    rewrite !seq_app. do 2 f_equal. f_equal. lia. }
  rewrite Hsplit, !filter_app.
  rewrite (filter_seq_nil (fun j => par j = Some a) (Datatypes.S a) 0).
  2:{ intros j Hj Hpar. destruct (le_lt_dec n j) as [Hn|Hn]; [lia|].
      destruct (par_some j a Hn Hpar) as (Hlt & _). lia. }
  rewrite (filter_seq_nil (fun j => par j = Some a) (n - e') e').
  2:{ intros j Hj Hpar. apply (Hclosed j a); [lia|exact Hpar|lia]. }
  cbn [app]. now rewrite app_nil_r.
Qed.

Lemma map_lines_nil (a : nat) : map_lines secs dep a a = "".
Proof using All. unfold map_lines. now rewrite Nat.sub_diag. Qed.

Lemma map_lines_split (a e' e : nat) (s : Section) :
  secs !! a = Some s ->
  (a < e' <= e)%nat ->
  map_lines secs dep a e
  = section_line (Z.of_nat (dep a)) s +:+
    (map_lines secs dep (Datatypes.S a) e' +:+ map_lines secs dep e' e).
Proof using All.
  intros Hs He'. unfold map_lines.
  replace (e - a)%nat
    with (1 + ((e' - Datatypes.S a) + (e - e')))%nat by lia.
  rewrite seq_app, map_app. cbn [seq map]. rewrite Hs.
  rewrite seq_app, map_app.
  replace (a + 1 + (e' - Datatypes.S a))%nat with e' by lia.
  replace (a + 1)%nat with (Datatypes.S a) by lia.
  rewrite concat_lines_app. cbn [concat_lines fold_right].
  rewrite string_app_nil_r. now rewrite concat_lines_app.
Qed.

(** The walk over a run that is a forest under [p] writes the lines of
    the run in order. *)
Lemma walk_block :
  forall m a e p d f out,
    (e - a <= m)%nat -> (a <= e <= n)%nat -> (e - a <= f)%nat ->
    under par a e p -> closed n par a e -> below p a ->
    (forall j, (a <= j < e)%nat -> par j = p -> dep j = d) ->
    fold_left
      (fun output child_id =>
         append_text output (format_section f secs child_id (Z.of_nat d)))
      (sec_id <$> hanging par p (seq a (e - a)))
      (Text out)
    = Text (out +:+ map_lines secs dep a e).
Proof using All.
  induction m as [|m IH]; intros a e p d f out Hm Hae Hf Hunder Hclosed Hbelow Hdep.
  { replace e with a by lia. rewrite Nat.sub_diag, map_lines_nil.
    cbn. now rewrite string_app_nil_r. }
  destruct (decide (a = e)) as [<-|Hne].
  { rewrite Nat.sub_diag, map_lines_nil. cbn. now rewrite string_app_nil_r. }
  assert (Hroot : par a = p).
  { destruct (Hunder a ltac:(lia)) as [H|(k & Hk & Hak)]; [exact H|].
    destruct (par_some a k) as (Hlt & _); [lia|exact Hk|lia]. }
  destruct (next_root p e (e - Datatypes.S a) (Datatypes.S a) eq_refl ltac:(lia))
    as (e' & He' & Hnone & Hend).
  destruct (secs !! a) as [s|] eqn:Hs.
  2:{ apply lookup_ge_None in Hs. lia. }
  assert (Hclosed' : closed n par a e').
  { apply (closed_prefix a e e' p); try assumption; lia. }
  (* the roots of the run: [a], then those from [e'] on *)
  assert (Hroots : hanging par p (seq a (e - a))
                   = a :: hanging par p (seq e' (e - e'))).
  { unfold hanging. replace (e - a)%nat
      with (1 + ((e' - Datatypes.S a) + (e - e')))%nat by lia.
    rewrite seq_app. cbn [seq app]. rewrite filter_cons_True by exact Hroot.
    f_equal. replace (a + 1)%nat with (Datatypes.S a) by lia.
    rewrite seq_app, filter_app.
    rewrite (filter_seq_nil (fun j => par j = p) (e' - Datatypes.S a) (Datatypes.S a)).
    2:{ intros j Hj. apply Hnone. lia. }
    cbn [app]. do 2 f_equal. lia. }
  rewrite Hroots. cbn [fmap list_fmap fold_left].
  (* the section [a] and its descendants *)
  destruct f as [|f']; [lia|].
  assert (Hwalk : format_section (Datatypes.S f') secs (sec_id a) (Z.of_nat d)
                  = Text (section_line (Z.of_nat d) s +:+
                          map_lines secs dep (Datatypes.S a) e')).
  { cbn [format_section]. rewrite (find_section a s Hs).
    rewrite (children_local a e' s Hs ltac:(lia) Hclosed').
    replace (Z.of_nat d + 1) with (Z.of_nat (Datatypes.S d)) by lia.
    apply (IH (Datatypes.S a) e' (Some a) (Datatypes.S d) f').
    - lia.
    - lia.
    - lia.
    - intros j Hj. destruct (Hunder j ltac:(lia)) as [H|(k & Hk & Hak)].
      + exfalso. apply (Hnone j); [lia|exact H].
      + destruct (decide (k = a)) as [->|Hka]; [now left|].
        right. exists k. split; [exact Hk|lia].
    - intros j k Hj Hk Hrange. apply (Hclosed' j k Hj Hk). lia.
    - intros q Hq. inversion Hq. lia.
    - intros j Hj Hpar. rewrite (dep_child j a ltac:(lia) Hpar).
      f_equal. apply Hdep; [lia|exact Hroot]. }
  rewrite Hwalk. cbn [append_text].
  (* the rest of the run *)
  rewrite (IH e' e p d (Datatypes.S f')).
  - rewrite (map_lines_split a e' e s Hs ltac:(lia)).
    rewrite (Hdep a ltac:(lia) Hroot).
    now rewrite !string_app_assoc.
  - lia.
  - lia.
  - lia.
  - intros j Hj. destruct (Hunder j ltac:(lia)) as [H|(k & Hk & Hak)]; [now left|].
    right. exists k. split; [exact Hk|].
    destruct (le_lt_dec e' k) as [Hle|Hlt]; [exact Hle|].
    exfalso. apply (Hclosed' j k); [lia|exact Hk|lia].
  - intros j k Hj Hk Hrange. apply (Hclosed j k Hj Hk). lia.
  - intros q Hq. pose proof (Hbelow q Hq). lia.
  - intros j Hj Hpar. apply Hdep; [lia|exact Hpar].
Qed.

Lemma generate_section_map_lines (f : nat) :
  (n <= f)%nat ->
  generate_section_map f secs
  = Text (("# Document Section Map" +:+ nl +:+ nl) +:+ map_lines secs dep 0 n).
Proof using All.
  intros Hf. unfold generate_section_map. cbn zeta. rewrite secs_roots.
  pose proof (walk_block n 0 n None 0 f ("# Document Section Map" +:+ nl +:+ nl))
    as Hwalk.
  rewrite Nat.sub_0_r in Hwalk. apply Hwalk.
  - lia.
  - lia.
  - lia.
  - intros j Hj. destruct (par j) as [k|]; [|now left].
    right. exists k. split; [reflexivity|lia].
  - intros j k Hj. lia.
  - intros q Hq. discriminate.
  - intros j Hj Hpar. apply dep_root; [lia|exact Hpar].
Qed.

End TreeWalk.

Section SectionMap.

Import parse_document_structure.

Lemma parent_index_spec (headers : list header) (lvl : Z) (i : nat) :
  match parent_index headers lvl i with
  | Some j =>
      (j < i)%nat /\
      (exists h, headers !! j = Some h /\ h_level h < lvl) /\
      (forall k hk, (j < k < i)%nat -> headers !! k = Some hk -> lvl <= h_level hk)
  | None =>
      forall k hk, (k < i)%nat -> headers !! k = Some hk -> lvl <= h_level hk
  end.
Proof.
  induction i as [|i IH]; cbn [parent_index]; [intros k hk Hk; lia|].
  destruct (headers !! i) as [h|] eqn:Hh.
  - destruct (Z.ltb_spec (h_level h) lvl) as [Hlt|Hge].
    + split; [lia|]. split; [now exists h|]. intros k hk Hk. lia.
    + destruct (parent_index headers lvl i) as [j|].
      * destruct IH as (Hj & Hlow & Hbetween). split; [lia|]. split; [exact Hlow|].
        intros k hk Hk Hhk. destruct (decide (k = i)) as [->|Hne].
        -- rewrite Hh in Hhk. inversion Hhk. now subst.
        -- apply (Hbetween k hk); [lia|exact Hhk].
      * intros k hk Hk Hhk. destruct (decide (k = i)) as [->|Hne].
        -- rewrite Hh in Hhk. inversion Hhk. now subst.
        -- apply (IH k hk); [lia|exact Hhk].
  - destruct (parent_index headers lvl i) as [j|].
    + destruct IH as (Hj & Hlow & Hbetween). split; [lia|]. split; [exact Hlow|].
      intros k hk Hk Hhk. destruct (decide (k = i)) as [->|Hne]; [congruence|].
      apply (Hbetween k hk); [lia|exact Hhk].
    + intros k hk Hk Hhk. destruct (decide (k = i)) as [->|Hne]; [congruence|].
      apply (IH k hk); [lia|exact Hhk].
Qed.

Lemma find_parent_index (headers : list header) (lvl : Z) (i : nat) :
  find_parent headers lvl i = sec_id <$> parent_index headers lvl i.
Proof.
  induction i as [|i IH]; [reflexivity|]. cbn [find_parent parent_index].
  destruct (headers !! i) as [h|]; [|exact IH].
  destruct (h_level h <? lvl); [reflexivity|exact IH].
Qed.

Lemma parent_of_lt (headers : list header) (i j : nat) :
  parent_of headers i = Some j -> (j < i)%nat.
Proof.
  unfold parent_of. destruct (headers !! i) as [h|]; [|discriminate].
  intros Hp. pose proof (parent_index_spec headers (h_level h) i) as Hspec.
  rewrite Hp in Hspec. tauto.
Qed.

Lemma parent_of_some (headers : list header) (i j : nat) :
  (i < length headers)%nat -> parent_of headers i = Some j ->
  (j < i)%nat /\ level_at headers j < level_at headers i /\
  forall k, (j < k < i)%nat -> level_at headers i <= level_at headers k.
Proof.
  intros Hi Hp. unfold parent_of in Hp. unfold level_at at 2 3.
  destruct (headers !! i) as [h|]; [|discriminate].
  pose proof (parent_index_spec headers (h_level h) i) as Hspec.
  rewrite Hp in Hspec. destruct Hspec as (Hj & (hj & Hhj & Hlow) & Hbetween).
  split; [exact Hj|]. split.
  - unfold level_at. now rewrite Hhj.
  - intros k Hk. unfold level_at.
    destruct (headers !! k) as [hk|] eqn:Hhk.
    + now apply (Hbetween k hk).
    + apply lookup_ge_None in Hhk. lia.
Qed.

Lemma parent_of_none (headers : list header) (i : nat) :
  (i < length headers)%nat -> parent_of headers i = None ->
  forall k, (k < i)%nat -> level_at headers i <= level_at headers k.
Proof.
  intros Hi Hp k Hk. unfold parent_of in Hp. unfold level_at.
  destruct (headers !! i) as [h|] eqn:Hh.
  2:{ apply lookup_ge_None in Hh. lia. }
  pose proof (parent_index_spec headers (h_level h) i) as Hspec.
  rewrite Hp in Hspec.
  destruct (headers !! k) as [hk|] eqn:Hhk.
  - now apply (Hspec k hk).
  - apply lookup_ge_None in Hhk. lia.
Qed.

Lemma depth_from_enough (headers : list header) :
  forall f1 f2 i, (i < f1)%nat -> (i < f2)%nat ->
                  depth_from headers f1 i = depth_from headers f2 i.
Proof.
  induction f1 as [|f1 IH]; intros f2 i H1 H2; [lia|].
  destruct f2 as [|f2]; [lia|]. cbn [depth_from].
  destruct (parent_of headers i) as [j|] eqn:Hp; [|reflexivity].
  apply parent_of_lt in Hp. f_equal. apply IH; lia.
Qed.

Lemma depth_child (headers : list header) (i j : nat) :
  parent_of headers i = Some j ->
  depth headers i = Datatypes.S (depth headers j).
Proof.
  intros Hp. unfold depth.
  change (depth_from headers (Datatypes.S i) i)
    with (match parent_of headers i with
          | Some j => Datatypes.S (depth_from headers i j)
          | None => 0%nat
          end).
  rewrite Hp. f_equal.
  apply parent_of_lt in Hp. apply depth_from_enough; lia.
Qed.

Lemma depth_root (headers : list header) (i : nat) :
  parent_of headers i = None -> depth headers i = 0%nat.
Proof. intros Hp. unfold depth. cbn [depth_from]. now rewrite Hp. Qed.

(** The ids of the sections with a given parent, by position. *)
Lemma hanging_by_index (par : nat -> option nat) (l : list Section) :
  (forall j t, l !! j = Some t ->
               id t = sec_id j /\ parent_id t = sec_id <$> par j) ->
  (forall i, id <$> filter (fun t => parent_id t = Some (sec_id i)) l
             = sec_id <$> hanging par (Some i) (seq 0 (length l))) /\
  map id (List.filter (fun s => match parent_id s with
                                | None => true
                                | Some _ => false
                                end) l)
  = sec_id <$> hanging par None (seq 0 (length l)).
Proof.
  induction l as [|t l IH] using rev_ind; intros Hl; [now split|].
  destruct IH as [IHc IHr].
  { intros j t' Hj. apply Hl. now apply lookup_app_l_Some. }
  destruct (Hl (length l) t) as [Hid Hpar].
  { rewrite lookup_app_r by lia. now rewrite Nat.sub_diag. }
  rewrite length_app. cbn [length]. rewrite seq_app. cbn [seq Nat.add].
  unfold hanging in *. split.
  - intros i. rewrite !filter_app, !fmap_app, IHc. f_equal.
    destruct (decide (par (length l) = Some i)) as [Hp|Hp].
    + rewrite (filter_cons_True _ (length l)) by exact Hp.
      rewrite filter_cons_True by (rewrite Hpar, Hp; reflexivity).
      cbn. now rewrite Hid.
    + rewrite (filter_cons_False _ (length l)) by exact Hp.
      rewrite filter_cons_False; [reflexivity|].
      rewrite Hpar. intros H. apply Hp.
      destruct (par (length l)) as [k|]; [|discriminate].
      change (Some (sec_id k) = Some (sec_id i)) in H.
      assert (H' : sec_id k = sec_id i) by congruence.
      apply sec_id_inj in H'. now subst.
  - rewrite List.filter_app, map_app, filter_app, fmap_app, IHr. f_equal.
    cbn [List.filter]. rewrite Hpar.
    destruct (par (length l)) as [k|] eqn:Hp; cbn.
    + destruct (decide (par (length l) = None)); [congruence|reflexivity].
    + destruct (decide (par (length l) = None)); [|congruence].
      cbn. now rewrite Hid.
Qed.

Lemma map_lines_imap (dep : nat -> nat) (l : list Section) :
  concat_lines (imap (fun i s => section_line (Z.of_nat (dep i)) s) l)
  = map_lines l dep 0 (length l).
Proof.
  induction l as [|t l IH] using rev_ind; [reflexivity|].
  unfold map_lines in *. rewrite imap_app, concat_lines_app, IH.
  rewrite length_app, !Nat.sub_0_r. cbn [length]. rewrite seq_app, map_app.
  rewrite concat_lines_app. f_equal.
  - f_equal. apply map_ext_in. intros j Hj. apply in_seq in Hj.
    now rewrite lookup_app_l by lia.
  - cbn. rewrite lookup_app_r by lia. rewrite Nat.sub_diag. cbn.
    now rewrite Nat.add_0_r.
Qed.

Lemma sections_by_index (text : string) (headers : list header)
    (j : nat) (t : Section) :
  build_section_hierarchy text headers !! j = Some t ->
  id t = sec_id j /\ parent_id t = sec_id <$> parent_of headers j.
Proof.
  intros Ht. apply build_section_hierarchy_fields in Ht.
  destruct Ht as (h & Hh & Hid & _ & _ & Hpar & _).
  split; [exact Hid|]. unfold parent_of. rewrite Hh, Hpar.
  apply find_parent_index.
Qed.

Lemma children_by_index (text : string) (headers : list header)
    (i : nat) (s : Section) :
  build_section_hierarchy text headers !! i = Some s ->
  children s
  = sec_id <$> hanging (parent_of headers) (Some i) (seq 0 (length headers)).
Proof.
  intros Hs. pose proof Hs as Hf. apply sections_by_index in Hf as [Hid _].
  rewrite <- (build_section_hierarchy_length text headers).
  rewrite <- (proj1 (hanging_by_index (parent_of headers)
                      (build_section_hierarchy text headers)
                      (sections_by_index text headers)) i).
  rewrite <- Hid.
  rewrite build_section_hierarchy_lookup in Hs.
  destruct (headers !! i) as [h|]; [|discriminate].
  cbn in Hs. inversion Hs as [Hs']. unfold build_section_hierarchy. cbn zeta.
  exact (children_filter _ (make_section (py_split NL text) headers i h) _).
Qed.

(** X16.  The section map lists every section once, in the order of the
    document: after the title line it has one line per section, the line
    of the section number [i] indented by two spaces for each of its
    ancestors ([depth], counted along the parents [parent_of] that the
    sections record).  [generate_section_map] comes to its end, the
    recursion being no deeper than there are sections, and its [next(...)]
    finds every id it looks up. *)
Theorem section_map_lists_sections_in_order (text : string)
    (headers : list header) :
  let sections := build_section_hierarchy text headers in
  generate_section_map (length sections) sections
  = Text (("# Document Section Map" +:+ nl +:+ nl) +:+
          concat_lines
            (imap (fun i s => section_line (Z.of_nat (depth headers i)) s)
                  sections)) /\
  forall i s, sections !! i = Some s ->
              parent_id s = sec_id <$> parent_of headers i.
Proof.
  cbn zeta. split.
  - rewrite map_lines_imap, build_section_hierarchy_length.
    apply (generate_section_map_lines (length headers) (level_at headers)
             (parent_of headers) (depth headers)
             (build_section_hierarchy text headers)).
    + apply build_section_hierarchy_length.
    + intros i s Hs. now apply (sections_by_index text headers i s).
    + intros i s Hs. now apply (children_by_index text headers i s).
    + rewrite <- (build_section_hierarchy_length text headers).
      apply (hanging_by_index (parent_of headers)
               (build_section_hierarchy text headers)
               (sections_by_index text headers)).
    + apply parent_of_some.
    + apply parent_of_none.
    + intros i _. apply depth_root.
    + intros i j _. apply depth_child.
    + lia.
  - intros i s Hs. now apply (sections_by_index text headers i s).
Qed.

End SectionMap.

(** ** parse_document_structure.py: the levels of the headers *)

Lemma length_string_of_list_ascii (l : list ascii) :
  String.length (string_of_list_ascii l) = length l.
Proof. induction l as [|c l IH]; [reflexivity|]. cbn. now rewrite IH. Qed.

(** A pattern that does not bind the group [n] leaves it as it was. *)
Lemma rx_match_keeps (multiline : bool) (n : nat) (r : regex) :
  binds n r = false ->
  forall st k res,
    rx_match multiline r st k = Some res ->
    exists st', k st' = Some res /\
                assoc_group n (ms_caps st') = assoc_group n (ms_caps st).
Proof.
  induction r as [c| | | | | |r1 IH1 r2 IH2|r1 IH1 r2 IH2|greedy lo hi r1 IH1|m r1 IH1];
    intros Hbinds st k res Hrun; cbn [binds] in Hbinds.
  - cbn [rx_match] in Hrun. unfold ms_step, ms_advance in Hrun.
    destruct (ms_rest st) as [|c' rest]; [discriminate|].
    destruct (Ascii.eqb c c'); [|discriminate]. eexists. split; [exact Hrun|reflexivity].
  - cbn [rx_match] in Hrun. unfold ms_step, ms_advance in Hrun.
    destruct (ms_rest st) as [|c' rest]; [discriminate|].
    destruct (negb _); [|discriminate]. eexists. split; [exact Hrun|reflexivity].
  - cbn [rx_match] in Hrun. unfold ms_step, ms_advance in Hrun.
    destruct (ms_rest st) as [|c' rest]; [discriminate|].
    destruct (py_isspace c'); [|discriminate]. eexists. split; [exact Hrun|reflexivity].
  - cbn [rx_match] in Hrun. destruct (at_bol multiline st); [|discriminate].
    now exists st.
  - cbn [rx_match] in Hrun. destruct (at_eol multiline st); [|discriminate].
    now exists st.
  - cbn [rx_match] in Hrun. now exists st.
  - apply orb_false_elim in Hbinds as [H1 H2]. cbn [rx_match] in Hrun.
    destruct (IH1 H1 _ _ _ Hrun) as (st1 & Hrun1 & Hcaps1).
    destruct (IH2 H2 _ _ _ Hrun1) as (st2 & Hrun2 & Hcaps2).
    exists st2. split; [exact Hrun2|congruence].
  - apply orb_false_elim in Hbinds as [H1 H2]. cbn [rx_match] in Hrun.
    unfold orelse in Hrun.
    destruct (rx_match multiline r1 st k) as [x|] eqn:E1.
    + inversion Hrun. subst x. now apply (IH1 H1 _ _ _ E1).
    + now apply (IH2 H2 _ _ _ Hrun).
  - cbn [rx_match] in Hrun.
    match type of Hrun with
    | ?f _ 0%nat st = Some res =>
        assert (H : forall fuel i st0,
                  f fuel i st0 = Some res ->
                  exists st', k st' = Some res /\
                              assoc_group n (ms_caps st')
                              = assoc_group n (ms_caps st0))
    end.
    { clear Hrun st. induction fuel as [|fuel IHf]; intros i st Hrun.
      - destruct greedy; cbn [orelse] in Hrun.
        + destruct (lo <=? i)%nat; [|discriminate]. now exists st.
        + destruct (lo <=? i)%nat; [|discriminate].
          destruct (k st) as [x|] eqn:Ek; [|discriminate].
          inversion Hrun. subst x. now exists st.
      - destruct greedy; cbn [orelse] in Hrun; unfold orelse in Hrun.
        + match type of Hrun with
          | match ?a with _ => _ end = _ => destruct a as [x|] eqn:E
          end.
          * inversion Hrun. subst x. clear Hrun.
            destruct (in_range i hi); [|discriminate].
            destruct (IH1 Hbinds _ _ _ E) as (st1 & Hrun1 & Hcaps1).
            destruct (ms_pos st <? ms_pos st1)%nat; [|discriminate].
            destruct (IHf _ _ Hrun1) as (st2 & Hrun2 & Hcaps2).
            exists st2. split; [exact Hrun2|congruence].
          * destruct (lo <=? i)%nat; [|discriminate]. now exists st.
        + match type of Hrun with
          | match ?a with Some _ => _ | None => ?more end = _ =>
              assert (Hmore : more = Some res ->
                              exists st', k st' = Some res /\
                                          assoc_group n (ms_caps st')
                                          = assoc_group n (ms_caps st));
                [|destruct a as [x|] eqn:Ea; [|now apply Hmore]]
          end.
          * intros Hm. destruct (in_range i hi); [|discriminate].
            destruct (IH1 Hbinds _ _ _ Hm) as (st1 & Hrun1 & Hcaps1).
            destruct (ms_pos st <? ms_pos st1)%nat; [|discriminate].
            destruct (IHf _ _ Hrun1) as (st2 & Hrun2 & Hcaps2).
            exists st2. split; [exact Hrun2|congruence].
          * inversion Hrun. subst x.
            destruct (lo <=? i)%nat; [|discriminate]. now exists st. }
    exact (H _ _ _ Hrun).
  - apply orb_false_elim in Hbinds as [Hm H1]. cbn [rx_match] in Hrun.
    destruct (IH1 H1 _ _ _ Hrun) as (st1 & Hrun1 & Hcaps1).
    eexists. split; [exact Hrun1|]. cbn [ms_caps assoc_group].
    now rewrite Hm.
Qed.

(** One to six times the character [c], as many as there are. *)
Lemma rx_match_one_to_six (multiline : bool) (c : ascii) (st : mstate)
    (k : mstate -> option mstate) (res : mstate) :
  rx_match multiline (RRep true 1 (Some 6%nat) (RChar c)) st k = Some res ->
  exists st' d,
    k st' = Some res /\ ms_caps st' = ms_caps st /\
    (1 <= d <= 6)%nat /\ ms_pos st' = (ms_pos st + d)%nat /\
    (d <= length (ms_rest st))%nat.
Proof.
  cbn [rx_match]. intros Hrun.
  match type of Hrun with
  | ?f _ 0%nat st = Some res =>
      assert (H : forall fuel i st0,
                (i <= 6)%nat ->
                f fuel i st0 = Some res ->
                exists st' d,
                  k st' = Some res /\ ms_caps st' = ms_caps st0 /\
                  (1 <= i + d <= 6)%nat /\ ms_pos st' = (ms_pos st0 + d)%nat /\
                  (d <= length (ms_rest st0))%nat)
  end.
  { clear Hrun st. induction fuel as [|fuel IH]; intros i st Hi Hrun;
      cbn [orelse] in Hrun; unfold orelse in Hrun.
    - destruct (Nat.leb_spec 1 i) as [Hle|]; [|discriminate].
      exists st, 0%nat. repeat split; try lia. exact Hrun.
    - match type of Hrun with
      | match ?a with _ => _ end = _ => destruct a as [x|] eqn:E
      end.
      + inversion Hrun. subst x. clear Hrun.
        unfold in_range in E. destruct (Nat.ltb_spec i 6) as [Hlt|]; [|discriminate].
        cbn [rx_match] in E. unfold ms_step, ms_advance in E.
        destruct (ms_rest st) as [|c' rest] eqn:Hrest; [discriminate|].
        destruct (Ascii.eqb c c'); [|discriminate].
        cbn [ms_pos] in E.
        destruct (ms_pos st <? Datatypes.S (ms_pos st))%nat; [|discriminate].
        destruct (IH (Datatypes.S i) _ ltac:(lia) E)
          as (st' & d & Hk & Hcaps & Hd & Hpos & Hlen).
        cbn [ms_caps ms_pos ms_rest] in *.
        exists st', (Datatypes.S d). repeat split; try assumption; try lia.
        cbn [length]. lia.
      + destruct (Nat.leb_spec 1 i) as [Hle|]; [|discriminate].
        exists st, 0%nat. repeat split; try lia. exact Hrun. }
  destruct (H (length (ms_rest st)) 0%nat st ltac:(lia) Hrun)
    as (st' & d & Hk & Hcaps & Hd & Hpos & Hlen).
  exists st', d. repeat split; try assumption; lia.
Qed.

Section HeaderLevels.

Import parse_document_structure.

Lemma re_header_level (s : string) (m : rmatch) :
  re_match false re_header s = Some m ->
  (1 <= String.length (m_group m 1) <= 6)%nat.
Proof.
  unfold re_match, match_at.
  destruct (rx_match false re_header _ Some) as [st'|] eqn:E; [|discriminate].
  intros Hm. inversion Hm. subst m. clear Hm. unfold m_group. cbn [m_groups].
  unfold re_header in E. cbn [rx_seq] in E.
  change (rx_match false (RSeq RBol ?r) ?st ?k)
    with (if at_bol false st then rx_match false r st k else None) in E.
  destruct (at_bol false _); [|discriminate].
  change (rx_match false (RSeq (RGroup 1 ?r1) ?r2) ?st ?k)
    with (rx_match false r1 st
            (fun st' =>
               rx_match false r2
                 (MState (ms_pos st') (ms_prev st') (ms_rest st')
                    ((1%nat,
                      string_of_list_ascii
                        (firstn (ms_pos st' - ms_pos st) (ms_rest st)))
                     :: ms_caps st')) k)) in E.
  apply rx_match_one_to_six in E.
  destruct E as (st1 & d & Hrest & Hcaps & Hd & Hpos & Hlen).
  apply (rx_match_keeps false 1) in Hrest; [|reflexivity].
  destruct Hrest as (st2 & Hst2 & Hgroup). inversion Hst2. subst st2.
  rewrite Hgroup. cbn [ms_caps assoc_group Nat.eqb].
  rewrite length_string_of_list_ascii, Hpos.
  cbn [ms_pos ms_rest ms_init] in *.
  rewrite firstn_length_le by lia. lia.
Qed.

Lemma headers_from_levels (lines : list string) :
  forall i h, h ∈ headers_from i lines -> 1 <= h_level h <= 6.
Proof.
  induction lines as [|line lines IH]; intros i h Hh; cbn [headers_from] in Hh.
  - now apply elem_of_nil in Hh.
  - destruct (re_match false re_header (py_strip line)) as [m|] eqn:Hm.
    + apply elem_of_cons in Hh as [->|Hh]; [|now apply (IH (i + 1))].
      cbn [h_level]. apply re_header_level in Hm. lia.
    + now apply (IH (i + 1)).
Qed.

Lemma depth_below_level (headers : list header) :
  (forall h, h ∈ headers -> 1 <= h_level h) ->
  forall i h, headers !! i = Some h -> Z.of_nat (depth headers i) < h_level h.
Proof.
  intros Hpos i. induction i as [i IH] using lt_wf_ind. intros h Hh.
  pose proof (lookup_lt_Some _ _ _ Hh) as Hi.
  destruct (parent_of headers i) as [j|] eqn:Hp.
  - rewrite (depth_child headers i j Hp).
    destruct (parent_of_some headers i j Hi Hp) as (Hj & Hlv & _).
    unfold level_at in Hlv. rewrite Hh in Hlv.
    destruct (headers !! j) as [hj|] eqn:Hhj.
    + pose proof (IH j Hj hj Hhj). lia.
    + apply lookup_ge_None in Hhj. lia.
  - rewrite (depth_root headers i Hp).
    pose proof (Hpos h (list_elem_of_lookup_2 _ _ _ Hh)). lia.
Qed.

(** X17.  Every header [extract_headers] finds has a level from 1 to 6,
    and a section lies less deep than its level: a header of level [l]
    has at most [l - 1] ancestors, so no section of a parsed document has
    more than five, and the section map is never indented by more than
    five steps. *)
Theorem header_levels_bound_the_depth (content : string) :
  let headers := extract_headers content in
  (forall h, h ∈ headers -> 1 <= h_level h <= 6) /\
  (forall i h, headers !! i = Some h ->
               Z.of_nat (depth headers i) < h_level h <= 6).
Proof.
  cbn zeta.
  assert (Hlevels : forall h, h ∈ extract_headers content -> 1 <= h_level h <= 6).
  { intros h Hh. now apply (headers_from_levels (py_split NL content) 1 h). }
  split; [exact Hlevels|]. intros i h Hh. split.
  - apply depth_below_level; [|exact Hh]. intros h' Hh'. now apply Hlevels.
  - now apply Hlevels, (list_elem_of_lookup_2 _ i).
Qed.

End HeaderLevels.
